(** * logit: the writer pipeline and the per-level dispatch table

    A shallow embedding of the output engine of the logit logging library:
    the dispatch table of [core.go], the configuration code that builds a
    writer, the writer wrappers, the logger's sync/close path and the
    filename generator of the rotating sink.  Every definition carries the
    name of the Go function it is translated from. *)

From Stdlib Require Import ZArith List String Ascii Bool Lia DecimalString
  DecimalPos DecimalZ.
From ITree Require Import ITree.
From Paco Require Import paco.
Import ListNotations.

Local Open Scope Z_scope.

(** ** The Go library functions the configuration code calls

    Models of [strings.HasSuffix], [strings.TrimSuffix],
    [strconv.ParseInt] and [time.ParseDuration], written after the Go
    standard library.  A Go string is its sequence of bytes; [uint64] and
    [int64] are integers with the wrap-around written out. *)

Module Go.

Definition gostring : Type := list ascii.

Definition str (s : string) : gostring := list_ascii_of_string s.

Definition len (s : gostring) : nat := List.length s.

Definition byte_val (c : ascii) : Z := Z.of_N (N_of_ascii c).

Fixpoint bytes_eqb (a b : gostring) : bool :=
  match a, b with
  | [], [] => true
  | x :: a', y :: b' => Ascii.eqb x y && bytes_eqb a' b'
  | _, _ => false
  end.

Definition u64 (x : Z) : Z := x mod 2 ^ 64.

Definition i64 (x : Z) : Z := (x + 2 ^ 63) mod 2 ^ 64 - 2 ^ 63.

Inductive error : Type :=
| ErrSyntax            (* strconv.ErrSyntax *)
| ErrRange             (* strconv.ErrRange *)
| ErrInvalidDuration   (* time: invalid duration *)
| ErrMissingUnit       (* time: missing unit in duration *)
| ErrUnknownUnit (u : gostring)  (* time: unknown unit u in duration *)
| ErrTargetInvalid (target : gostring)  (* writer target %s invalid *)
| ErrModeInvalid (mode : gostring)      (* writer mode %s invalid *)
| ErrOther (code : Z). (* an error of a collaborator: file system, size parser, sink *)

(** A Go [(value, error)] result whose value is only read when the error
    is nil. *)
Inductive result (A : Type) : Type :=
| Ok (a : A)
| Err (e : error).

Arguments Ok {A} a.
Arguments Err {A} e.

Definition is_ok {A : Type} (r : result A) : bool :=
  match r with Ok _ => true | Err _ => false end.

(** [strings.HasSuffix]: [len(s) >= len(suffix) && s[len(s)-len(suffix):] == suffix]. *)
Definition HasSuffix (s suffix : gostring) : bool :=
  (len suffix <=? len s)%nat &&
  bytes_eqb (skipn (len s - len suffix) s) suffix.

(** [strings.TrimSuffix]. *)
Definition TrimSuffix (s suffix : gostring) : gostring :=
  if HasSuffix s suffix then firstn (len s - len suffix) s else s.

Definition is_digit (c : ascii) : bool :=
  (48 <=? byte_val c) && (byte_val c <=? 57).

(** [strconv.ParseUint(s, 10, 64)]: the loop over the bytes of [s], with
    [cutoff = maxUint64/10 + 1] and [maxVal = 1<<64 - 1].  A letter is a
    digit of value 10 or more and so a syntax error in base 10, like any
    other byte that is not a decimal digit. *)
Fixpoint ParseUint_loop (n : Z) (s : gostring) : result Z :=
  match s with
  | [] => Ok n
  | c :: s' =>
      if negb (is_digit c) then Err ErrSyntax
      else if (2 ^ 64 - 1) / 10 + 1 <=? n then Err ErrRange
      else
        let n10 := u64 (n * 10) in
        let n1 := u64 (n10 + (byte_val c - 48)) in
        if (n1 <? n10) || (2 ^ 64 - 1 <? n1) then Err ErrRange
        else ParseUint_loop n1 s'
  end.

Definition ParseUint (s : gostring) : result Z :=
  match s with
  | [] => Err ErrSyntax
  | _ => ParseUint_loop 0 s
  end.

(** [strconv.ParseInt(s, 10, 64)]. *)
Definition ParseInt (s : gostring) : result Z :=
  match s with
  | [] => Err ErrSyntax
  | c :: s' =>
      let neg := Ascii.eqb c "-" in
      let body := if Ascii.eqb c "+" || Ascii.eqb c "-" then s' else s in
      match ParseUint body with
      | Err ErrRange =>
          (* the range error of ParseUint is replaced by the one below *)
          Err ErrRange
      | Err e => Err e
      | Ok un =>
          let cutoff := 2 ^ 63 in
          if negb neg && (cutoff <=? un) then Err ErrRange
          else if neg && (cutoff <? un) then Err ErrRange
          else
            let n := i64 un in
            Ok (if neg then i64 (- n) else n)
      end
  end.

(** The units of [time.Duration], in nanoseconds. *)
Definition Nanosecond : Z := 1.
Definition Microsecond : Z := 1000 * Nanosecond.
Definition Millisecond : Z := 1000 * Microsecond.
Definition Second : Z := 1000 * Millisecond.
Definition Minute : Z := 60 * Second.
Definition Hour : Z := 60 * Minute.

(** [time.unitMap]; the two spellings of the micro sign are given by
    their UTF-8 bytes. *)
Definition unitMap (u : gostring) : option Z :=
  if bytes_eqb u (str "ns") then Some Nanosecond
  else if bytes_eqb u (str "us") then Some Microsecond
  else if bytes_eqb u [ascii_of_nat 194; ascii_of_nat 181; "s"%char]
       then Some Microsecond
  else if bytes_eqb u [ascii_of_nat 206; ascii_of_nat 188; "s"%char]
       then Some Microsecond
  else if bytes_eqb u (str "ms") then Some Millisecond
  else if bytes_eqb u (str "s") then Some Second
  else if bytes_eqb u (str "m") then Some Minute
  else if bytes_eqb u (str "h") then Some Hour
  else None.

(** [time.leadingInt]: the leading decimal digits of [s] and the rest;
    [None] is [errLeadingInt]. *)
Fixpoint leadingInt_loop (x : Z) (s : gostring) : option (Z * gostring) :=
  match s with
  | [] => Some (x, [])
  | c :: s' =>
      if negb (is_digit c) then Some (x, s)
      else if 2 ^ 63 / 10 <? x then None
      else
        let x' := u64 (x * 10 + byte_val c - 48) in
        if 2 ^ 63 <? x' then None else leadingInt_loop x' s'
  end.

Definition leadingInt (s : gostring) : option (Z * gostring) :=
  leadingInt_loop 0 s.

(** [time.leadingFraction]: digits after the point, as [x / scale]; once
    [x] would overflow the remaining digits are skipped. *)
Fixpoint leadingFraction_loop (x scale : Z) (overflow : bool) (s : gostring)
  : Z * Z * gostring :=
  match s with
  | [] => (x, scale, [])
  | c :: s' =>
      if negb (is_digit c) then (x, scale, s)
      else if overflow then leadingFraction_loop x scale overflow s'
      else if (2 ^ 63 - 1) / 10 <? x then leadingFraction_loop x scale true s'
      else
        let y := u64 (x * 10 + byte_val c - 48) in
        if 2 ^ 63 <? y then leadingFraction_loop x scale true s'
        else leadingFraction_loop y (scale * 10) overflow s'
  end.

Definition leadingFraction (s : gostring) : Z * Z * gostring :=
  leadingFraction_loop 0 1 false s.

(** The unit is the longest prefix without a digit or a point. *)
Fixpoint span_unit (s : gostring) : gostring * gostring :=
  match s with
  | [] => ([], [])
  | c :: s' =>
      if Ascii.eqb c "." || is_digit c then ([], s)
      else let (u, rest) := span_unit s' in (c :: u, rest)
  end.

(** One round of the loop of [time.ParseDuration]: a number, an optional
    fraction and a unit are taken from [s] and added to [d].  The float64
    product [float64(f) * (float64(unit) / scale)] is taken as the exact
    quotient, rounded down. *)
Definition ParseDuration_round (d : Z) (s : gostring) : result (Z * gostring) :=
  match s with
  | [] => Ok (d, [])
  | c :: _ =>
      if negb (Ascii.eqb c "." || is_digit c) then Err ErrInvalidDuration
      else
        match leadingInt s with
        | None => Err ErrInvalidDuration
        | Some (v, s1) =>
            let pre := negb (len s =? len s1)%nat in
            let '(f, scale, s2, post) :=
              match s1 with
              | dot :: s1' =>
                  if Ascii.eqb dot "." then
                    let '(f, scale, s2) := leadingFraction s1' in
                    (f, scale, s2, negb (len s1' =? len s2)%nat)
                  else (0, 1, s1, false)
              | [] => (0, 1, s1, false)
              end in
            if negb pre && negb post then Err ErrInvalidDuration
            else
              let (u, s3) := span_unit s2 in
              match u with
              | [] => Err ErrMissingUnit
              | _ =>
                  match unitMap u with
                  | None => Err (ErrUnknownUnit u)
                  | Some unit =>
                      if 2 ^ 63 / unit <? v then Err ErrInvalidDuration
                      else
                        let v1 := u64 (v * unit) in
                        let v2 :=
                          if 0 <? f then u64 (v1 + u64 (f * unit / scale))
                          else v1 in
                        if (0 <? f) && (2 ^ 63 <? v2) then Err ErrInvalidDuration
                        else
                          let d' := u64 (d + v2) in
                          if 2 ^ 63 <? d' then Err ErrInvalidDuration
                          else Ok (d', s3)
                  end
              end
        end
  end.

(** The loop [for s != ""]; [None] when the fuel runs out. *)
Fixpoint ParseDuration_loop (fuel : nat) (d : Z) (s : gostring)
  : option (result Z) :=
  match s with
  | [] => Some (Ok d)
  | _ :: _ =>
      match fuel with
      | O => None
      | S fuel' =>
          match ParseDuration_round d s with
          | Err e => Some (Err e)
          | Ok (d', s') => ParseDuration_loop fuel' d' s'
          end
      end
  end.

(** [time.ParseDuration] once the sign is consumed: the special case
    ["0"], the empty string, the loop, and the conversion to [Duration].
    Every round removes at least one byte, so the length of the string is
    enough fuel ([ParseDuration_loop_total]). *)
Definition ParseDuration_signed (neg : bool) (s : gostring) : result Z :=
  if bytes_eqb s (str "0") then Ok 0
  else
    match s with
    | [] => Err ErrInvalidDuration
    | _ =>
        match ParseDuration_loop (len s) 0 s with
        | None => Err ErrInvalidDuration
        | Some (Err e) => Err e
        | Some (Ok d) =>
            if neg then Ok (i64 (- i64 d))
            else if 2 ^ 63 - 1 <? d then Err ErrInvalidDuration
            else Ok (i64 d)
        end
    end.

(** [time.ParseDuration]: consume [[-+]?], then the rest. *)
Definition ParseDuration (orig : gostring) : result Z :=
  match orig with
  | c :: s' =>
      if Ascii.eqb c "-" || Ascii.eqb c "+"
      then ParseDuration_signed (Ascii.eqb c "-") s'
      else ParseDuration_signed false orig
  | [] => ParseDuration_signed false orig
  end.

(** A string of decimal digits and the number it writes. *)
Definition all_digits (ds : gostring) : bool := forallb is_digit ds.

Definition step10 (acc : Z) (c : ascii) : Z := acc * 10 + (byte_val c - 48).

Definition decimal_value (ds : gostring) : Z := fold_left step10 ds 0.

End Go.

(** ** Package size: the byte-size strings *)

Module Size.
Import Go.

(** The digits at the head of a string, and the rest. *)
Fixpoint span_digits (s : gostring) : gostring * gostring :=
  match s with
  | [] => ([], [])
  | c :: s' =>
      if is_digit c then let (ds, rest) := span_digits s' in (c :: ds, rest)
      else ([], s)
  end.

(** Modelled from the spec: [size.ParseByteSize] is declared in package
    [size], outside the source at hand.  The specification gives the size
    strings by example, a decimal number and one of the units B, KB, MB
    and GB ("512B", "16KB", "4MB", "1GB"); a kilobyte is 1024 bytes, as
    the constant [KB] of package writer has it. *)
Definition ParseByteSize (s : gostring) : result Z :=
  let (ds, unit) := span_digits s in
  match ParseUint ds with
  | Err err => Err err
  | Ok n =>
      if bytes_eqb unit (str "B") then Ok n
      else if bytes_eqb unit (str "KB") then Ok (n * 1024)
      else if bytes_eqb unit (str "MB") then Ok (n * 1024 * 1024)
      else if bytes_eqb unit (str "GB") then Ok (n * 1024 * 1024 * 1024)
      else Err ErrSyntax
  end.

End Size.

(** ** The configuration code: [parseTimeDuration], [newFile], [newWriter] *)

Module WriterConfig.
Record t : Type := mk {
  Target : Go.gostring;
  Mode : Go.gostring;
  BufferSize : Go.gostring;
  BatchSize : Z;
  AutoSync : Go.gostring
}.
End WriterConfig.

Module FileConfig.
Record t : Type := mk {
  Path : Go.gostring;
  Mode : Z;
  DirMode : Z;
  Rotate : bool;
  MaxSize : Go.gostring;
  MaxAge : Go.gostring;
  MaxBackups : Z
}.
End FileConfig.

Module Config.
Import Go.

Record Config : Type := mkConfig {
  Level : gostring;
  Handler : gostring;
  Writer : WriterConfig.t;
  File : FileConfig.t;
  WithSource : bool;
  WithPID : bool
}.

Definition NewDefaultConfig : Config :=
  {| Level := str "debug";
     Handler := str "text";
     Writer :=
       {| WriterConfig.Target := str "stdout";
          WriterConfig.Mode := str "direct";
          WriterConfig.BufferSize := str "16KB";
          WriterConfig.BatchSize := 64;
          WriterConfig.AutoSync := str "30s" |};
     File :=
       {| FileConfig.Path := str "./logit.log";
          FileConfig.Rotate := false;
          FileConfig.Mode := 420;     (* 0644 *)
          FileConfig.DirMode := 493;  (* 0755 *)
          FileConfig.MaxSize := str "200MB";
          FileConfig.MaxAge := str "90d";
          FileConfig.MaxBackups := 100 |};
     WithSource := false;
     WithPID := true |}.

(** Modelled from the spec: [defaults.Day] is declared in the [defaults]
    package, outside the source at hand; the spec has a day suffix stand
    for 24 hours. *)
Definition Day : Z := 24 * Hour.

(** [Config.parseTimeDuration]; [time.Duration(days) * defaults.Day] is a
    product of two int64. *)
Definition parseTimeDuration (s : gostring) : result Z :=
  if HasSuffix s (str "d") || HasSuffix s (str "D") then
    let s := TrimSuffix s (str "d") in
    let s := TrimSuffix s (str "D") in
    match ParseInt s with
    | Err err => Err err
    | Ok days => Ok (i64 (days * Day))
    end
  else ParseDuration s.

(** What [newFile] returns: a plain file opened by [defaults.OpenFile] or a
    rotating file made by [file.New]. *)
Inductive file : Type :=
| OsFile (path : gostring)
| RotateFile (path : gostring).

(** The writers [newWriter] can build. *)
Inductive writer : Type :=
| Stdout
| Stderr
| Wrap (f : file)
| Buffer (w : writer) (bufferSize : Z)
| Batch (w : writer) (batchSize : Z).

(** The options [newFile] collects for a rotating file. *)
Inductive file_Option : Type :=
| WithMode (mode : Z)
| WithDirMode (mode : Z)
| WithTimeFormat (format : gostring)
| WithMaxSize (size : Z)
| WithMaxAge (age : Z)
| WithMaxBackups (n : Z).

(** The collaborators of the configuration code that live outside the
    source at hand: the size parser of package [size], [file.New],
    [os.MkdirAll], [defaults.OpenFile] and [filepath.Dir].  The three that
    touch the file system answer with the error they return, if any. *)
Record Env : Type := mkEnv {
  ParseByteSize : gostring -> result Z;
  file_New : gostring -> option error;
  MkdirAll : gostring -> Z -> option error;
  OpenFile : gostring -> Z -> option error;
  Dir : gostring -> gostring
}.

(** What the configuration code does to the process: directories and files
    it creates, and background tasks it starts. *)
Inductive effect : Type :=
| MadeDir (dir : gostring) (mode : Z)
| Opened (path : gostring) (mode : Z)
| OpenedRotate (path : gostring)
| Spawned (w : writer) (frequency : Z).

(** The effects so far, oldest first. *)
Definition World : Type := list effect.

Definition is_empty (s : gostring) : bool :=
  match s with [] => true | _ => false end.

Section WithEnv.

Variable env : Env.

(** [Config.newFile].  The options are collected and then left out of the
    call [file.New(c.File.Path)], as in the source. *)
Definition newFile (c : Config) (world : World) : result file * World :=
  if FileConfig.Rotate (File c) then
    let opts :=
      [WithMode (FileConfig.Mode (File c));
       WithDirMode (FileConfig.DirMode (File c));
       WithTimeFormat (str "20060102150405")] in
    match
      (if negb (is_empty (FileConfig.MaxSize (File c))) then
         match ParseByteSize env (FileConfig.MaxSize (File c)) with
         | Err err => Err err
         | Ok maxSize => Ok (opts ++ [WithMaxSize maxSize])
         end
       else Ok opts)
    with
    | Err err => (Err err, world)
    | Ok opts =>
        match
          (if negb (is_empty (FileConfig.MaxAge (File c))) then
             match parseTimeDuration (FileConfig.MaxAge (File c)) with
             | Err err => Err err
             | Ok maxAge => Ok (opts ++ [WithMaxAge maxAge])
             end
           else Ok opts)
        with
        | Err err => (Err err, world)
        | Ok opts =>
            let opts :=
              if 0 <? FileConfig.MaxBackups (File c)
              then opts ++ [WithMaxBackups (FileConfig.MaxBackups (File c))]
              else opts in
            match file_New env (FileConfig.Path (File c)) with
            | Some err => (Err err, world)
            | None =>
                (Ok (RotateFile (FileConfig.Path (File c))),
                 world ++ [OpenedRotate (FileConfig.Path (File c))])
            end
        end
    end
  else
    let dir := Dir env (FileConfig.Path (File c)) in
    match MkdirAll env dir (FileConfig.DirMode (File c)) with
    | Some err => (Err err, world)
    | None =>
        let world := world ++ [MadeDir dir (FileConfig.DirMode (File c))] in
        match OpenFile env (FileConfig.Path (File c)) (FileConfig.Mode (File c)) with
        | Some err => (Err err, world)
        | None =>
            (Ok (OsFile (FileConfig.Path (File c))),
             world ++ [Opened (FileConfig.Path (File c)) (FileConfig.Mode (File c))])
        end
    end.

(** [Config.newWriter]: the target, then the mode, then the auto-sync
    task, started with [go] once its frequency is parsed. *)
Definition newWriter (c : Config) (world : World) : result writer * World :=
  let target := WriterConfig.Target (Writer c) in
  let after_target : result writer * World :=
    if bytes_eqb target (str "stdout") then (Ok Stdout, world)
    else if bytes_eqb target (str "stderr") then (Ok Stderr, world)
    else if bytes_eqb target (str "file") then
      match newFile c world with
      | (Err err, world) => (Err err, world)
      | (Ok f, world) => (Ok (Wrap f), world)
      end
    else (Err (ErrTargetInvalid target), world) in
  match after_target with
  | (Err err, world) => (Err err, world)
  | (Ok w, world) =>
      let mode := WriterConfig.Mode (Writer c) in
      let after_mode : result writer :=
        if bytes_eqb mode (str "direct") then Ok w
        else if bytes_eqb mode (str "buffer") then
          match ParseByteSize env (WriterConfig.BufferSize (Writer c)) with
          | Err err => Err err
          | Ok bufferSize => Ok (Buffer w bufferSize)
          end
        else if bytes_eqb mode (str "batch") then
          Ok (Batch w (WriterConfig.BatchSize (Writer c)))
        else Err (ErrModeInvalid mode) in
      match after_mode with
      | Err err => (Err err, world)
      | Ok w =>
          if negb (is_empty (WriterConfig.AutoSync (Writer c))) then
            match ParseDuration (WriterConfig.AutoSync (Writer c)) with
            | Err err => (Err err, world)
            | Ok frequency => (Ok w, world ++ [Spawned w frequency])
            end
          else (Ok w, world)
      end
  end.

(** When [newFile] fails, read off the configuration and the
    collaborators. *)
Definition newFile_fails (c : Config) : bool :=
  if FileConfig.Rotate (File c) then
    (negb (is_empty (FileConfig.MaxSize (File c))) &&
     negb (is_ok (ParseByteSize env (FileConfig.MaxSize (File c))))) ||
    (negb (is_empty (FileConfig.MaxAge (File c))) &&
     negb (is_ok (parseTimeDuration (FileConfig.MaxAge (File c))))) ||
    (match file_New env (FileConfig.Path (File c)) with
     | Some _ => true | None => false end)
  else
    (match MkdirAll env (Dir env (FileConfig.Path (File c)))
             (FileConfig.DirMode (File c)) with
     | Some _ => true | None => false end) ||
    (match OpenFile env (FileConfig.Path (File c)) (FileConfig.Mode (File c)) with
     | Some _ => true | None => false end).

Definition target_valid (c : Config) : bool :=
  bytes_eqb (WriterConfig.Target (Writer c)) (str "stdout") ||
  bytes_eqb (WriterConfig.Target (Writer c)) (str "stderr") ||
  bytes_eqb (WriterConfig.Target (Writer c)) (str "file").

Definition mode_valid (c : Config) : bool :=
  bytes_eqb (WriterConfig.Mode (Writer c)) (str "direct") ||
  bytes_eqb (WriterConfig.Mode (Writer c)) (str "buffer") ||
  bytes_eqb (WriterConfig.Mode (Writer c)) (str "batch").

(** When [newWriter] fails: an invalid target or mode, a file that cannot
    be set up, and the strings that are read on the way. *)
Definition newWriter_fails (c : Config) : bool :=
  negb (target_valid c) ||
  (bytes_eqb (WriterConfig.Target (Writer c)) (str "file") && newFile_fails c) ||
  negb (mode_valid c) ||
  (bytes_eqb (WriterConfig.Mode (Writer c)) (str "buffer") &&
   negb (is_ok (ParseByteSize env (WriterConfig.BufferSize (Writer c))))) ||
  (negb (is_empty (WriterConfig.AutoSync (Writer c))) &&
   negb (is_ok (ParseDuration (WriterConfig.AutoSync (Writer c))))).

(** The condition of the configuration error as the specification words
    it: the target or the mode is not one of the three names, or one of
    the size and duration strings does not parse. *)
Definition config_invalid (c : Config) : bool :=
  negb (target_valid c) ||
  negb (mode_valid c) ||
  negb (is_ok (ParseByteSize env (WriterConfig.BufferSize (Writer c)))) ||
  negb (is_ok (ParseByteSize env (FileConfig.MaxSize (File c)))) ||
  negb (is_ok (parseTimeDuration (FileConfig.MaxAge (File c)))) ||
  negb (is_ok (parseTimeDuration (WriterConfig.AutoSync (Writer c)))).

End WithEnv.

(** What [newWriter] does once the target has given a writer [w] and the
    world [world1]: the mode, then the auto-sync task. *)
Definition after_target (env : Env) (c : Config) (w : writer) (world1 : World)
  : result writer * World :=
  let mode := WriterConfig.Mode (Writer c) in
  let after_mode : result writer :=
    if bytes_eqb mode (str "direct") then Ok w
    else if bytes_eqb mode (str "buffer") then
      match ParseByteSize env (WriterConfig.BufferSize (Writer c)) with
      | Err err => Err err
      | Ok bufferSize => Ok (Buffer w bufferSize)
      end
    else if bytes_eqb mode (str "batch") then
      Ok (Batch w (WriterConfig.BatchSize (Writer c)))
    else Err (ErrModeInvalid mode) in
  match after_mode with
  | Err err => (Err err, world1)
  | Ok w =>
      if negb (is_empty (WriterConfig.AutoSync (Writer c))) then
        match ParseDuration (WriterConfig.AutoSync (Writer c)) with
        | Err err => (Err err, world1)
        | Ok frequency => (Ok w, world1 ++ [Spawned w frequency])
        end
      else (Ok w, world1)
  end.

(** The background tasks among the effects. *)
Definition is_spawned (e : effect) : bool :=
  match e with Spawned _ _ => true | _ => false end.

Definition spawned (world : World) : list effect := filter is_spawned world.

(** The part of a path before its last separator, ["."] when it has none. *)
Fixpoint dir_of (acc : gostring) (p : gostring) : gostring :=
  match p with
  | [] => []
  | c :: p' =>
      match dir_of (acc ++ [c]) p' with
      | [] => if Ascii.eqb c "/" then acc else []
      | d => d
      end
  end.

Definition simple_Dir (p : gostring) : gostring :=
  match dir_of [] p with [] => str "." | d => d end.

(** Collaborators that all succeed, with the size strings of the
    specification. *)
Definition ok_env : Env :=
  {| ParseByteSize := Size.ParseByteSize;
     file_New := fun _ => None;
     MkdirAll := fun _ _ => None;
     OpenFile := fun _ _ => None;
     Dir := simple_Dir |}.

(** The same on a file system where no directory can be made. *)
Definition readonly_env : Env :=
  {| ParseByteSize := Size.ParseByteSize;
     file_New := fun _ => Some (ErrOther 13);
     MkdirAll := fun _ _ => Some (ErrOther 13);
     OpenFile := fun _ _ => Some (ErrOther 13);
     Dir := simple_Dir |}.

(** [NewDefaultConfig] with another writer section. *)
Definition with_writer (target mode bufferSize autoSync : gostring) : Config :=
  {| Level := Level NewDefaultConfig;
     Handler := Handler NewDefaultConfig;
     Writer :=
       {| WriterConfig.Target := target;
          WriterConfig.Mode := mode;
          WriterConfig.BufferSize := bufferSize;
          WriterConfig.BatchSize := 64;
          WriterConfig.AutoSync := autoSync |};
     File := File NewDefaultConfig;
     WithSource := WithSource NewDefaultConfig;
     WithPID := WithPID NewDefaultConfig |}.

(** The default configuration with [AutoSync] set to ["7d"]. *)
Definition autosync_7d : Config :=
  with_writer (str "stdout") (str "direct") (str "16KB") (str "7d").

(** The default configuration writing to a file. *)
Definition to_file : Config :=
  with_writer (str "file") (str "direct") (str "16KB") (str "30s").

(** The default configuration with a buffer size that is no size, in
    direct mode. *)
Definition direct_odd_size : Config :=
  with_writer (str "stdout") (str "direct") (str "lots") (str "").

End Config.

(** ** Interface values and the calls made on them

    The writer package and the logger probe at run time whether a value
    also has a [Flush], [Sync] or [Close] method.  A value of another
    concrete type is an [object]: its identity and the methods its method
    set has.  Every method answers from the calls made so far, and making
    the call is recorded in the history. *)

Module Iface.
Import Go.

Inductive call : Type :=
| CallWrite (id : nat) (p : gostring)
| CallFlush (id : nat)
| CallSync (id : nat)
| CallClose (id : nat).

Definition history : Type := list call.

(** A computation that makes calls. *)
Definition M (A : Type) : Type := history -> A * history.

Definition ret {A : Type} (a : A) : M A := fun h => (a, h).

Definition bind {A B : Type} (m : M A) (f : A -> M B) : M B :=
  fun h => let (a, h') := m h in f a h'.

(** One call of a method: its answer, and the call added to the history. *)
Definition invoke {A : Type} (c : call) (answer : history -> A) : M A :=
  fun h => (answer h, h ++ [c]).

Record object : Type := mkObject {
  oid : nat;
  onWrite : history -> gostring -> Z * option error;
  onFlush : option (history -> Z * option error);
  onClose : option (history -> option error)
}.

Definition is_some {A : Type} (o : option A) : bool :=
  match o with Some _ => true | None => false end.

Fixpoint count_calls (p : call -> bool) (h : history) : nat :=
  match h with
  | [] => 0%nat
  | c :: h' => ((if p c then 1 else 0) + count_calls p h')%nat
  end.

Definition is_close_of (id : nat) (c : call) : bool :=
  match c with CallClose id' => Nat.eqb id id' | _ => false end.

Definition is_flush_of (id : nat) (c : call) : bool :=
  match c with CallFlush id' => Nat.eqb id id' | _ => false end.

Definition is_sync_of (id : nat) (c : call) : bool :=
  match c with CallSync id' => Nat.eqb id id' | _ => false end.

(** The calls a computation adds to the history [h]. *)
Definition calls_made {A : Type} (m : M A) (h : history) : history :=
  skipn (List.length h) (snd (m h)).

End Iface.

(** ** Package writer: [Flusher], [Writer], [writerWrapper], [Wrapped], [Buffered] *)

Module WriterPkg.
Import Go Iface.

Definition KB : Z := 1024.
Definition MB : Z := 1024 * KB.
Definition bufferSize : Z := 16 * KB.

(** An [io.Writer] value: an object of another type, or a pointer to a
    [writerWrapper] around an [io.Writer]. *)
Inductive iowriter : Type :=
| Obj (o : object)
| WriterWrapper (writer : iowriter).

(** The body of [writerWrapper.Flush], given what the assertion
    [ww.writer.(Flusher)] finds. *)
Definition Flush_body (flusher : option (M (Z * option error)))
  : M (Z * option error) :=
  match flusher with
  | Some flush => flush
  | None => ret (0, None)
  end.

(** The body of [writerWrapper.Close], given what [ww.writer.(io.Closer)]
    finds. *)
Definition Close_body (closer : option (M (option error))) : M (option error) :=
  match closer with
  | Some close => close
  | None => ret None
  end.

(** The assertion [w.(Flusher)]: the [Flush] method of [w], when it has
    one. *)
Fixpoint as_Flusher (w : iowriter) : option (M (Z * option error)) :=
  match w with
  | Obj o =>
      match onFlush o with
      | Some answer => Some (invoke (CallFlush (oid o)) answer)
      | None => None
      end
  | WriterWrapper inner => Some (Flush_body (as_Flusher inner))
  end.

(** The assertion [w.(io.Closer)]. *)
Fixpoint as_Closer (w : iowriter) : option (M (option error)) :=
  match w with
  | Obj o =>
      match onClose o with
      | Some answer => Some (invoke (CallClose (oid o)) answer)
      | None => None
      end
  | WriterWrapper inner => Some (Close_body (as_Closer inner))
  end.

(** [w.Write(p)]. *)
Fixpoint Write_of (w : iowriter) (p : gostring) : M (Z * option error) :=
  match w with
  | Obj o => invoke (CallWrite (oid o) p) (fun h => onWrite o h p)
  | WriterWrapper inner => Write_of inner p
  end.

(** [writerWrapper.Flush], [writerWrapper.Write] and [writerWrapper.Close]
    of the wrapper whose [writer] field is [writer]. *)
Definition Flush (writer : iowriter) : M (Z * option error) :=
  Flush_body (as_Flusher writer).

Definition Write (writer : iowriter) (p : gostring) : M (Z * option error) :=
  Write_of writer p.

Definition Close (writer : iowriter) : M (option error) :=
  Close_body (as_Closer writer).

(** The assertion [writer.(Writer)] succeeds when the value has [Flush],
    [Write] and [Close]. *)
Definition is_Writer (w : iowriter) : bool :=
  is_some (as_Flusher w) && is_some (as_Closer w).

Definition Wrapped (writer : iowriter) : iowriter :=
  if is_Writer writer then writer else WriterWrapper writer.

Section Buffered.

(** [newBufferedWriter] is declared in another file of the package. *)
Variable newBufferedWriter : iowriter -> Z -> iowriter.

Definition Buffered (writer : iowriter) : iowriter :=
  if is_Writer writer then writer else newBufferedWriter writer bufferSize.

End Buffered.

(** A writer with all three methods, and one with [Write] alone. *)
Definition full_writer : object :=
  {| oid := 1;
     onWrite := fun _ p => (Z.of_nat (len p), None);
     onFlush := Some (fun _ => (0, None));
     onClose := Some (fun _ => None) |}.

Definition plain_writer : object :=
  {| oid := 2;
     onWrite := fun _ p => (Z.of_nat (len p), None);
     onFlush := None;
     onClose := None |}.

(** A writer with [Flush] and no [Close], and one with both. *)
Definition flusher_only : object :=
  {| oid := 3;
     onWrite := fun _ p => (Z.of_nat (len p), None);
     onFlush := Some (fun _ => (0, None));
     onClose := None |}.

Definition closer_and_flusher : object :=
  {| oid := 4;
     onWrite := fun _ p => (Z.of_nat (len p), None);
     onFlush := Some (fun _ => (0, None));
     onClose := Some (fun _ => None) |}.

End WriterPkg.

(** ** The logger: [Sync], [Close], [runSyncTask] *)

Module LoggerPkg.
Import Go Iface.

(** An [slog.Handler] value, as far as the logger probes it: its identity
    and its [Sync] and [Close] methods, when its method set has them
    ([Syncer], [io.Closer]). *)
Record Handler : Type := mkHandler {
  hid : nat;
  onSync : option (history -> option error);
  onHandlerClose : option (history -> option error)
}.

Record Logger : Type := mkLogger {
  handler : Handler;
  withSource : bool;
  withPID : bool;
  syncDuration : Z
}.

(** [Logger.Sync]. *)
Definition Sync (l : Logger) : M (option error) :=
  match onSync (handler l) with
  | Some answer => invoke (CallSync (hid (handler l))) answer
  | None => ret None
  end.

(** [Logger.Close]. *)
Definition Close (l : Logger) : M (option error) :=
  bind (Sync l) (fun err =>
    match err with
    | Some err => ret (Some err)
    | None =>
        match onHandlerClose (handler l) with
        | Some answer => invoke (CallClose (hid (handler l))) answer
        | None => ret None
        end
    end).

(** [jsonHandler] of [json.go] has the four methods of [slog.Handler] and
    neither [Sync] nor [Close]. *)
Definition jsonHandler (id : nat) : Handler :=
  {| hid := id; onSync := None; onHandlerClose := None |}.

(** A logger on a handler, auto-sync off. *)
Definition logger_on (hd : Handler) : Logger :=
  {| handler := hd;
     withSource := false;
     withPID := true;
     syncDuration := 0 |}.

(** A handler with [Sync] and no [Close]. *)
Definition syncer_only : Handler :=
  {| hid := 7;
     onSync := Some (fun _ => None);
     onHandlerClose := None |}.

End LoggerPkg.

(** ** The auto-sync task

    [Config.newWriter] and [Logger.runSyncTask] start the same loop with
    [go]: sleep, sync, hand an error to [defaults.HandleError], again.  The
    loop is an interaction tree over the three things it does to its
    surroundings; its result type is empty, as the Go function has no way
    out of [for { ... }]. *)

Module AutoSync.
Import Go.

Variant syncE : Type -> Type :=
| Sleep (d : Z) : syncE unit                       (* time.Sleep(d) *)
| Sync : syncE (option error)                      (* w.Sync() or l.Sync() *)
| HandleError (op : string) (err : error) : syncE unit. (* defaults.HandleError(op, err) *)

(** The body of the loop. *)
Definition tick (d : Z) (op : string) : itree syncE unit :=
  ITree.bind (ITree.trigger (Sleep d)) (fun _ =>
  ITree.bind (ITree.trigger Sync) (fun r =>
    match r with
    | Some err => ITree.trigger (HandleError op err)
    | None => Ret tt
    end)).

(** [for { ... }]. *)
Definition sync_loop (d : Z) (op : string) : itree syncE void :=
  ITree.iter (fun _ : unit => ITree.bind (tick d op) (fun _ => Ret (inl tt))) tt.

(** The function started by [go] in [Config.newWriter]. *)
Definition newWriter_task (frequency : Z) : itree syncE void :=
  sync_loop frequency "writer.sync".

(** [Logger.runSyncTask]: the task it starts, if it starts one. *)
Definition runSyncTask (l : LoggerPkg.Logger) : option (itree syncE void) :=
  if LoggerPkg.syncDuration l <=? 0 then None
  else Some (sync_loop (LoggerPkg.syncDuration l) "Logger.Sync").

(** Where the loop stands. *)
Inductive phase : Type :=
| AtSleep
| AtSync
| AtHandle (err : error)
| AtNext.

(** One step of a tree that behaves as the loop does: at each phase the
    tree is the one node the loop has there, and goes on to the next
    phase.  No phase admits a returned tree. *)
Inductive loopF (d : Z) (op : string) (r : phase -> itree syncE void -> Prop)
  : phase -> itree' syncE void -> Prop :=
| loop_sleep k :
    r AtSync (k tt) -> loopF d op r AtSleep (VisF (Sleep d) k)
| loop_sync k :
    (forall err, r (AtHandle err) (k (Some err))) ->
    r AtNext (k None) ->
    loopF d op r AtSync (VisF Sync k)
| loop_handle err k :
    r AtNext (k tt) ->
    loopF d op r (AtHandle err) (VisF (HandleError op err) k)
| loop_next t :
    r AtSleep t -> loopF d op r AtNext (TauF t).

Definition loop_gen (d : Z) (op : string)
    (r : phase -> itree syncE void -> Prop) (p : phase) (t : itree syncE void)
  : Prop :=
  loopF d op r p (observe t).

(** The tree ticks for ever: the greatest set of trees closed under
    [loop_gen]. *)
Definition ticks_forever (d : Z) (op : string) (t : itree syncE void) : Prop :=
  paco2 (loop_gen d op) bot2 AtSleep t.

(** What an observer of the task sees. *)
Inductive obs : Type :=
| ObsSleep (d : Z)
| ObsSync (res : option error)
| ObsHandle (op : string) (err : error).

(** The first [fuel] nodes of a task, when the [k]-th call of [Sync]
    answers [answers k]. *)
Fixpoint run (fuel : nat) (answers : nat -> option error) (k : nat)
    (t : itree syncE void) : list obs :=
  match fuel with
  | O => []
  | S fuel' =>
      match observe t with
      | RetF v => match v with end
      | TauF t' => run fuel' answers k t'
      | VisF e cont =>
          (match e in syncE X return (X -> itree syncE void) -> list obs with
           | Sleep d => fun cont => ObsSleep d :: run fuel' answers k (cont tt)
           | Sync => fun cont =>
               ObsSync (answers k) :: run fuel' answers (S k) (cont (answers k))
           | HandleError op err => fun cont =>
               ObsHandle op err :: run fuel' answers k (cont tt)
           end) cont
      end
  end.

(** What one tick shows, and how many nodes it takes. *)
Definition tick_obs (d : Z) (op : string) (res : option error) : list obs :=
  ObsSleep d :: ObsSync res ::
  match res with Some err => [ObsHandle op err] | None => [] end.

Definition tick_steps (res : option error) : nat :=
  match res with Some _ => 4%nat | None => 3%nat end.

Fixpoint ticks_obs (d : Z) (op : string) (answers : nat -> option error)
    (k n : nat) : list obs :=
  match n with
  | O => []
  | S n' => tick_obs d op (answers k) ++ ticks_obs d op answers (S k) n'
  end.

Fixpoint ticks_steps (answers : nat -> option error) (k n : nat) : nat :=
  match n with
  | O => 0%nat
  | S n' => (tick_steps (answers k) + ticks_steps answers (S k) n')%nat
  end.

End AutoSync.

(** ** Package files: the filename generator of the rotating sink *)

Module Files.
Import Go.

(** The fields of a [time.Time] that the layout ["20060102-150405"] prints. *)
Record Time : Type := mkTime {
  year : Z;
  month : Z;
  day : Z;
  hour : Z;
  minute : Z;
  second : Z
}.

(** [strconv.Itoa]. *)
Definition Itoa (i : Z) : gostring :=
  list_ascii_of_string (DecimalString.NilZero.string_of_int (Z.to_int i)).

(** A number printed with at least [width] digits, as the layout elements
    [2006], [01], [02], [15], [04] and [05] print theirs. *)
Definition appendInt (x : Z) (width : nat) : gostring :=
  let digits := Itoa (Z.abs x) in
  (if x <? 0 then ["-"%char] else []) ++
  repeat "0"%char (width - len digits) ++ digits.

(** [now.Format("20060102-150405")]. *)
Definition Format (now : Time) : gostring :=
  appendInt (year now) 4 ++ appendInt (month now) 2 ++ appendInt (day now) 2 ++
  str "-" ++
  appendInt (hour now) 2 ++ appendInt (minute now) 2 ++ appendInt (second now) 2.

(** [SuffixOfLogFile] is declared in another file of the package; the
    comment of [DefaultNameGenerator] gives a generated name as
    [20200304-145246-45.log]. *)
Definition SuffixOfLogFile : gostring := str ".log".

(** The source behind [rand.Intn]: the values it is about to yield. *)
Definition Source : Type := list Z.

(** [rand.Intn(n)]. *)
Definition Intn (n : Z) (src : Source) : Z * Source :=
  match src with
  | [] => (0, [])
  | x :: rest => (x mod n, rest)
  end.

Section Generator.

(** [filepath.Join]. *)
Variable Join : gostring -> gostring -> gostring.

(** The function [DefaultNameGenerator] returns; the source was seeded
    once, when the generator was made. *)
Definition DefaultNameGenerator (directory : gostring) (now : Time)
    (src : Source) : gostring * Source :=
  let (r, src') := Intn 1000000 src in
  let name := Format now ++ str "-" ++ Itoa r ++ SuffixOfLogFile in
  (Join directory name, src').

(** Two calls in a row, as two rotations make them. *)
Definition two_names (directory : gostring) (now1 now2 : Time) (src : Source)
  : gostring * gostring :=
  let (n1, src1) := DefaultNameGenerator directory now1 src in
  let (n2, _) := DefaultNameGenerator directory now2 src1 in
  (n1, n2).

End Generator.

(** 4 March 2020, 14:52:46. *)
Definition sample_time : Time :=
  {| year := 2020; month := 3; day := 4; hour := 14; minute := 52; second := 46 |}.

End Files.

(** ** The rotating file sink *)

Module Rotate.
Import Go.

(** A file that rotation has closed. *)
Record Backup : Type := mkBackup {
  backup_path : gostring;
  backup_created : Z;
  backup_data : gostring
}.

(** Modelled from the spec: the rotating sink.  Only the declaration of
    [SizeRollingFile] is in the source at hand, its methods are not; the
    state below has the fields of section 3 of the specification, the
    file system reduced to the open file and the backups beside it. *)
Record Sink : Type := mkSink {
  rotateEnabled : bool;
  path : gostring;        (* the open file *)
  created : Z;            (* when it was opened *)
  data : gostring;        (* what it holds *)
  currentSize : Z;
  maxSize : Z;
  maxAge : Z;
  maxBackups : nat;
  directory : gostring;
  backups : list Backup;  (* newest first *)
  rotations : nat         (* not a field of the sink: counts its rotations *)
}.

(** Modelled from the spec: pruning deletes the backups older than
    [maxAge] and then the oldest ones beyond [maxBackups]. *)
Definition prune (now : Z) (maxAge : Z) (maxBackups : nat) (bs : list Backup)
  : list Backup :=
  firstn maxBackups (filter (fun b => now - backup_created b <=? maxAge) bs).

Section WithGenerator.

(** The filename generator and whether the new file can be created. *)
Variable generator : gostring -> Z -> gostring.
Variable can_create : gostring -> bool.

(** Modelled from the spec: [rotate()] closes the open file, opens a new
    one at the generated path, resets [currentSize] and prunes; when the
    new file cannot be created the sink stays on the previous file. *)
Definition rotate (now : Z) (s : Sink) : result Sink :=
  let new_path := generator (directory s) now in
  if can_create new_path then
    Ok {| rotateEnabled := rotateEnabled s;
          path := new_path;
          created := now;
          data := [];
          currentSize := 0;
          maxSize := maxSize s;
          maxAge := maxAge s;
          maxBackups := maxBackups s;
          directory := directory s;
          backups :=
            prune now (maxAge s) (maxBackups s)
              ({| backup_path := path s;
                  backup_created := created s;
                  backup_data := data s |} :: backups s);
          rotations := S (rotations s) |}
  else Err (ErrOther 1).

(** Modelled from the spec: [write] forwards the bytes to the open file;
    the file takes all of them, and [currentSize] grows by their number. *)
Definition forward (s : Sink) (bytes : gostring) : Sink * (Z * option error) :=
  let n := Z.of_nat (len bytes) in
  ({| rotateEnabled := rotateEnabled s;
      path := path s;
      created := created s;
      data := data s ++ bytes;
      currentSize := currentSize s + n;
      maxSize := maxSize s;
      maxAge := maxAge s;
      maxBackups := maxBackups s;
      directory := directory s;
      backups := backups s;
      rotations := rotations s |},
   (n, None)).

(** Modelled from the spec: the test of [write],
    [currentSize > 0 AND currentSize + len(bytes) > maxSize]. *)
Definition must_rotate (s : Sink) (bytes : gostring) : bool :=
  (0 <? currentSize s) && (maxSize s <? currentSize s + Z.of_nat (len bytes)).

(** Modelled from the spec: [write(bytes)] forwards directly when rotation
    is disabled; when enabled it rotates before writing if the test holds,
    and a failed rotation fails the write. *)
Definition write (now : Z) (s : Sink) (bytes : gostring)
  : Sink * (Z * option error) :=
  if negb (rotateEnabled s) then forward s bytes
  else if must_rotate s bytes then
    match rotate now s with
    | Err err => (s, (0, Some err))
    | Ok s' => forward s' bytes
    end
  else forward s bytes.

(** Every file of the sink with what it holds: the open one, then the
    backups. *)
Definition files (s : Sink) : list (gostring * gostring) :=
  (path s, data s) :: map (fun b => (backup_path b, backup_data b)) (backups s).

End WithGenerator.

(** A sink on a newly created file. *)
Definition open (p dir : gostring) (now : Z) (enabled : bool)
    (maxSize maxAge : Z) (maxBackups : nat) : Sink :=
  {| rotateEnabled := enabled;
     path := p;
     created := now;
     data := [];
     currentSize := 0;
     maxSize := maxSize;
     maxAge := maxAge;
     maxBackups := maxBackups;
     directory := dir;
     backups := [];
     rotations := 0 |}.

(** A generator that names a file by the time, and a sink with
    [maxSize = 100]. *)
Definition by_time (dir : gostring) (now : Z) : gostring :=
  dir ++ str "/" ++ Files.Itoa now ++ str ".log".

Definition sink100 : Sink :=
  open (str "logs/app.log") (str "logs") 0 true 100 1000 2.

End Rotate.

(** ** Wrappers around wrappers *)

Module WrapperStack.
Import Go Iface WriterPkg.

(** The object at the bottom of a stack of wrappers. *)
Fixpoint innermost (w : iowriter) : object :=
  match w with
  | Obj o => o
  | WriterWrapper inner => innermost inner
  end.

(** [n] wrappers around a writer. *)
Fixpoint wrap_times (n : nat) (w : iowriter) : iowriter :=
  match n with
  | O => w
  | S n' => WriterWrapper (wrap_times n' w)
  end.

End WrapperStack.

(** ** What [newFile] reads and what it opens *)

Module ConfigMore.
Import Go Config.

(** The [MaxSize] and [MaxAge] of a configuration are empty or parse. *)
Definition limits_parse (env : Env) (c : Config) : bool :=
  (is_empty (FileConfig.MaxSize (File c)) ||
   is_ok (ParseByteSize env (FileConfig.MaxSize (File c)))) &&
  (is_empty (FileConfig.MaxAge (File c)) ||
   is_ok (parseTimeDuration (FileConfig.MaxAge (File c)))).

(** The effect of opening the file of a configuration. *)
Definition opens (c : Config) : effect :=
  if FileConfig.Rotate (File c)
  then OpenedRotate (FileConfig.Path (File c))
  else Opened (FileConfig.Path (File c)) (FileConfig.Mode (File c)).

(** The default configuration with another file section. *)
Definition with_file (f : FileConfig.t) (mode : gostring) : Config :=
  {| Level := Level NewDefaultConfig;
     Handler := Handler NewDefaultConfig;
     Writer :=
       {| WriterConfig.Target := str "file";
          WriterConfig.Mode := mode;
          WriterConfig.BufferSize := str "16KB";
          WriterConfig.BatchSize := 64;
          WriterConfig.AutoSync := str "" |};
     File := f;
     WithSource := WithSource NewDefaultConfig;
     WithPID := WithPID NewDefaultConfig |}.

Definition rotating (maxSize maxAge : gostring) (maxBackups : Z) : FileConfig.t :=
  {| FileConfig.Path := str "./logit.log";
     FileConfig.Mode := 420;
     FileConfig.DirMode := 493;
     FileConfig.Rotate := true;
     FileConfig.MaxSize := maxSize;
     FileConfig.MaxAge := maxAge;
     FileConfig.MaxBackups := maxBackups |}.

End ConfigMore.

(** ** Names and times of the filename generator *)

Module FilesMore.
Import Go Files.

Definition no_separator (s : gostring) : bool :=
  forallb (fun c => negb (Ascii.eqb c "/")) s.

(** A file name that [filepath.Join] keeps as the last element of the
    path: it has no separator and is none of the empty name, [.] and
    [..]. *)
Definition plain_name (name : gostring) : bool :=
  no_separator name && (3 <=? len name)%nat.

(** [Join] keeps plain names apart. *)
Definition Join_keeps_names (Join : gostring -> gostring -> gostring) : Prop :=
  forall directory a b,
    plain_name a = true -> plain_name b = true ->
    Join directory a = Join directory b -> a = b.

(** A time of the calendar, with a year of four digits. *)
Definition valid_time (t : Time) : Prop :=
  0 <= year t <= 9999 /\ 1 <= month t <= 12 /\ 1 <= day t <= 31 /\
  0 <= hour t <= 23 /\ 0 <= minute t <= 59 /\ 0 <= second t <= 59.

(** On a Unix path: the directory, a separator when the directory does
    not end in one, the name. *)
Definition unix_Join (directory name : gostring) : gostring :=
  match directory with
  | [] => name
  | _ => if HasSuffix directory (str "/") then directory ++ name
         else directory ++ str "/" ++ name
  end.

(** Whether a number prints in [width] digits that read back as the
    number. *)
Definition prints_in (width : nat) (x : Z) : bool :=
  (len (appendInt x width) =? width)%nat &&
  all_digits (appendInt x width) &&
  (decimal_value (appendInt x width) =? x).

(** The numbers from [x] on, [n] of them. *)
Fixpoint upto (n : nat) (x : Z) : list Z :=
  match n with
  | O => []
  | S n' => x :: upto n' (x + 1)
  end.

End FilesMore.

(** ** The logger's arguments: [squeezeAttr], [newAttrs], [With], [WithGroup] *)

Module Attrs.
Import Go.

Definition keyBad : gostring := str "!BADKEY".

Section WithSlog.

(** [slog.Value] and the two constructors the logger uses,
    [slog.StringValue] and [slog.AnyValue]; the values of other dynamic
    types that can be passed as an argument are [Other]. *)
Variable Value : Type.
Variable Other : Type.

Record Attr : Type := mkAttr {
  Key : gostring;
  AttrValue : Value
}.

(** An argument of a logging call, by the cases of the type switch of
    [squeezeAttr]: an [slog.Attr], a string, anything else. *)
Inductive any : Type :=
| AnyAttr (a : Attr)
| AnyString (s : gostring)
| AnyOther (o : Other).

Variable StringValue : gostring -> Value.
Variable AnyValue : any -> Value.

(** [slog.String] and [slog.Any]. *)
Definition slog_String (key value : gostring) : Attr :=
  {| Key := key; AttrValue := StringValue value |}.

Definition slog_Any (key : gostring) (value : any) : Attr :=
  {| Key := key; AttrValue := AnyValue value |}.

(** [Logger.squeezeAttr]; [None] is the panic of [args[0]] on an empty
    slice. *)
Definition squeezeAttr (args : list any) : option (Attr * list any) :=
  match args with
  | [] => None
  | AnyAttr arg :: rest => Some (arg, rest)
  | AnyString arg :: rest =>
      match rest with
      | [] => Some (slog_String keyBad arg, [])
      | value :: rest' => Some (slog_Any arg value, rest')
      end
  | arg :: rest => Some (slog_Any keyBad arg, rest)
  end.

(** The loop [for len(args) > 0] of [Logger.newAttrs]; [None] when the
    fuel runs out. *)
Fixpoint newAttrs_loop (fuel : nat) (args : list any) (attrs : list Attr)
  : option (list Attr) :=
  match args with
  | [] => Some attrs
  | _ :: _ =>
      match fuel with
      | O => None
      | S fuel' =>
          match squeezeAttr args with
          | None => None
          | Some (attr, args') => newAttrs_loop fuel' args' (attrs ++ [attr])
          end
      end
  end.

(** [Logger.newAttrs].  Every round takes at least one argument, so the
    number of arguments is enough fuel ([newAttrs_loop_spec]). *)
Definition newAttrs (args : list any) : list Attr :=
  match newAttrs_loop (List.length args) args [] with
  | Some attrs => attrs
  | None => []
  end.

(** The two methods of [slog.Handler] that [With] and [WithGroup] call. *)
Variable WithAttrs : LoggerPkg.Handler -> list Attr -> LoggerPkg.Handler.
Variable WithGroupOf : LoggerPkg.Handler -> gostring -> LoggerPkg.Handler.

(** [Logger.clone]: a copy of the struct. *)
Definition clone (l : LoggerPkg.Logger) : LoggerPkg.Logger :=
  {| LoggerPkg.handler := LoggerPkg.handler l;
     LoggerPkg.withSource := LoggerPkg.withSource l;
     LoggerPkg.withPID := LoggerPkg.withPID l;
     LoggerPkg.syncDuration := LoggerPkg.syncDuration l |}.

Definition set_handler (l : LoggerPkg.Logger) (h : LoggerPkg.Handler)
  : LoggerPkg.Logger :=
  {| LoggerPkg.handler := h;
     LoggerPkg.withSource := LoggerPkg.withSource l;
     LoggerPkg.withPID := LoggerPkg.withPID l;
     LoggerPkg.syncDuration := LoggerPkg.syncDuration l |}.

(** [Logger.With]. *)
Definition With (l : LoggerPkg.Logger) (args : list any) : LoggerPkg.Logger :=
  if (List.length args <=? 0)%nat then l
  else
    let attrs := newAttrs args in
    if (List.length attrs <=? 0)%nat then l
    else set_handler (clone l) (WithAttrs (LoggerPkg.handler l) attrs).

(** [Logger.WithGroup]. *)
Definition WithGroup (l : LoggerPkg.Logger) (name : gostring) : LoggerPkg.Logger :=
  match name with
  | [] => l
  | _ => set_handler (clone l) (WithGroupOf (LoggerPkg.handler l) name)
  end.

(** The arguments of a call written as keys and values in turn. *)
Fixpoint key_values (kvs : list (gostring * any)) : list any :=
  match kvs with
  | [] => []
  | (k, v) :: kvs' => AnyString k :: v :: key_values kvs'
  end.

(** What [newAttrs] yields, read off [squeezeAttr] by cases on the head
    of the arguments. *)
Fixpoint attrs_of (args : list any) : list Attr :=
  match args with
  | [] => []
  | AnyAttr a :: rest => a :: attrs_of rest
  | AnyString s :: [] => [slog_String keyBad s]
  | AnyString s :: value :: rest => slog_Any s value :: attrs_of rest
  | AnyOther o :: rest => slog_Any keyBad (AnyOther o) :: attrs_of rest
  end.

End WithSlog.

End Attrs.

(** ** Loggers in a context: [NewContextWithKey], [FromContextWithKey], [NewContext], [FromContext] *)

Module ContextPkg.

(** A call that returns, or panics. *)
Inductive outcome (A : Type) : Type :=
| Returns (a : A)
| Panics.

Arguments Returns {A} a.
Arguments Panics {A}.

Section WithKeys.

(** The comparable values a caller can use as a key; [contextKey] is a
    type of its own that only this package can name. *)
Variable UserKey : Type.
Variable UserKey_eq_dec : forall a b : UserKey, {a = b} + {a <> b}.

(** The values other than a [*Logger] that a context can hold. *)
Variable Other : Type.

(** A key as an interface value: nil, [contextKey{}], or a value of the
    caller. *)
Inductive key : Type :=
| KeyNil
| ContextKey
| KeyOf (k : UserKey).

Definition key_eqb (a b : key) : bool :=
  match a, b with
  | KeyNil, KeyNil => true
  | ContextKey, ContextKey => true
  | KeyOf x, KeyOf y => if UserKey_eq_dec x y then true else false
  | _, _ => false
  end.

(** A value as an interface value: nil, a [*Logger] (itself nil or not),
    or something else. *)
Inductive value : Type :=
| ValNil
| ValLogger (logger : option LoggerPkg.Logger)
| ValOther (o : Other).

(** A non-nil [context.Context]: the background, a context made by
    [context.WithValue], or one derived in another way (with a deadline or
    a cancel function), which holds no value of its own. *)
Inductive Context : Type :=
| Background
| ValueCtx (parent : Context) (k : key) (val : value)
| Derived (parent : Context).

(** [context.WithValue]: panics on a nil parent and on a nil key. *)
Definition WithValue (parent : option Context) (k : key) (val : value)
  : outcome Context :=
  match parent with
  | None => Panics
  | Some p =>
      match k with
      | KeyNil => Panics
      | _ => Returns (ValueCtx p k val)
      end
  end.

(** [ctx.Value(key)]: the value of the nearest [ValueCtx] with that key,
    nil when there is none. *)
Fixpoint Value (ctx : Context) (k : key) : value :=
  match ctx with
  | Background => ValNil
  | ValueCtx parent k' val => if key_eqb k' k then val else Value parent k
  | Derived parent => Value parent k
  end.

(** [New()], the logger made when the context has none. *)
Variable New : LoggerPkg.Logger.

(** [NewContextWithKey]. *)
Definition NewContextWithKey (ctx : option Context) (k : key)
    (logger : option LoggerPkg.Logger) : outcome Context :=
  WithValue ctx k (ValLogger logger).

(** [FromContextWithKey]; calling [Value] on a nil context panics. *)
Definition FromContextWithKey (ctx : option Context) (k : key)
  : outcome (option LoggerPkg.Logger) :=
  match ctx with
  | None => Panics
  | Some c =>
      match Value c k with
      | ValLogger logger => Returns logger
      | _ => Returns (Some New)
      end
  end.

(** [NewContext] and [FromContext]. *)
Definition NewContext (ctx : option Context) (logger : option LoggerPkg.Logger)
  : outcome Context :=
  NewContextWithKey ctx ContextKey logger.

Definition FromContext (ctx : option Context) : outcome (option LoggerPkg.Logger) :=
  FromContextWithKey ctx ContextKey.

(** Loggers put into a context one after the other, each under a key of
    the caller. *)
Fixpoint with_user_loggers (ctx : Context)
    (entries : list (UserKey * option LoggerPkg.Logger)) : Context :=
  match entries with
  | [] => ctx
  | (k, logger) :: rest =>
      with_user_loggers (ValueCtx ctx (KeyOf k) (ValLogger logger)) rest
  end.

(** Whether a context holds a logger under a key. *)
Definition holds_logger (ctx : Context) (k : key) : bool :=
  match Value ctx k with ValLogger _ => true | _ => false end.

End WithKeys.

End ContextPkg.

(** ** option.go: the options of a logger, and [NewLoggerGracefully] *)

Module Options.
Import Go.

Section WithTypes.

(** The levels are declared outside [option.go]. *)
Variable Level : Type.
Variables LevelDebug LevelInfo LevelWarn LevelError LevelPrint LevelOff : Level.

(** A writer handed in by the caller, an option of package rotate, a
    function that makes a handler, and the function kept in
    [replaceAttr]. *)
Variable GivenWriter : Type.
Variable rotate_Option : Type.
Variable NewHandlerFunc : Type.
Variables handler_NewTextHandler handler_NewJsonHandler : NewHandlerFunc.
Variable ReplaceAttr : Type.

(** The writers the options can make. *)
Inductive iowriter : Type :=
| Given (w : GivenWriter)
| Stdout
| Stderr
| File (path : gostring)
| RotateFile (path : gostring) (opts : list rotate_Option)
| Buffer (w : iowriter) (bufferSize : Z)
| Batch (w : iowriter) (batchSize : Z).

(** What package defaults and package rotate provide: the two open
    functions with the modes they are called with, [rotate.New], and
    [filepath.Dir].  The functions answer with the error they return, if
    any. *)
Record Defaults : Type := mkDefaults {
  OpenFileDir : gostring -> Z -> option error;
  OpenFile : gostring -> Z -> option error;
  FileDirMode : Z;
  FileMode : Z;
  rotate_New : gostring -> list rotate_Option -> option error;
  Dir : gostring -> gostring
}.

(** A function [func() (io.Writer, error)]: what it returns and the files
    and directories it makes. *)
Definition NewWriterFunc : Type :=
  Defaults -> Config.World -> result iowriter * Config.World.

(** The fields of [config] that the options, [NewLoggerGracefully] and the
    test of [handlerOptions] use; the struct is declared in another file. *)
Record config : Type := mkConfig {
  level : Level;
  newWriter : NewWriterFunc;
  wrapWriter : option (iowriter -> iowriter);
  newHandler : NewHandlerFunc;
  withSource : bool;
  withPID : bool;
  syncDuration : Z;
  replaceAttr : ReplaceAttr
}.

(** [Option] is [func(conf *config)]: what the call leaves in [conf]. *)
Definition Option : Type := config -> config.

Definition applyTo (o : Option) (conf : config) : config := o conf.

Definition set_level (lv : Level) : Option := fun conf =>
  {| level := lv;
     newWriter := newWriter conf;
     wrapWriter := wrapWriter conf;
     newHandler := newHandler conf;
     withSource := withSource conf;
     withPID := withPID conf;
     syncDuration := syncDuration conf;
     replaceAttr := replaceAttr conf |}.

Definition set_newWriter (f : NewWriterFunc) : Option := fun conf =>
  {| level := level conf;
     newWriter := f;
     wrapWriter := wrapWriter conf;
     newHandler := newHandler conf;
     withSource := withSource conf;
     withPID := withPID conf;
     syncDuration := syncDuration conf;
     replaceAttr := replaceAttr conf |}.

Definition set_wrapWriter (f : iowriter -> iowriter) : Option := fun conf =>
  {| level := level conf;
     newWriter := newWriter conf;
     wrapWriter := Some f;
     newHandler := newHandler conf;
     withSource := withSource conf;
     withPID := withPID conf;
     syncDuration := syncDuration conf;
     replaceAttr := replaceAttr conf |}.

Definition set_newHandler (f : NewHandlerFunc) : Option := fun conf =>
  {| level := level conf;
     newWriter := newWriter conf;
     wrapWriter := wrapWriter conf;
     newHandler := f;
     withSource := withSource conf;
     withPID := withPID conf;
     syncDuration := syncDuration conf;
     replaceAttr := replaceAttr conf |}.

Definition WithDebugLevel : Option := set_level LevelDebug.
Definition WithInfoLevel : Option := set_level LevelInfo.
Definition WithWarnLevel : Option := set_level LevelWarn.
Definition WithErrorLevel : Option := set_level LevelError.
Definition WithPrintLevel : Option := set_level LevelPrint.
Definition WithOffLevel : Option := set_level LevelOff.

Definition WithWriter (w : GivenWriter) : Option :=
  set_newWriter (fun _ world => (Ok (Given w), world)).

Definition WithStdout : Option :=
  set_newWriter (fun _ world => (Ok Stdout, world)).

Definition WithStderr : Option :=
  set_newWriter (fun _ world => (Ok Stderr, world)).

(** [WithFile]: the directory of the path is made first, then the file is
    opened. *)
Definition WithFile (path : gostring) : Option :=
  set_newWriter (fun defaults world =>
    let dir := Dir defaults path in
    match OpenFileDir defaults dir (FileDirMode defaults) with
    | Some err => (Err err, world)
    | None =>
        let world := world ++ [Config.MadeDir dir (FileDirMode defaults)] in
        match OpenFile defaults path (FileMode defaults) with
        | Some err => (Err err, world)
        | None => (Ok (File path), world ++ [Config.Opened path (FileMode defaults)])
        end
    end).

Definition WithRotateFile (path : gostring) (opts : list rotate_Option) : Option :=
  set_newWriter (fun defaults world =>
    match rotate_New defaults path opts with
    | Some err => (Err err, world)
    | None => (Ok (RotateFile path opts), world ++ [Config.OpenedRotate path])
    end).

Definition WithBuffer (bufferSize : Z) : Option :=
  set_wrapWriter (fun w => Buffer w bufferSize).

Definition WithBatch (batchSize : Z) : Option :=
  set_wrapWriter (fun w => Batch w batchSize).

Definition WithHandler (f : NewHandlerFunc) : Option := set_newHandler f.
Definition WithTextHandler : Option := set_newHandler handler_NewTextHandler.
Definition WithJsonHandler : Option := set_newHandler handler_NewJsonHandler.

Definition WithSource : Option := fun conf =>
  {| level := level conf;
     newWriter := newWriter conf;
     wrapWriter := wrapWriter conf;
     newHandler := newHandler conf;
     withSource := true;
     withPID := withPID conf;
     syncDuration := syncDuration conf;
     replaceAttr := replaceAttr conf |}.

Definition WithPID : Option := fun conf =>
  {| level := level conf;
     newWriter := newWriter conf;
     wrapWriter := wrapWriter conf;
     newHandler := newHandler conf;
     withSource := withSource conf;
     withPID := true;
     syncDuration := syncDuration conf;
     replaceAttr := replaceAttr conf |}.

Definition ProductionOptions : list Option :=
  [WithInfoLevel; WithSource; WithPID;
   WithBatch 16; WithRotateFile (str "./logit.log") []].

(** An option keeps a projection of the configuration when it leaves it
    as it finds it. *)
Definition keeps {A : Type} (proj : config -> A) (o : Option) : Prop :=
  forall conf, proj (o conf) = proj conf.

(** The loop of [NewLoggerGracefully] over its options. *)
Definition apply_all (opts : list Option) (conf : config) : config :=
  fold_left (fun conf opt => applyTo opt conf) opts conf.

(** The options of this file by name, and the field each one sets. *)
Inductive named : Type :=
| NDebugLevel | NInfoLevel | NWarnLevel | NErrorLevel | NPrintLevel | NOffLevel
| NWriter (w : GivenWriter) | NStdout | NStderr
| NFile (path : gostring) | NRotateFile (path : gostring) (opts : list rotate_Option)
| NBuffer (bufferSize : Z) | NBatch (batchSize : Z)
| NHandler (f : NewHandlerFunc) | NTextHandler | NJsonHandler
| NSource | NPID.

Definition option_of (n : named) : Option :=
  match n with
  | NDebugLevel => WithDebugLevel
  | NInfoLevel => WithInfoLevel
  | NWarnLevel => WithWarnLevel
  | NErrorLevel => WithErrorLevel
  | NPrintLevel => WithPrintLevel
  | NOffLevel => WithOffLevel
  | NWriter w => WithWriter w
  | NStdout => WithStdout
  | NStderr => WithStderr
  | NFile path => WithFile path
  | NRotateFile path opts => WithRotateFile path opts
  | NBuffer n => WithBuffer n
  | NBatch n => WithBatch n
  | NHandler f => WithHandler f
  | NTextHandler => WithTextHandler
  | NJsonHandler => WithJsonHandler
  | NSource => WithSource
  | NPID => WithPID
  end.

Inductive field : Type :=
| FLevel | FNewWriter | FWrapWriter | FNewHandler | FWithSource | FWithPID.

Definition field_eqb (a b : field) : bool :=
  match a, b with
  | FLevel, FLevel | FNewWriter, FNewWriter | FWrapWriter, FWrapWriter
  | FNewHandler, FNewHandler | FWithSource, FWithSource | FWithPID, FWithPID => true
  | _, _ => false
  end.

Definition field_of (n : named) : field :=
  match n with
  | NDebugLevel | NInfoLevel | NWarnLevel | NErrorLevel | NPrintLevel | NOffLevel =>
      FLevel
  | NWriter _ | NStdout | NStderr | NFile _ | NRotateFile _ _ => FNewWriter
  | NBuffer _ | NBatch _ => FWrapWriter
  | NHandler _ | NTextHandler | NJsonHandler => FNewHandler
  | NSource => FWithSource
  | NPID => FWithPID
  end.

(** The last option of a list that sets a given field. *)
Fixpoint last_for (f : field) (ns : list named) : option named :=
  match ns with
  | [] => None
  | n :: ns' =>
      match last_for f ns' with
      | Some n' => Some n'
      | None => if field_eqb (field_of n) f then Some n else None
      end
  end.

(** [newDefaultConfig] and [config.handler] are declared in another
    file. *)
Variable newDefaultConfig : config.
Variable conf_handler :
  config -> Defaults -> Config.World -> result LoggerPkg.Handler * Config.World.

(** [NewLoggerGracefully]: the logger or the error, the files made on the
    way, and the sync task that [runSyncTask] starts, if any. *)
Definition NewLoggerGracefully (opts : list Option) (defaults : Defaults)
    (world : Config.World)
  : result LoggerPkg.Logger * Config.World *
    option (itree AutoSync.syncE void) :=
  let conf := apply_all opts newDefaultConfig in
  match conf_handler conf defaults world with
  | (Err err, world') => (Err err, world', None)
  | (Ok handler, world') =>
      let logger :=
        {| LoggerPkg.handler := handler;
           LoggerPkg.withSource := withSource conf;
           LoggerPkg.withPID := withPID conf;
           LoggerPkg.syncDuration := syncDuration conf |} in
      (Ok logger, world', AutoSync.runSyncTask logger)
  end.

(** [NewLogger]: [None] is the panic. *)
Definition NewLogger (opts : list Option) (defaults : Defaults)
    (world : Config.World)
  : option (LoggerPkg.Logger * Config.World * option (itree AutoSync.syncE void)) :=
  match NewLoggerGracefully opts defaults world with
  | (Err err, _, _) => None
  | (Ok logger, world', task) => Some (logger, world', task)
  end.

End WithTypes.

Arguments keeps {Level GivenWriter rotate_Option NewHandlerFunc ReplaceAttr A} proj o.

(** A configuration over numbers: the six levels are 0 to 5, the two
    handler functions 0 and 1, the target stdout, no wrapper, no flags. *)
Definition plain_config (sync : Z) : config nat nat nat nat unit :=
  {| level := 0%nat;
     newWriter := fun _ world => (Ok (Stdout nat nat), world);
     wrapWriter := None;
     newHandler := 0%nat;
     withSource := false;
     withPID := false;
     syncDuration := sync;
     replaceAttr := tt |}.

Definition named_option (n : named nat nat nat) : Option nat nat nat nat unit :=
  option_of nat 0%nat 1%nat 2%nat 3%nat 4%nat 5%nat nat nat nat 0%nat 1%nat unit n.

(** A [config.handler] that makes a handler without [Sync] and [Close]
    and opens nothing. *)
Definition plain_handler (conf : config nat nat nat nat unit)
    (defaults : Defaults nat) (world : Config.World)
  : result LoggerPkg.Handler * Config.World :=
  (Ok (LoggerPkg.jsonHandler 1), world).

Definition plain_defaults : Defaults nat :=
  {| OpenFileDir := fun _ _ => None;
     OpenFile := fun _ _ => None;
     FileDirMode := 493;
     FileMode := 420;
     rotate_New := fun _ _ => None;
     Dir := Config.simple_Dir |}.

End Options.

(** ** core.go: the dispatch table *)

Module Core.

Section Dispatch.

(** [Level] is declared outside [core.go]; the table only compares levels
    with [==], so the type and its four named constants are parameters. *)
Variable Level : Type.
Variable Level_eq_dec : forall a b : Level, {a = b} + {a <> b}.
Variables DebugLevel InfoLevel WarnLevel ErrorLevel : Level.

(** [Encoder] and [io.Writer] are interfaces; an interface value is either
    nil ([None]) or an object ([Some]). *)
Variable EncoderObj : Type.
Variable WriterObj : Type.

Definition Encoder : Type := option EncoderObj.
Definition Writer : Type := option WriterObj.

(** The [lock] field serialises the methods; each method below is the
    body that runs while the lock is held. *)
Record encoders : Type := mkEncoders {
  debugEncoder : Encoder;
  infoEncoder : Encoder;
  warnEncoder : Encoder;
  errorEncoder : Encoder
}.

Definition newEncoders (encoder : Encoder) : encoders :=
  {| debugEncoder := encoder;
     infoEncoder := encoder;
     warnEncoder := encoder;
     errorEncoder := encoder |}.

Definition encoders_of (es : encoders) (level : Level) : Encoder :=
  if Level_eq_dec level DebugLevel then debugEncoder es
  else if Level_eq_dec level InfoLevel then infoEncoder es
  else if Level_eq_dec level WarnLevel then warnEncoder es
  else errorEncoder es.

Definition SetEncoder (es : encoders) (encoder : Encoder) : encoders :=
  {| debugEncoder := encoder;
     infoEncoder := encoder;
     warnEncoder := encoder;
     errorEncoder := encoder |}.

Definition SetDebugEncoder (es : encoders) (encoder : Encoder) : encoders :=
  {| debugEncoder := encoder;
     infoEncoder := infoEncoder es;
     warnEncoder := warnEncoder es;
     errorEncoder := errorEncoder es |}.

Definition SetInfoEncoder (es : encoders) (encoder : Encoder) : encoders :=
  {| debugEncoder := debugEncoder es;
     infoEncoder := encoder;
     warnEncoder := warnEncoder es;
     errorEncoder := errorEncoder es |}.

Definition SetWarnEncoder (es : encoders) (encoder : Encoder) : encoders :=
  {| debugEncoder := debugEncoder es;
     infoEncoder := infoEncoder es;
     warnEncoder := encoder;
     errorEncoder := errorEncoder es |}.

Definition SetErrorEncoder (es : encoders) (encoder : Encoder) : encoders :=
  {| debugEncoder := debugEncoder es;
     infoEncoder := infoEncoder es;
     warnEncoder := warnEncoder es;
     errorEncoder := encoder |}.

Record writers : Type := mkWriters {
  debugWriter : Writer;
  infoWriter : Writer;
  warnWriter : Writer;
  errorWriter : Writer
}.

Definition newWriters (writer : Writer) : writers :=
  {| debugWriter := writer;
     infoWriter := writer;
     warnWriter := writer;
     errorWriter := writer |}.

Definition writers_of (ws : writers) (level : Level) : Writer :=
  if Level_eq_dec level DebugLevel then debugWriter ws
  else if Level_eq_dec level InfoLevel then infoWriter ws
  else if Level_eq_dec level WarnLevel then warnWriter ws
  else errorWriter ws.

Definition SetWriter (ws : writers) (writer : Writer) : writers :=
  {| debugWriter := writer;
     infoWriter := writer;
     warnWriter := writer;
     errorWriter := writer |}.

Definition SetDebugWriter (ws : writers) (writer : Writer) : writers :=
  {| debugWriter := writer;
     infoWriter := infoWriter ws;
     warnWriter := warnWriter ws;
     errorWriter := errorWriter ws |}.

Definition SetInfoWriter (ws : writers) (writer : Writer) : writers :=
  {| debugWriter := debugWriter ws;
     infoWriter := writer;
     warnWriter := warnWriter ws;
     errorWriter := errorWriter ws |}.

Definition SetWarnWriter (ws : writers) (writer : Writer) : writers :=
  {| debugWriter := debugWriter ws;
     infoWriter := infoWriter ws;
     warnWriter := writer;
     errorWriter := errorWriter ws |}.

Definition SetErrorWriter (ws : writers) (writer : Writer) : writers :=
  {| debugWriter := debugWriter ws;
     infoWriter := infoWriter ws;
     warnWriter := warnWriter ws;
     errorWriter := writer |}.

(** The part of [core] the dispatch uses: the two tables. *)
Record core : Type := mkCore {
  core_encoders : encoders;
  core_writers : writers
}.

Definition newCore (encoder : Encoder) (writer : Writer) : core :=
  {| core_encoders := newEncoders encoder;
     core_writers := newWriters writer |}.

(** [of] on both tables, as a log call resolves its pair. *)
Definition core_of (c : core) (level : Level) : Encoder * Writer :=
  (encoders_of (core_encoders c) level, writers_of (core_writers c) level).

(** One call of a [Set*] method on the tables reached through
    [c.Encoders()] or [c.Writers()]. *)
Inductive mutation : Type :=
| CallSetEncoder (e : Encoder)
| CallSetDebugEncoder (e : Encoder)
| CallSetInfoEncoder (e : Encoder)
| CallSetWarnEncoder (e : Encoder)
| CallSetErrorEncoder (e : Encoder)
| CallSetWriter (w : Writer)
| CallSetDebugWriter (w : Writer)
| CallSetInfoWriter (w : Writer)
| CallSetWarnWriter (w : Writer)
| CallSetErrorWriter (w : Writer).

Definition on_encoders (f : encoders -> encoders) (c : core) : core :=
  {| core_encoders := f (core_encoders c); core_writers := core_writers c |}.

Definition on_writers (f : writers -> writers) (c : core) : core :=
  {| core_encoders := core_encoders c; core_writers := f (core_writers c) |}.

Definition mutate (c : core) (m : mutation) : core :=
  match m with
  | CallSetEncoder e => on_encoders (fun es => SetEncoder es e) c
  | CallSetDebugEncoder e => on_encoders (fun es => SetDebugEncoder es e) c
  | CallSetInfoEncoder e => on_encoders (fun es => SetInfoEncoder es e) c
  | CallSetWarnEncoder e => on_encoders (fun es => SetWarnEncoder es e) c
  | CallSetErrorEncoder e => on_encoders (fun es => SetErrorEncoder es e) c
  | CallSetWriter w => on_writers (fun ws => SetWriter ws w) c
  | CallSetDebugWriter w => on_writers (fun ws => SetDebugWriter ws w) c
  | CallSetInfoWriter w => on_writers (fun ws => SetInfoWriter ws w) c
  | CallSetWarnWriter w => on_writers (fun ws => SetWarnWriter ws w) c
  | CallSetErrorWriter w => on_writers (fun ws => SetErrorWriter ws w) c
  end.

Definition mutate_all (c : core) (ms : list mutation) : core :=
  fold_left mutate ms c.

(** The argument of a mutation is not nil. *)
Definition non_nil_arg (m : mutation) : Prop :=
  match m with
  | CallSetEncoder e | CallSetDebugEncoder e | CallSetInfoEncoder e
  | CallSetWarnEncoder e | CallSetErrorEncoder e => e <> None
  | CallSetWriter w | CallSetDebugWriter w | CallSetInfoWriter w
  | CallSetWarnWriter w | CallSetErrorWriter w => w <> None
  end.

(** Every entry of both tables is set. *)
Definition all_set (c : core) : Prop :=
  (debugEncoder (core_encoders c) <> None /\
   infoEncoder (core_encoders c) <> None /\
   warnEncoder (core_encoders c) <> None /\
   errorEncoder (core_encoders c) <> None) /\
  (debugWriter (core_writers c) <> None /\
   infoWriter (core_writers c) <> None /\
   warnWriter (core_writers c) <> None /\
   errorWriter (core_writers c) <> None).

(** The four entries of a table, and the level each entry is kept for. *)
Inductive slot : Type := SlotDebug | SlotInfo | SlotWarn | SlotError.

Definition slot_eqb (a b : slot) : bool :=
  match a, b with
  | SlotDebug, SlotDebug | SlotInfo, SlotInfo
  | SlotWarn, SlotWarn | SlotError, SlotError => true
  | _, _ => false
  end.

Definition level_of_slot (s : slot) : Level :=
  match s with
  | SlotDebug => DebugLevel
  | SlotInfo => InfoLevel
  | SlotWarn => WarnLevel
  | SlotError => ErrorLevel
  end.

Definition encoder_at (es : encoders) (s : slot) : Encoder :=
  match s with
  | SlotDebug => debugEncoder es
  | SlotInfo => infoEncoder es
  | SlotWarn => warnEncoder es
  | SlotError => errorEncoder es
  end.

Definition writer_at (ws : writers) (s : slot) : Writer :=
  match s with
  | SlotDebug => debugWriter ws
  | SlotInfo => infoWriter ws
  | SlotWarn => warnWriter ws
  | SlotError => errorWriter ws
  end.

(** The per-level setter of each entry. *)
Definition set_encoder_at (s : slot) : encoders -> Encoder -> encoders :=
  match s with
  | SlotDebug => SetDebugEncoder
  | SlotInfo => SetInfoEncoder
  | SlotWarn => SetWarnEncoder
  | SlotError => SetErrorEncoder
  end.

Definition set_writer_at (s : slot) : writers -> Writer -> writers :=
  match s with
  | SlotDebug => SetDebugWriter
  | SlotInfo => SetInfoWriter
  | SlotWarn => SetWarnWriter
  | SlotError => SetErrorWriter
  end.

(** Whether a mutation is a call on the encoders table (otherwise it is a
    call on the writers table). *)
Definition touches_encoders (m : mutation) : bool :=
  match m with
  | CallSetEncoder _ | CallSetDebugEncoder _ | CallSetInfoEncoder _
  | CallSetWarnEncoder _ | CallSetErrorEncoder _ => true
  | _ => false
  end.

(** The four level constants are different values. *)
Definition levels_distinct : Prop :=
  NoDup [DebugLevel; InfoLevel; WarnLevel; ErrorLevel].

(** *** Facts *)

Ltac level_cases :=
  repeat match goal with
         | |- context [Level_eq_dec ?a ?b] => destruct (Level_eq_dec a b)
         end.

Lemma levels_distinct_inv :
  levels_distinct ->
  DebugLevel <> InfoLevel /\ DebugLevel <> WarnLevel /\
  DebugLevel <> ErrorLevel /\ InfoLevel <> WarnLevel /\
  InfoLevel <> ErrorLevel /\ WarnLevel <> ErrorLevel.
Proof.
  unfold levels_distinct. intros H.
  inversion H as [|a l Ha H1]; subst.
  inversion H1 as [|b l' Hb H2]; subst.
  inversion H2 as [|c l'' Hc H3]; subst.
  simpl in *. intuition congruence.
Qed.

Lemma encoders_of_is_entry (es : encoders) (level : Level) :
  exists s, encoders_of es level = encoder_at es s.
Proof.
  unfold encoders_of. level_cases.
  - now exists SlotDebug.
  - now exists SlotInfo.
  - now exists SlotWarn.
  - now exists SlotError.
Qed.

Lemma writers_of_is_entry (ws : writers) (level : Level) :
  exists s, writers_of ws level = writer_at ws s.
Proof.
  unfold writers_of. level_cases.
  - now exists SlotDebug.
  - now exists SlotInfo.
  - now exists SlotWarn.
  - now exists SlotError.
Qed.

Lemma all_set_entries (c : core) :
  all_set c <->
  forall s, encoder_at (core_encoders c) s <> None /\
            writer_at (core_writers c) s <> None.
Proof.
  unfold all_set. split.
  - intros [[? [? [? ?]]] [? [? [? ?]]]] [ | | | ]; simpl; auto.
  - intros H.
    pose proof (H SlotDebug) as [? ?]. pose proof (H SlotInfo) as [? ?].
    pose proof (H SlotWarn) as [? ?]. pose proof (H SlotError) as [? ?].
    simpl in *. auto 10.
Qed.

Lemma newCore_all_set (encoder : Encoder) (writer : Writer) :
  encoder <> None -> writer <> None -> all_set (newCore encoder writer).
Proof.
  intros He Hw. unfold all_set. simpl. auto 10.
Qed.

Lemma mutate_all_set (c : core) (m : mutation) :
  all_set c -> non_nil_arg m -> all_set (mutate c m).
Proof.
  unfold all_set.
  intros [[? [? [? ?]]] [? [? [? ?]]]] Hm.
  destruct m; simpl in *; auto 10.
Qed.

Lemma mutate_all_all_set (ms : list mutation) (c : core) :
  all_set c -> Forall non_nil_arg ms -> all_set (mutate_all c ms).
Proof.
  unfold mutate_all. revert c.
  induction ms as [|m ms IH]; intros c Hc Hms; simpl.
  - exact Hc.
  - inversion Hms; subst. apply IH; [apply mutate_all_set|]; assumption.
Qed.

(** C1: [of] on either table returns, for debug, info, warn and error, the
    entry kept for that level, and for every level other than debug, info
    and warn the entry kept for error. *)
Theorem of_dispatch (es : encoders) (ws : writers) :
  levels_distinct ->
  (forall s : slot,
      encoders_of es (level_of_slot s) = encoder_at es s /\
      writers_of ws (level_of_slot s) = writer_at ws s) /\
  (forall level : Level,
      level <> DebugLevel -> level <> InfoLevel -> level <> WarnLevel ->
      encoders_of es level = errorEncoder es /\
      writers_of ws level = errorWriter ws).
Proof.
  intros Hd. apply levels_distinct_inv in Hd.
  destruct Hd as [? [? [? [? [? ?]]]]].
  split.
  - intros s. unfold encoders_of, writers_of.
    destruct s; simpl; level_cases; try congruence; auto.
  - intros level Hnd Hni Hnw. unfold encoders_of, writers_of.
    level_cases; try congruence; auto.
Qed.

(** C8: a table built by [newCore] from a non-nil encoder and a non-nil
    writer, after any sequence of [Set*] calls with non-nil arguments,
    resolves every level to a pair whose two components are not nil. *)
Theorem of_never_nil (encoder : Encoder) (writer : Writer)
    (ms : list mutation) (level : Level) :
  encoder <> None -> writer <> None -> Forall non_nil_arg ms ->
  fst (core_of (mutate_all (newCore encoder writer) ms) level) <> None /\
  snd (core_of (mutate_all (newCore encoder writer) ms) level) <> None.
Proof.
  intros He Hw Hms.
  pose proof (mutate_all_all_set ms _ (newCore_all_set _ _ He Hw) Hms) as Hall.
  rewrite all_set_entries in Hall.
  unfold core_of. simpl.
  destruct (encoders_of_is_entry
              (core_encoders (mutate_all (newCore encoder writer) ms)) level)
    as [s Hs].
  destruct (writers_of_is_entry
              (core_writers (mutate_all (newCore encoder writer) ms)) level)
    as [s' Hs'].
  rewrite Hs, Hs'. split; apply Hall.
Qed.

(** C9: a per-level setter replaces the entry of its own level and leaves
    the other three entries of its table, and the whole other table, as
    they were; [SetEncoder] and [SetWriter] put the same value in all four
    entries of their table. *)
Theorem set_frame (c : core) (s : slot) (e : Encoder) (w : Writer) :
  (forall s' : slot,
      encoder_at (set_encoder_at s (core_encoders c) e) s' =
        (if slot_eqb s s' then e else encoder_at (core_encoders c) s') /\
      writer_at (set_writer_at s (core_writers c) w) s' =
        (if slot_eqb s s' then w else writer_at (core_writers c) s') /\
      encoder_at (SetEncoder (core_encoders c) e) s' = e /\
      writer_at (SetWriter (core_writers c) w) s' = w) /\
  (forall m : mutation,
      (touches_encoders m = true ->
       core_writers (mutate c m) = core_writers c) /\
      (touches_encoders m = false ->
       core_encoders (mutate c m) = core_encoders c)).
Proof.
  split.
  - intros s'. destruct s, s'; simpl; auto.
  - intros m. destruct m; simpl; split; intros H;
      solve [reflexivity | discriminate H].
Qed.

End Dispatch.

(** The tables at [Level := Z] with the constants 0 to 3, encoders and
    writers named by numbers. *)
Lemma of_dispatch_witness :
  levels_distinct Z 0 1 2 3 /\
  encoders_of Z Z.eq_dec 0 1 2 nat
    (mkEncoders nat (Some 10%nat) (Some 11%nat) (Some 12%nat) (Some 13%nat)) 4
  = Some 13%nat.
Proof.
  assert (Hd : levels_distinct Z 0 1 2 3).
  { unfold levels_distinct.
    repeat constructor; simpl; intuition discriminate. }
  split; [exact Hd|].
  apply (of_dispatch Z Z.eq_dec 0 1 2 3 nat nat
           (mkEncoders nat (Some 10%nat) (Some 11%nat) (Some 12%nat) (Some 13%nat))
           (newWriters nat (Some 0%nat)) Hd);
    discriminate.
Defined.

Lemma set_frame_witness :
  encoder_at nat
    (set_encoder_at nat SlotWarn
       (newEncoders nat (Some 1%nat)) (Some 7%nat)) SlotInfo = Some 1%nat /\
  core_writers nat nat
    (mutate nat nat (newCore nat nat (Some 1%nat) (Some 2%nat))
       (CallSetDebugEncoder nat nat (Some 7%nat)))
  = newWriters nat (Some 2%nat).
Proof.
  pose proof (set_frame nat nat (newCore nat nat (Some 1%nat) (Some 2%nat))
                SlotWarn (Some 7%nat) (Some 8%nat)) as [Hs Hm].
  split.
  - exact (proj1 (Hs SlotInfo)).
  - exact (proj1 (Hm (CallSetDebugEncoder nat nat (Some 7%nat))) eq_refl).
Defined.

Lemma of_never_nil_witness :
  fst (core_of Z Z.eq_dec 0 1 2 nat nat
         (mutate_all nat nat (newCore nat nat (Some 1%nat) (Some 2%nat))
            [CallSetWarnEncoder nat nat (Some 3%nat);
             CallSetWriter nat nat (Some 4%nat)]) 2) <> None.
Proof.
  apply (of_never_nil Z Z.eq_dec 0 1 2 nat nat (Some 1%nat) (Some 2%nat)
           [CallSetWarnEncoder nat nat (Some 3%nat);
            CallSetWriter nat nat (Some 4%nat)] 2).
  - discriminate.
  - discriminate.
  - repeat constructor; simpl; discriminate.
Defined.

End Core.

(** ** core.go: the level and the caller flag of a core *)

Module CoreState.
Import ContextPkg.

Section WithLevel.

Variable Level : Type.
Variable EncoderObj : Type.
Variable WriterObj : Type.

(** [core]: the two [atomic.Value] fields hold nothing until the first
    [Store]; the tables are those of [Core]. *)
Record core : Type := mkCore {
  level : option Level;
  needCaller : option bool;
  encoders : Core.encoders EncoderObj;
  writers : Core.writers WriterObj
}.

Definition newCore (encoder : Core.Encoder EncoderObj)
    (writer : Core.Writer WriterObj) : core :=
  {| level := None;
     needCaller := None;
     encoders := Core.newEncoders EncoderObj encoder;
     writers := Core.newWriters WriterObj writer |}.

(** [core.Level]: [c.level.Load().(Level)]; [Load] yields nil before the
    first [Store], and the assertion panics on nil. *)
Definition Level_of (c : core) : outcome Level :=
  match level c with
  | Some lv => Returns lv
  | None => Panics
  end.

Definition SetLevel (c : core) (newLevel : Level) : core :=
  {| level := Some newLevel;
     needCaller := needCaller c;
     encoders := encoders c;
     writers := writers c |}.

(** [core.NeedCaller]. *)
Definition NeedCaller (c : core) : outcome bool :=
  match needCaller c with
  | Some b => Returns b
  | None => Panics
  end.

Definition SetNeedCaller (c : core) (b : bool) : core :=
  {| level := level c;
     needCaller := Some b;
     encoders := encoders c;
     writers := writers c |}.

(** [core.Encoders] and [core.Writers]. *)
Definition Encoders (c : core) : Core.encoders EncoderObj := encoders c.
Definition Writers (c : core) : Core.writers WriterObj := writers c.

(** A call of one of the two setters. *)
Inductive setting : Type :=
| CallSetLevel (newLevel : Level)
| CallSetNeedCaller (b : bool).

Definition set (c : core) (s : setting) : core :=
  match s with
  | CallSetLevel lv => SetLevel c lv
  | CallSetNeedCaller b => SetNeedCaller c b
  end.

Definition set_all (c : core) (ss : list setting) : core := fold_left set ss c.

(** The level of the last [SetLevel] among the calls, and the flag of the
    last [SetNeedCaller]. *)
Fixpoint last_level (ss : list setting) : option Level :=
  match ss with
  | [] => None
  | s :: ss' =>
      match last_level ss' with
      | Some lv => Some lv
      | None => match s with CallSetLevel lv => Some lv | _ => None end
      end
  end.

Fixpoint last_needCaller (ss : list setting) : option bool :=
  match ss with
  | [] => None
  | s :: ss' =>
      match last_needCaller ss' with
      | Some b => Some b
      | None => match s with CallSetNeedCaller b => Some b | _ => None end
      end
  end.

End WithLevel.

End CoreState.

(** ** Facts about the Go library functions *)

Module GoFacts.
Import Go.

Lemma bytes_eqb_eq (a b : gostring) : bytes_eqb a b = true <-> a = b.
Proof.
  revert b. induction a as [|x a IH]; intros [|y b]; simpl;
    try (split; [discriminate|discriminate]); [tauto|].
  rewrite andb_true_iff, IH. split.
  - intros [Hx ->]. apply Ascii.eqb_eq in Hx. now subst.
  - intros H. inversion H; subst. split; [apply Ascii.eqb_refl|reflexivity].
Qed.

Lemma is_digit_range (c : ascii) :
  is_digit c = true -> 0 <= byte_val c - 48 <= 9.
Proof.
  unfold is_digit. rewrite andb_true_iff, Z.leb_le, Z.leb_le. lia.
Qed.

(** A digit is none of the bytes [+], [-], [.], [d] and [D]. *)
Lemma is_digit_not (c x : ascii) :
  is_digit c = true -> is_digit x = false -> Ascii.eqb c x = false.
Proof.
  intros Hc Hx. destruct (Ascii.eqb_spec c x) as [->|]; [congruence|reflexivity].
Qed.

Lemma u64_small (x : Z) : 0 <= x < 2 ^ 64 -> u64 x = x.
Proof. intros H. unfold u64. now apply Z.mod_small. Qed.

Lemma i64_small (x : Z) : - 2 ^ 63 <= x < 2 ^ 63 -> i64 x = x.
Proof.
  intros H. unfold i64. rewrite Z.mod_small; lia.
Qed.

Lemma decimal_fold_ge (ds : gostring) :
  forall n, all_digits ds = true -> 0 <= n ->
            n <= fold_left step10 ds n.
Proof.
  induction ds as [|c ds IH]; intros n Hd Hn; simpl.
  - lia.
  - simpl in Hd. apply andb_true_iff in Hd as [Hc Hd].
    pose proof (is_digit_range c Hc).
    etransitivity; [|apply IH; [exact Hd|unfold step10; lia]].
    unfold step10. lia.
Qed.

Lemma decimal_value_nonneg (ds : gostring) :
  all_digits ds = true -> 0 <= decimal_value ds.
Proof.
  intros H. apply (decimal_fold_ge ds 0 H). lia.
Qed.

Lemma ParseUint_loop_cons (n : Z) (c : ascii) (s : gostring) :
  ParseUint_loop n (c :: s) =
  if negb (is_digit c) then Err ErrSyntax
  else if (2 ^ 64 - 1) / 10 + 1 <=? n then Err ErrRange
  else if (u64 (u64 (n * 10) + (byte_val c - 48)) <? u64 (n * 10)) ||
          (2 ^ 64 - 1 <? u64 (u64 (n * 10) + (byte_val c - 48)))
       then Err ErrRange
  else ParseUint_loop (u64 (u64 (n * 10) + (byte_val c - 48))) s.
Proof. reflexivity. Qed.

(** On a string of digits whose number fits, [ParseUint] yields the
    number. *)
Lemma ParseUint_loop_digits (ds : gostring) :
  forall n, all_digits ds = true -> 0 <= n ->
            fold_left step10 ds n < 2 ^ 64 ->
            ParseUint_loop n ds = Ok (fold_left step10 ds n).
Proof.
  induction ds as [|c ds IH]; intros n Hd Hn Hb.
  - reflexivity.
  - cbn [all_digits forallb] in Hd. apply andb_true_iff in Hd as [Hc Hd].
    pose proof (is_digit_range c Hc) as Hr.
    assert (Hn1 : 0 <= step10 n c) by (unfold step10; lia).
    pose proof (decimal_fold_ge ds (step10 n c) Hd Hn1) as Hge.
    cbn [fold_left] in Hb |- *.
    assert (Hs : step10 n c < 2 ^ 64) by lia.
    unfold step10 in Hs, Hn1 |- * at 2. fold step10.
    rewrite ParseUint_loop_cons.
    rewrite Hc. cbn [negb].
    assert (Hcut : ((2 ^ 64 - 1) / 10 + 1 <=? n) = false).
    { apply Z.leb_gt.
      assert (n <= (2 ^ 64 - 1) / 10) by (apply Z.div_le_lower_bound; lia).
      lia. }
    rewrite Hcut.
    rewrite (u64_small (n * 10)) by lia.
    rewrite (u64_small (n * 10 + (byte_val c - 48))) by lia.
    assert (Hlt : (n * 10 + (byte_val c - 48) <? n * 10) = false)
      by (apply Z.ltb_ge; lia).
    assert (Hmax : (2 ^ 64 - 1 <? n * 10 + (byte_val c - 48)) = false)
      by (apply Z.ltb_ge; lia).
    rewrite Hlt, Hmax. cbn [orb].
    apply IH; [exact Hd|lia|exact Hb].
Qed.

Lemma ParseUint_digits (ds : gostring) :
  ds <> [] -> all_digits ds = true -> decimal_value ds < 2 ^ 64 ->
  ParseUint ds = Ok (decimal_value ds).
Proof.
  intros Hne Hd Hb. unfold ParseUint.
  destruct ds as [|c ds]; [congruence|].
  apply ParseUint_loop_digits; [exact Hd|lia|exact Hb].
Qed.

Lemma ParseInt_cons (c : ascii) (s : gostring) :
  ParseInt (c :: s) =
  match ParseUint (if Ascii.eqb c "+" || Ascii.eqb c "-" then s else c :: s) with
  | Err ErrRange => Err ErrRange
  | Err e => Err e
  | Ok un =>
      if negb (Ascii.eqb c "-") && (2 ^ 63 <=? un) then Err ErrRange
      else if Ascii.eqb c "-" && (2 ^ 63 <? un) then Err ErrRange
      else Ok (if Ascii.eqb c "-" then i64 (- i64 un) else i64 un)
  end.
Proof. reflexivity. Qed.

(** [ParseInt] on an unsigned and on a signed string of digits. *)
Lemma ParseInt_digits (ds : gostring) :
  ds <> [] -> all_digits ds = true -> decimal_value ds < 2 ^ 63 ->
  ParseInt ds = Ok (decimal_value ds) /\
  ParseInt ("+"%char :: ds) = Ok (decimal_value ds) /\
  ParseInt ("-"%char :: ds) = Ok (- decimal_value ds).
Proof.
  intros Hne Hd Hb.
  pose proof (decimal_value_nonneg ds Hd) as H0.
  assert (Hu : ParseUint ds = Ok (decimal_value ds))
    by (apply ParseUint_digits; [exact Hne|exact Hd|lia]).
  assert (Hc1 : (2 ^ 63 <=? decimal_value ds) = false) by (apply Z.leb_gt; lia).
  assert (Hc2 : (2 ^ 63 <? decimal_value ds) = false) by (apply Z.ltb_ge; lia).
  split; [|split].
  - destruct ds as [|c ds']; [congruence|].
    assert (Hc : is_digit c = true)
      by (cbn [all_digits forallb] in Hd; apply andb_true_iff in Hd; tauto).
    rewrite ParseInt_cons.
    rewrite (is_digit_not c "-" Hc eq_refl), (is_digit_not c "+" Hc eq_refl).
    cbn [orb negb andb]. rewrite Hu, Hc1.
    rewrite i64_small by lia. reflexivity.
  - rewrite ParseInt_cons.
    change (Ascii.eqb "+" "+") with true. change (Ascii.eqb "+" "-") with false.
    cbn [orb negb andb]. rewrite Hu, Hc1.
    rewrite i64_small by lia. reflexivity.
  - rewrite ParseInt_cons.
    change (Ascii.eqb "-" "+") with false. change (Ascii.eqb "-" "-") with true.
    cbn [orb negb andb]. rewrite Hu, Hc2.
    rewrite (i64_small (decimal_value ds)) by lia.
    rewrite i64_small by lia. reflexivity.
Qed.

(** [HasSuffix] and [TrimSuffix] with a suffix of one byte. *)
Lemma HasSuffix_last (b : gostring) (c x : ascii) :
  HasSuffix (b ++ [c]) [x] = Ascii.eqb c x.
Proof.
  unfold HasSuffix, len. rewrite length_app. simpl.
  replace (List.length b + 1 - 1)%nat with (List.length b) by lia.
  rewrite skipn_app, skipn_all, Nat.sub_diag. simpl.
  rewrite andb_true_r.
  destruct (List.length b + 1)%nat eqn:E; [lia|reflexivity].
Qed.

Lemma TrimSuffix_last (b : gostring) (c : ascii) :
  TrimSuffix (b ++ [c]) [c] = b.
Proof.
  unfold TrimSuffix. rewrite HasSuffix_last, Ascii.eqb_refl.
  unfold len. rewrite length_app. simpl.
  replace (List.length b + 1 - 1)%nat with (List.length b) by lia.
  rewrite firstn_app, firstn_all, Nat.sub_diag. simpl. apply app_nil_r.
Qed.

Lemma TrimSuffix_other (s suffix : gostring) :
  HasSuffix s suffix = false -> TrimSuffix s suffix = s.
Proof. intros H. unfold TrimSuffix. now rewrite H. Qed.

(** A string of digits, with or without a sign in front, does not end in
    a byte that is not a digit. *)
Lemma HasSuffix_digits (pre ds : gostring) (x : ascii) :
  ds <> [] -> all_digits ds = true -> is_digit x = false ->
  HasSuffix (pre ++ ds) [x] = false.
Proof.
  intros Hne Hd Hx.
  destruct (exists_last Hne) as [b [c ->]].
  unfold all_digits in Hd. rewrite forallb_app in Hd.
  apply andb_true_iff in Hd as [_ Hc]. simpl in Hc.
  rewrite andb_true_r in Hc.
  rewrite app_assoc, HasSuffix_last. now apply is_digit_not.
Qed.

Lemma leadingInt_loop_cons (x : Z) (c : ascii) (s : gostring) :
  leadingInt_loop x (c :: s) =
  if negb (is_digit c) then Some (x, c :: s)
  else if 2 ^ 63 / 10 <? x then None
  else if 2 ^ 63 <? u64 (x * 10 + byte_val c - 48) then None
  else leadingInt_loop (u64 (x * 10 + byte_val c - 48)) s.
Proof. reflexivity. Qed.

Lemma leadingInt_loop_digits (ds rest : gostring) (c : ascii) :
  all_digits ds = true -> is_digit c = false ->
  forall x,
    leadingInt_loop x (ds ++ c :: rest) = None \/
    exists v, leadingInt_loop x (ds ++ c :: rest) = Some (v, c :: rest).
Proof.
  intros Hd Hc. induction ds as [|c0 ds IH]; intros x.
  - right. exists x. cbn [app]. rewrite leadingInt_loop_cons, Hc. reflexivity.
  - cbn [all_digits forallb] in Hd. apply andb_true_iff in Hd as [Hc0 Hd].
    cbn [app]. rewrite leadingInt_loop_cons, Hc0. cbn [negb].
    destruct (2 ^ 63 / 10 <? x); [now left|].
    destruct (2 ^ 63 <? u64 (x * 10 + byte_val c0 - 48)); [now left|].
    apply (IH Hd).
Qed.

Lemma ParseDuration_round_day (d : Z) (ds : gostring) (sc : ascii) :
  all_digits ds = true -> sc = "d"%char \/ sc = "D"%char ->
  exists e, ParseDuration_round d (ds ++ [sc]) = Err e.
Proof.
  intros Hd Hsc.
  assert (Hnd : is_digit sc = false) by (destruct Hsc; subst; reflexivity).
  assert (Hdot : Ascii.eqb sc "." = false) by (destruct Hsc; subst; reflexivity).
  assert (Hunit : unitMap [sc] = None) by (destruct Hsc; subst; reflexivity).
  destruct ds as [|c0 ds'].
  - cbn [app]. unfold ParseDuration_round. rewrite Hdot, Hnd. cbn [orb negb].
    eexists; reflexivity.
  - assert (Hc0 : is_digit c0 = true)
      by (cbn [all_digits forallb] in Hd; apply andb_true_iff in Hd; tauto).
    unfold ParseDuration_round. cbn [app]. rewrite Hc0, orb_true_r. cbn [negb].
    unfold leadingInt.
    destruct (leadingInt_loop_digits (c0 :: ds') [] sc Hd Hnd 0) as [E|[v E]];
      cbn [app] in E; rewrite E.
    + eexists; reflexivity.
    + rewrite Hdot.
      assert (Hlen : (len (c0 :: ds' ++ [sc]) =? len [sc])%nat = false).
      { unfold len. cbn [List.length]. rewrite length_app. cbn [List.length].
        apply Nat.eqb_neq. lia. }
      rewrite Hlen. cbn [negb andb].
      cbn [span_unit]. rewrite Hdot, Hnd. cbn [orb].
      rewrite Hunit. eexists; reflexivity.
Qed.

Lemma ParseDuration_loop_cons (fuel : nat) (d : Z) (c : ascii) (s : gostring) :
  ParseDuration_loop (S fuel) d (c :: s) =
  match ParseDuration_round d (c :: s) with
  | Err e => Some (Err e)
  | Ok (d', s') => ParseDuration_loop fuel d' s'
  end.
Proof. reflexivity. Qed.

(** A string of digits followed by [d] or [D] is no duration for
    [time.ParseDuration]: the unit is unknown, or the number is missing or
    too large. *)
Lemma ParseDuration_signed_day (neg : bool) (ds : gostring) (sc : ascii) :
  all_digits ds = true -> sc = "d"%char \/ sc = "D"%char ->
  is_ok (ParseDuration_signed neg (ds ++ [sc])) = false.
Proof.
  intros Hd Hsc.
  destruct (ParseDuration_round_day 0 ds sc Hd Hsc) as [e He].
  assert (H0 : bytes_eqb (ds ++ [sc]) (str "0") = false).
  { destruct (bytes_eqb (ds ++ [sc]) (str "0")) eqn:E; [|reflexivity].
    apply bytes_eqb_eq in E. exfalso.
    destruct ds as [|c0 [|c1 ds']]; cbn in E; try discriminate E.
    inversion E; subst. destruct Hsc; discriminate. }
  unfold ParseDuration_signed. rewrite H0.
  destruct (ds ++ [sc]) as [|c s] eqn:Es.
  - destruct ds; discriminate Es.
  - unfold len. cbn [List.length]. rewrite ParseDuration_loop_cons, He.
    reflexivity.
Qed.

Lemma ParseDuration_day (ds : gostring) (sc : ascii) :
  all_digits ds = true -> sc = "d"%char \/ sc = "D"%char ->
  is_ok (ParseDuration (ds ++ [sc])) = false /\
  is_ok (ParseDuration ("+"%char :: ds ++ [sc])) = false /\
  is_ok (ParseDuration ("-"%char :: ds ++ [sc])) = false.
Proof.
  intros Hd Hsc.
  split; [|split].
  - destruct ds as [|c0 ds'].
    + destruct Hsc; subst; reflexivity.
    + assert (Hc0 : is_digit c0 = true)
        by (cbn [all_digits forallb] in Hd; apply andb_true_iff in Hd; tauto).
      cbn [app]. unfold ParseDuration.
      rewrite (is_digit_not c0 "-" Hc0 eq_refl), (is_digit_not c0 "+" Hc0 eq_refl).
      cbn [orb].
      apply (ParseDuration_signed_day false (c0 :: ds') sc Hd Hsc).
  - apply (ParseDuration_signed_day false ds sc Hd Hsc).
  - apply (ParseDuration_signed_day true ds sc Hd Hsc).
Qed.

Lemma leadingInt_loop_len (s : gostring) :
  forall x v s1, leadingInt_loop x s = Some (v, s1) -> (len s1 <= len s)%nat.
Proof.
  induction s as [|c s IH]; intros x v s1 H.
  - inversion H; subst. auto.
  - rewrite leadingInt_loop_cons in H.
    destruct (negb (is_digit c)).
    + inversion H; subst. auto.
    + destruct (2 ^ 63 / 10 <? x); [discriminate|].
      destruct (2 ^ 63 <? u64 (x * 10 + byte_val c - 48)); [discriminate|].
      apply IH in H. unfold len in *. cbn [List.length]. lia.
Qed.

Lemma leadingFraction_loop_cons (x scale : Z) (overflow : bool) (c : ascii)
    (s : gostring) :
  leadingFraction_loop x scale overflow (c :: s) =
  if negb (is_digit c) then (x, scale, c :: s)
  else if overflow then leadingFraction_loop x scale overflow s
  else if (2 ^ 63 - 1) / 10 <? x then leadingFraction_loop x scale true s
  else if 2 ^ 63 <? u64 (x * 10 + byte_val c - 48)
       then leadingFraction_loop x scale true s
  else leadingFraction_loop (u64 (x * 10 + byte_val c - 48)) (scale * 10) overflow s.
Proof. reflexivity. Qed.

Lemma leadingFraction_loop_len (s : gostring) :
  forall x scale overflow f scale' s2,
    leadingFraction_loop x scale overflow s = (f, scale', s2) ->
    (len s2 <= len s)%nat.
Proof.
  induction s as [|c s IH]; intros x scale overflow f scale' s2 H.
  - inversion H; subst. auto.
  - rewrite leadingFraction_loop_cons in H.
    assert (Hstep : forall x0 sc0 o0,
               leadingFraction_loop x0 sc0 o0 s = (f, scale', s2) ->
               (len s2 <= len (c :: s))%nat).
    { intros x0 sc0 o0 H0. apply IH in H0. unfold len in *.
      cbn [List.length]. lia. }
    destruct (negb (is_digit c)).
    + inversion H; subst. auto.
    + destruct overflow; [eapply Hstep; exact H|].
      destruct ((2 ^ 63 - 1) / 10 <? x); [eapply Hstep; exact H|].
      destruct (2 ^ 63 <? u64 (x * 10 + byte_val c - 48));
        eapply Hstep; exact H.
Qed.

Lemma span_unit_len (s : gostring) :
  forall u s3, span_unit s = (u, s3) -> len s = (len u + len s3)%nat.
Proof.
  induction s as [|c s IH]; intros u s3 H.
  - inversion H; subst. reflexivity.
  - cbn [span_unit] in H.
    destruct (Ascii.eqb c "." || is_digit c).
    + inversion H; subst. reflexivity.
    + destruct (span_unit s) as [u' rest] eqn:E. inversion H; subst.
      specialize (IH u' s3 eq_refl). unfold len in *. cbn [List.length]. lia.
Qed.

(** A round that succeeds leaves a shorter string. *)
Lemma ParseDuration_round_shrinks (d d' : Z) (c : ascii) (s s' : gostring) :
  ParseDuration_round d (c :: s) = Ok (d', s') ->
  (len s' < len (c :: s))%nat.
Proof.
  unfold ParseDuration_round.
  destruct (negb (Ascii.eqb c "." || is_digit c)); [discriminate|].
  destruct (leadingInt (c :: s)) as [[v s1]|] eqn:Ei; [|discriminate].
  apply leadingInt_loop_len in Ei.
  assert (Htail : forall f scale s2 post,
             (len s2 <= len (c :: s))%nat ->
             (if negb (negb (len (c :: s) =? len s1)%nat) && negb post
              then Err ErrInvalidDuration
              else
                let (u, s3) := span_unit s2 in
                match u with
                | [] => Err ErrMissingUnit
                | _ =>
                    match unitMap u with
                    | None => Err (ErrUnknownUnit u)
                    | Some unit =>
                        if 2 ^ 63 / unit <? v then Err ErrInvalidDuration
                        else
                          let v1 := u64 (v * unit) in
                          let v2 :=
                            if 0 <? f then u64 (v1 + u64 (f * unit / scale))
                            else v1 in
                          if (0 <? f) && (2 ^ 63 <? v2) then Err ErrInvalidDuration
                          else
                            let d' := u64 (d + v2) in
                            if 2 ^ 63 <? d' then Err ErrInvalidDuration
                            else Ok (d', s3)
                    end
                end) = Ok (d', s') ->
             (len s' < len (c :: s))%nat).
  { intros f scale s2 post Hs2.
    destruct (negb (negb (len (c :: s) =? len s1)%nat) && negb post);
      [discriminate|].
    destruct (span_unit s2) as [u s3] eqn:Eu.
    apply span_unit_len in Eu.
    destruct u as [|u0 u]; [discriminate|].
    destruct (unitMap (u0 :: u)) as [unit|]; [|discriminate].
    destruct (2 ^ 63 / unit <? v); [discriminate|].
    cbv zeta.
    destruct ((0 <? f) && _); [discriminate|].
    destruct (2 ^ 63 <? _); [discriminate|].
    intros H. inversion H; subst.
    unfold len in *. cbn [List.length] in *. lia. }
  destruct s1 as [|dot s1'].
  - apply Htail. unfold len in *. cbn [List.length] in *. lia.
  - destruct (Ascii.eqb dot ".").
    + destruct (leadingFraction s1') as [[f scale] s2] eqn:Ef.
      apply leadingFraction_loop_len in Ef.
      apply Htail. unfold len in *. cbn [List.length] in *. lia.
    + apply Htail. exact Ei.
Qed.

Lemma ParseDuration_loop_total (fuel : nat) :
  forall d s, (len s <= fuel)%nat -> ParseDuration_loop fuel d s <> None.
Proof.
  induction fuel as [|fuel IH]; intros d s Hlen.
  - destruct s; [discriminate|]. unfold len in Hlen. cbn [List.length] in Hlen. lia.
  - destruct s as [|c s]; [discriminate|].
    rewrite ParseDuration_loop_cons.
    destruct (ParseDuration_round d (c :: s)) as [[d' s']|e] eqn:E; [|discriminate].
    apply ParseDuration_round_shrinks in E.
    apply IH. lia.
Qed.

End GoFacts.

(** ** Facts about the configuration code *)

Module ConfigFacts.
Import Go GoFacts Config.

(** [parseTimeDuration] on a string that ends in [d] or [D]: the suffix
    goes and the rest is read as a number of days. *)
Lemma parseTimeDuration_day (b : gostring) (sc : ascii) :
  sc = "d"%char \/ sc = "D"%char ->
  HasSuffix b (str "d") = false -> HasSuffix b (str "D") = false ->
  parseTimeDuration (b ++ [sc]) =
  match ParseInt b with
  | Err err => Err err
  | Ok days => Ok (i64 (days * Day))
  end.
Proof.
  intros Hsc Hd HD. unfold parseTimeDuration.
  change (str "d") with ["d"%char] in *. change (str "D") with ["D"%char] in *.
  rewrite !HasSuffix_last.
  destruct Hsc; subst sc.
  - change (Ascii.eqb "d" "d") with true. cbn [orb]. cbv zeta.
    rewrite TrimSuffix_last, (TrimSuffix_other b ["D"%char] HD). reflexivity.
  - change (Ascii.eqb "D" "d") with false. change (Ascii.eqb "D" "D") with true.
    cbn [orb]. cbv zeta.
    rewrite (TrimSuffix_other (b ++ ["D"%char]) ["d"%char])
      by (rewrite HasSuffix_last; reflexivity).
    rewrite TrimSuffix_last. reflexivity.
Qed.

Lemma Day_value : Day = 86400000000000.
Proof. reflexivity. Qed.

(** The days that fit a [Duration]. *)
Lemma parseTimeDuration_days (ds : gostring) (sc : ascii) :
  ds <> [] -> all_digits ds = true -> sc = "d"%char \/ sc = "D"%char ->
  decimal_value ds <= 106751 ->
  parseTimeDuration (ds ++ [sc]) = Ok (decimal_value ds * (24 * Hour)) /\
  parseTimeDuration ("+"%char :: ds ++ [sc]) = Ok (decimal_value ds * (24 * Hour)) /\
  parseTimeDuration ("-"%char :: ds ++ [sc]) = Ok (- decimal_value ds * (24 * Hour)).
Proof.
  intros Hne Hd Hsc Hb.
  pose proof (decimal_value_nonneg ds Hd) as H0.
  destruct (ParseInt_digits ds Hne Hd) as [Hp [Hplus Hminus]]; [lia|].
  fold Day. rewrite Day_value.
  split; [|split].
  - rewrite parseTimeDuration_day; [|exact Hsc| |].
    + rewrite Hp, Day_value, i64_small by lia. reflexivity.
    + apply (HasSuffix_digits [] ds "d" Hne Hd eq_refl).
    + apply (HasSuffix_digits [] ds "D" Hne Hd eq_refl).
  - rewrite app_comm_cons.
    rewrite (parseTimeDuration_day ("+"%char :: ds)); [|exact Hsc| |].
    + rewrite Hplus, Day_value, i64_small by lia. reflexivity.
    + apply (HasSuffix_digits ["+"%char] ds "d" Hne Hd eq_refl).
    + apply (HasSuffix_digits ["+"%char] ds "D" Hne Hd eq_refl).
  - rewrite app_comm_cons.
    rewrite (parseTimeDuration_day ("-"%char :: ds)); [|exact Hsc| |].
    + rewrite Hminus, Day_value, i64_small by lia. reflexivity.
    + apply (HasSuffix_digits ["-"%char] ds "d" Hne Hd eq_refl).
    + apply (HasSuffix_digits ["-"%char] ds "D" Hne Hd eq_refl).
Qed.

Lemma spawned_app (w1 w2 : World) : spawned (w1 ++ w2) = spawned w1 ++ spawned w2.
Proof. unfold spawned. apply filter_app. Qed.

(** [newFile] fails exactly as [newFile_fails] says, adds no task, and
    only adds to the effects. *)
Lemma newFile_is_ok (env : Env) (c : Config) (world : World) :
  is_ok (fst (newFile env c world)) = negb (newFile_fails env c) /\
  exists added,
    snd (newFile env c world) = world ++ added /\ spawned added = [].
Proof.
  unfold newFile, newFile_fails.
  destruct (FileConfig.Rotate (File c)).
  - destruct (negb (is_empty (FileConfig.MaxSize (File c))));
      [destruct (ParseByteSize env (FileConfig.MaxSize (File c)))|];
      cbn [is_ok negb andb orb fst snd];
      try (split; [reflexivity|exists []; rewrite app_nil_r; split; reflexivity]);
      (destruct (negb (is_empty (FileConfig.MaxAge (File c))));
       [destruct (parseTimeDuration (FileConfig.MaxAge (File c)))|];
       cbn [is_ok negb andb orb fst snd];
       try (split; [reflexivity|exists []; rewrite app_nil_r; split; reflexivity]);
       (destruct (file_New env (FileConfig.Path (File c)));
        cbn [is_ok negb andb orb fst snd];
        [split; [reflexivity|exists []; rewrite app_nil_r; split; reflexivity]
        |split; [reflexivity|eexists; split; reflexivity]])).
  - destruct (MkdirAll env (Dir env (FileConfig.Path (File c)))
                (FileConfig.DirMode (File c)));
      cbn [is_ok negb andb orb fst snd];
      [split; [reflexivity|exists []; rewrite app_nil_r; split; reflexivity]|].
    destruct (OpenFile env (FileConfig.Path (File c)) (FileConfig.Mode (File c)));
      cbn [is_ok negb andb orb fst snd].
    + split; [reflexivity|eexists; split; reflexivity].
    + split; [reflexivity|].
      eexists. split; [rewrite <- app_assoc; reflexivity|reflexivity].
Qed.

Lemma str_neq (a b : gostring) (s : gostring) :
  a <> b -> bytes_eqb s a = true -> bytes_eqb s b = false.
Proof.
  intros Hne Ha. apply bytes_eqb_eq in Ha. subst s.
  destruct (bytes_eqb a b) eqn:E; [|reflexivity].
  apply bytes_eqb_eq in E. contradiction.
Qed.

(** The three targets and the three modes are different names. *)
Lemma target_cases (s : gostring) :
  (bytes_eqb s (str "stdout") = true /\ bytes_eqb s (str "stderr") = false /\
   bytes_eqb s (str "file") = false) \/
  (bytes_eqb s (str "stdout") = false /\ bytes_eqb s (str "stderr") = true /\
   bytes_eqb s (str "file") = false) \/
  (bytes_eqb s (str "stdout") = false /\ bytes_eqb s (str "stderr") = false /\
   bytes_eqb s (str "file") = true) \/
  (bytes_eqb s (str "stdout") = false /\ bytes_eqb s (str "stderr") = false /\
   bytes_eqb s (str "file") = false).
Proof.
  destruct (bytes_eqb s (str "stdout")) eqn:E1.
  - left. repeat split; apply (str_neq (str "stdout")); auto; discriminate.
  - destruct (bytes_eqb s (str "stderr")) eqn:E2.
    + right; left. repeat split; apply (str_neq (str "stderr")); auto; discriminate.
    + destruct (bytes_eqb s (str "file")); tauto.
Qed.

Lemma mode_cases (s : gostring) :
  (bytes_eqb s (str "direct") = true /\ bytes_eqb s (str "buffer") = false /\
   bytes_eqb s (str "batch") = false) \/
  (bytes_eqb s (str "direct") = false /\ bytes_eqb s (str "buffer") = true /\
   bytes_eqb s (str "batch") = false) \/
  (bytes_eqb s (str "direct") = false /\ bytes_eqb s (str "buffer") = false /\
   bytes_eqb s (str "batch") = true) \/
  (bytes_eqb s (str "direct") = false /\ bytes_eqb s (str "buffer") = false /\
   bytes_eqb s (str "batch") = false).
Proof.
  destruct (bytes_eqb s (str "direct")) eqn:E1.
  - left. repeat split; apply (str_neq (str "direct")); auto; discriminate.
  - destruct (bytes_eqb s (str "buffer")) eqn:E2.
    + right; left. repeat split; apply (str_neq (str "buffer")); auto; discriminate.
    + destruct (bytes_eqb s (str "batch")); tauto.
Qed.

Lemma after_target_is_ok (env : Env) (c : Config) (w : writer) (world1 : World) :
  is_ok (fst (after_target env c w world1)) =
    negb (negb (mode_valid c) ||
          (bytes_eqb (WriterConfig.Mode (Writer c)) (str "buffer") &&
           negb (is_ok (ParseByteSize env (WriterConfig.BufferSize (Writer c))))) ||
          (negb (is_empty (WriterConfig.AutoSync (Writer c))) &&
           negb (is_ok (ParseDuration (WriterConfig.AutoSync (Writer c)))))) /\
  exists added,
    snd (after_target env c w world1) = world1 ++ added /\
    (is_ok (fst (after_target env c w world1)) = false -> added = []) /\
    (forall w', fst (after_target env c w world1) = Ok w' ->
       added =
         if is_empty (WriterConfig.AutoSync (Writer c)) then []
         else match ParseDuration (WriterConfig.AutoSync (Writer c)) with
              | Ok frequency => [Spawned w' frequency]
              | Err _ => []
              end).
Proof.
  unfold after_target, mode_valid. cbv zeta.
  destruct (mode_cases (WriterConfig.Mode (Writer c)))
    as [[E1 [E2 E3]]|[[E1 [E2 E3]]|[[E1 [E2 E3]]|[E1 [E2 E3]]]]];
    rewrite E1, E2, E3; cbn [orb negb andb];
    try destruct (ParseByteSize env (WriterConfig.BufferSize (Writer c)));
    cbn [is_ok orb negb andb fst snd];
    try (split; [reflexivity|
                 exists []; rewrite app_nil_r;
                 split; [reflexivity|split; [reflexivity|discriminate]]]);
    (destruct (is_empty (WriterConfig.AutoSync (Writer c)));
     cbn [is_ok orb negb andb fst snd];
     [split; [reflexivity|
              exists []; rewrite app_nil_r;
              split; [reflexivity|split; [reflexivity|reflexivity]]]|];
     destruct (ParseDuration (WriterConfig.AutoSync (Writer c)));
     cbn [is_ok orb negb andb fst snd];
     [split; [reflexivity|
              eexists; split; [reflexivity|
                split; [discriminate|intros w' H; inversion H; reflexivity]]]
     |split; [reflexivity|
              exists []; rewrite app_nil_r;
              split; [reflexivity|split; [reflexivity|discriminate]]]]).
Qed.

Lemma newWriter_after_target (env : Env) (c : Config) (world : World) :
  newWriter env c world =
  let target := WriterConfig.Target (Writer c) in
  if bytes_eqb target (str "stdout") then after_target env c Stdout world
  else if bytes_eqb target (str "stderr") then after_target env c Stderr world
  else if bytes_eqb target (str "file") then
    match newFile env c world with
    | (Err err, world1) => (Err err, world1)
    | (Ok f, world1) => after_target env c (Wrap f) world1
    end
  else (Err (ErrTargetInvalid target), world).
Proof.
  unfold newWriter, after_target. cbv zeta.
  destruct (bytes_eqb (WriterConfig.Target (Writer c)) (str "stdout")); [reflexivity|].
  destruct (bytes_eqb (WriterConfig.Target (Writer c)) (str "stderr")); [reflexivity|].
  destruct (bytes_eqb (WriterConfig.Target (Writer c)) (str "file")); [|reflexivity].
  destruct (newFile env c world) as [[f|err] world1]; reflexivity.
Qed.

(** [newWriter] fails exactly as [newWriter_fails] says; it only adds to
    the effects, adds no task when it fails, and when it succeeds adds
    the one task of the writer it returns if [AutoSync] is set. *)
Lemma newWriter_is_ok (env : Env) (c : Config) (world : World) :
  is_ok (fst (newWriter env c world)) = negb (newWriter_fails env c) /\
  exists added,
    snd (newWriter env c world) = world ++ added /\
    (is_ok (fst (newWriter env c world)) = false -> spawned added = []) /\
    (forall w, fst (newWriter env c world) = Ok w ->
       spawned added =
         if is_empty (WriterConfig.AutoSync (Writer c)) then []
         else match ParseDuration (WriterConfig.AutoSync (Writer c)) with
              | Ok frequency => [Spawned w frequency]
              | Err _ => []
              end).
Proof.
  rewrite newWriter_after_target. unfold newWriter_fails, target_valid. cbv zeta.
  assert (Hdirect : forall w,
    is_ok (fst (after_target env c w world)) =
      negb (false || negb (mode_valid c) ||
            (bytes_eqb (WriterConfig.Mode (Writer c)) (str "buffer") &&
             negb (is_ok (ParseByteSize env (WriterConfig.BufferSize (Writer c))))) ||
            (negb (is_empty (WriterConfig.AutoSync (Writer c))) &&
             negb (is_ok (ParseDuration (WriterConfig.AutoSync (Writer c)))))) /\
    exists added,
      snd (after_target env c w world) = world ++ added /\
      (is_ok (fst (after_target env c w world)) = false -> spawned added = []) /\
      (forall w', fst (after_target env c w world) = Ok w' ->
         spawned added =
           if is_empty (WriterConfig.AutoSync (Writer c)) then []
           else match ParseDuration (WriterConfig.AutoSync (Writer c)) with
                | Ok frequency => [Spawned w' frequency]
                | Err _ => []
                end)).
  { intros w. destruct (after_target_is_ok env c w world) as [Hok [added [Hw [He Hs]]]].
    split; [exact Hok|].
    exists added. split; [exact Hw|]. split.
    - intros H. rewrite (He H). reflexivity.
    - intros w' H. rewrite (Hs w' H).
      destruct (is_empty _); [reflexivity|].
      destruct (ParseDuration _); reflexivity. }
  destruct (target_cases (WriterConfig.Target (Writer c)))
    as [[E1 [E2 E3]]|[[E1 [E2 E3]]|[[E1 [E2 E3]]|[E1 [E2 E3]]]]];
    rewrite E1, E2, E3; cbn [orb negb andb].
  - apply Hdirect.
  - apply Hdirect.
  - destruct (newFile_is_ok env c world) as [Hok [added1 [Hw1 Hs1]]].
    destruct (newFile env c world) as [[f|err] world1] eqn:Ef;
      cbn [fst snd is_ok] in *.
    + assert (Hff : newFile_fails env c = false)
        by (destruct (newFile_fails env c); [discriminate Hok|reflexivity]).
      rewrite Hff.
      destruct (after_target_is_ok env c (Wrap f) world1)
        as [Hok2 [added [Hw [He Hs]]]].
      split; [exact Hok2|].
      exists (added1 ++ added). subst world1.
      split; [rewrite Hw, app_assoc; reflexivity|].
      rewrite spawned_app, Hs1. cbn [app]. split.
      * intros H. rewrite (He H). reflexivity.
      * intros w' H. rewrite (Hs w' H).
        destruct (is_empty _); [reflexivity|].
        destruct (ParseDuration _); reflexivity.
    + assert (Hff : newFile_fails env c = true)
        by (destruct (newFile_fails env c); [reflexivity|discriminate Hok]).
      rewrite Hff. cbn [orb negb].
      split; [reflexivity|].
      exists added1. split; [exact Hw1|]. split; [intros _; exact Hs1|discriminate].
  - split; [reflexivity|].
    exists []. rewrite app_nil_r. split; [reflexivity|].
    split; [reflexivity|discriminate].
Qed.

(** C4 as stated fails: ["7d"] is 7 times 24 hours for [parseTimeDuration],
    which reads [MaxAge], and an unknown unit for [time.ParseDuration],
    which reads [AutoSync], so [newWriter] returns an error for it. *)
Lemma AutoSync_rejects_day_suffix :
  parseTimeDuration (str "7d") = Ok (7 * (24 * Hour)) /\
  ParseDuration (str "7d") = Err (ErrUnknownUnit (str "d")) /\
  newWriter ok_env autosync_7d [] = (Err (ErrUnknownUnit (str "d")), []).
Proof. vm_compute. repeat split. Qed.

(** C4, amended: for a string of decimal digits, with or without a sign,
    whose number [n] is at most 106751, so that [n] days fit a
    [Duration], followed by [d] or [D], [parseTimeDuration] yields [n]
    times 24 hours, and [newFile] accepts it as the [MaxAge] of a rotating
    file; [time.ParseDuration] rejects every such string, and so
    [newWriter] fails on it as [AutoSync]; and a string that does not end
    in [d] or [D] is read by [parseTimeDuration] as [time.ParseDuration]
    reads it. *)
Theorem day_suffix_of_MaxAge (ds : gostring) (sc : ascii) :
  ds <> [] -> all_digits ds = true -> sc = "d"%char \/ sc = "D"%char ->
  (decimal_value ds <= 106751 ->
   (parseTimeDuration (ds ++ [sc]) = Ok (decimal_value ds * (24 * Hour)) /\
    parseTimeDuration ("+"%char :: ds ++ [sc]) = Ok (decimal_value ds * (24 * Hour)) /\
    parseTimeDuration ("-"%char :: ds ++ [sc]) = Ok (- decimal_value ds * (24 * Hour))) /\
   (forall env c world,
       FileConfig.Rotate (File c) = true ->
       FileConfig.MaxAge (File c) = ds ++ [sc] ->
       is_empty (FileConfig.MaxSize (File c)) = true \/
       is_ok (ParseByteSize env (FileConfig.MaxSize (File c))) = true ->
       file_New env (FileConfig.Path (File c)) = None ->
       is_ok (fst (newFile env c world)) = true)) /\
  (is_ok (ParseDuration (ds ++ [sc])) = false /\
   is_ok (ParseDuration ("+"%char :: ds ++ [sc])) = false /\
   is_ok (ParseDuration ("-"%char :: ds ++ [sc])) = false) /\
  (forall env c world,
      WriterConfig.AutoSync (Writer c) = ds ++ [sc] ->
      is_ok (fst (newWriter env c world)) = false) /\
  (forall s,
      HasSuffix s (str "d") = false -> HasSuffix s (str "D") = false ->
      parseTimeDuration s = ParseDuration s).
Proof.
  intros Hne Hd Hsc.
  split; [|split; [|split]].
  - intros Hb.
    pose proof (parseTimeDuration_days ds sc Hne Hd Hsc Hb) as Hp.
    split; [exact Hp|].
    intros env c world Hrot Hage Hsize Hnew.
    rewrite (proj1 (newFile_is_ok env c world)).
    unfold newFile_fails. rewrite Hrot, Hage, Hnew, (proj1 Hp).
    cbn [is_ok negb andb orb]. rewrite andb_false_r. cbn [orb].
    destruct Hsize as [Hs|Hs]; rewrite Hs; cbn [negb andb];
      [reflexivity|rewrite andb_false_r; reflexivity].
  - apply ParseDuration_day; assumption.
  - intros env c world Hauto.
    rewrite (proj1 (newWriter_is_ok env c world)).
    unfold newWriter_fails. rewrite Hauto.
    rewrite (proj1 (ParseDuration_day ds sc Hd Hsc)).
    assert (He : is_empty (ds ++ [sc]) = false) by (destruct ds; reflexivity).
    rewrite He. cbn [negb andb]. rewrite orb_true_r. reflexivity.
  - intros s H1 H2. unfold parseTimeDuration. rewrite H1, H2. reflexivity.
Qed.

Lemma day_suffix_of_MaxAge_witness :
  parseTimeDuration (str "90D") = Ok (90 * (24 * Hour)) /\
  is_ok (ParseDuration (str "90D")) = false /\
  parseTimeDuration (str "24h") = ParseDuration (str "24h").
Proof.
  assert (Hne : str "90" <> []) by discriminate.
  pose proof (day_suffix_of_MaxAge (str "90") "D" Hne eq_refl (or_intror eq_refl))
    as [Hage [Hauto [_ Hsub]]].
  split; [|split].
  - refine (proj1 (proj1 (Hage _))). vm_compute. discriminate.
  - exact (proj1 Hauto).
  - exact (Hsub (str "24h") eq_refl eq_refl).
Defined.

(** C7 as stated fails in both directions: with a valid target and mode
    and strings that all parse, [newWriter] returns an error when the
    directory of the file cannot be made; and with a buffer size that does
    not parse, in direct mode, where it is not read, [newWriter] returns a
    writer. *)
Lemma newWriter_error_beyond_config :
  (config_invalid readonly_env to_file = false /\
   newWriter readonly_env to_file [] = (Err (ErrOther 13), [])) /\
  (config_invalid ok_env direct_odd_size = true /\
   newWriter ok_env direct_odd_size [] = (Ok Stdout, [])).
Proof. vm_compute. repeat split. Qed.

(** C7, amended: [newWriter] returns an error and no writer exactly when
    the target is none of stdout, stderr and file, or the target is file
    and the file cannot be set up (a [MaxSize] or [MaxAge] of a rotating
    file does not parse, or the file system refuses), or the mode is none
    of direct, buffer and batch, or the mode is buffer and [BufferSize]
    does not parse, or [AutoSync] is set and [time.ParseDuration] rejects
    it; otherwise it returns a writer and no error.  Either way the
    effects that were there stay as they were: a failing call starts no
    task, a succeeding one starts the task of its own writer when
    [AutoSync] is set, and nothing else. *)
Theorem newWriter_error_exactly (env : Env) (c : Config) (world : World) :
  is_ok (fst (newWriter env c world)) = negb (newWriter_fails env c) /\
  exists added,
    snd (newWriter env c world) = world ++ added /\
    (is_ok (fst (newWriter env c world)) = false -> spawned added = []) /\
    (forall w, fst (newWriter env c world) = Ok w ->
       spawned added =
         if is_empty (WriterConfig.AutoSync (Writer c)) then []
         else match ParseDuration (WriterConfig.AutoSync (Writer c)) with
              | Ok frequency => [Spawned w frequency]
              | Err _ => []
              end).
Proof. apply newWriter_is_ok. Qed.

Lemma newWriter_error_exactly_witness :
  is_ok (fst (newWriter ok_env NewDefaultConfig [Opened (str "old.log") 420]))
  = true /\
  is_ok (fst (newWriter readonly_env to_file [Opened (str "old.log") 420]))
  = false.
Proof.
  split.
  - exact (proj1 (newWriter_error_exactly ok_env NewDefaultConfig
                    [Opened (str "old.log") 420])).
  - exact (proj1 (newWriter_error_exactly readonly_env to_file
                    [Opened (str "old.log") 420])).
Defined.

End ConfigFacts.

(** ** Facts about the writer package *)

Module WriterFacts.
Import Go Iface WriterPkg.

Lemma calls_made_app {A : Type} (m : M A) (h added : history) :
  snd (m h) = h ++ added -> calls_made m h = added.
Proof.
  intros H. unfold calls_made. rewrite H.
  rewrite skipn_app, skipn_all, Nat.sub_diag. reflexivity.
Qed.

Lemma calls_made_ret {A : Type} (a : A) (h : history) :
  calls_made (ret a) h = [].
Proof.
  apply calls_made_app. simpl. now rewrite app_nil_r.
Qed.

Lemma calls_made_invoke {A : Type} (c : call) (answer : history -> A)
    (h : history) :
  calls_made (invoke c answer) h = [c].
Proof.
  apply calls_made_app. reflexivity.
Qed.

(** A value without [Flush] or without [Close] is an object of another
    type: a [writerWrapper] has both. *)
Lemma not_Flusher_is_Obj (w : iowriter) :
  as_Flusher w = None -> exists o, w = Obj o /\ onFlush o = None.
Proof.
  destruct w as [o|inner]; simpl.
  - destruct (onFlush o) eqn:E; [discriminate|]. intros _. now exists o.
  - discriminate.
Qed.

Lemma Wrapped_is_Writer (w : iowriter) : is_Writer (Wrapped w) = true.
Proof.
  unfold Wrapped. destruct (is_Writer w) eqn:E; [exact E|reflexivity].
Qed.

(** C10: [Wrapped] and [Buffered] return a value that already has
    [Flush], [Write] and [Close] as it is, whatever [newBufferedWriter]
    does; and on a wrapper around a writer with neither [Flush] nor
    [Close], [Flush] answers [(0, nil)] and [Close] answers [nil], and
    neither makes a call on the wrapped writer. *)
Theorem Wrapped_Buffered_identity
    (newBufferedWriter : iowriter -> Z -> iowriter) (w : iowriter) :
  (is_Writer w = true ->
   Wrapped w = w /\ Buffered newBufferedWriter w = w) /\
  (as_Flusher w = None -> as_Closer w = None ->
   Wrapped w = WriterWrapper w /\
   forall h : history,
     Flush w h = ((0, None), h) /\ Close w h = (None, h) /\
     calls_made (Flush w) h = [] /\ calls_made (Close w) h = []).
Proof.
  split.
  - intros H. unfold Wrapped, Buffered. rewrite H. split; reflexivity.
  - intros Hf Hc. split.
    + unfold Wrapped, is_Writer. rewrite Hf. reflexivity.
    + intros h. unfold Flush, Close. rewrite Hf, Hc. simpl.
      repeat split; apply calls_made_ret.
Qed.

Lemma Wrapped_Buffered_identity_witness :
  (Wrapped (Obj full_writer) = Obj full_writer /\
   Buffered (fun w _ => WriterWrapper w) (Obj full_writer) = Obj full_writer) /\
  Flush (Obj plain_writer) [CallWrite 2 (str "a")]
  = ((0, None), [CallWrite 2 (str "a")]).
Proof.
  split.
  - apply (Wrapped_Buffered_identity (fun w _ => WriterWrapper w) (Obj full_writer)).
    reflexivity.
  - apply (Wrapped_Buffered_identity (fun w _ => WriterWrapper w) (Obj plain_writer));
      reflexivity.
Defined.

End WriterFacts.

(** ** Facts about [Close] on a logger and on a wrapper *)

Module CloseFacts.
Import Go Iface.

Lemma count_calls_app (p : call -> bool) (h1 h2 : history) :
  count_calls p (h1 ++ h2) = (count_calls p h1 + count_calls p h2)%nat.
Proof.
  induction h1 as [|c h1 IH]; simpl; [reflexivity|]. rewrite IH. lia.
Qed.

(** [Logger.Sync] makes at most the one call of the handler's [Sync]. *)
Lemma Sync_calls (l : LoggerPkg.Logger) (h : history) :
  snd (LoggerPkg.Sync l h) =
    h ++ (if is_some (LoggerPkg.onSync (LoggerPkg.handler l))
          then [CallSync (LoggerPkg.hid (LoggerPkg.handler l))] else []).
Proof.
  unfold LoggerPkg.Sync.
  destruct (LoggerPkg.onSync (LoggerPkg.handler l)); simpl.
  - reflexivity.
  - now rewrite app_nil_r.
Qed.

(** C6 as stated fails: on a logger whose handler is the [jsonHandler] of
    [json.go], or a handler with [Sync] alone, the sync succeeds and
    [Close] calls no [Close] at all; and [Close] on the wrapper that
    [Wrapped] puts around a writer with [Flush] and no [Close] makes no
    call, so nothing is flushed. *)
Lemma Close_without_close_or_flush :
  (fst (LoggerPkg.Sync (LoggerPkg.logger_on (LoggerPkg.jsonHandler 5)) []) = None /\
   count_calls (is_close_of 5)
     (calls_made (LoggerPkg.Close (LoggerPkg.logger_on (LoggerPkg.jsonHandler 5))) []) <> 1%nat) /\
  (fst (LoggerPkg.Sync (LoggerPkg.logger_on LoggerPkg.syncer_only) []) = None /\
   calls_made (LoggerPkg.Close (LoggerPkg.logger_on LoggerPkg.syncer_only)) [] = [CallSync 7]) /\
  (WriterPkg.Wrapped (WriterPkg.Obj WriterPkg.flusher_only)
     = WriterPkg.WriterWrapper (WriterPkg.Obj WriterPkg.flusher_only) /\
   calls_made (WriterPkg.Close (WriterPkg.Obj WriterPkg.flusher_only))
     [CallWrite 3 (str "log")] = []).
Proof.
  repeat split; try reflexivity. vm_compute. discriminate.
Qed.

(** C6, amended: [Logger.Close] calls [Sync] first and returns its error
    without closing when there is one; when the sync succeeds and the
    handler has a [Close] method, that method is called exactly once,
    after the sync, and its answer returned; when it has none, nothing is
    closed and the answer is nil.  [writerWrapper.Close] does not flush:
    it calls the [Close] of a wrapped object exactly once when the object
    has one, and answers nil without a call when it has none. *)
Theorem Close_sync_then_close (l : LoggerPkg.Logger) (o : object) (h : history) :
  let hd := LoggerPkg.handler l in
  let h1 := snd (LoggerPkg.Sync l h) in
  (forall err, fst (LoggerPkg.Sync l h) = Some err ->
     LoggerPkg.Close l h = (Some err, h1) /\
     count_calls (is_close_of (LoggerPkg.hid hd))
       (calls_made (LoggerPkg.Close l) h) = 0%nat) /\
  (forall answer,
     fst (LoggerPkg.Sync l h) = None ->
     LoggerPkg.onHandlerClose hd = Some answer ->
     LoggerPkg.Close l h = (answer h1, h1 ++ [CallClose (LoggerPkg.hid hd)]) /\
     count_calls (is_close_of (LoggerPkg.hid hd))
       (calls_made (LoggerPkg.Close l) h) = 1%nat) /\
  (fst (LoggerPkg.Sync l h) = None ->
   LoggerPkg.onHandlerClose hd = None ->
   LoggerPkg.Close l h = (None, h1)) /\
  (forall answer,
     onClose o = Some answer ->
     WriterPkg.Close (WriterPkg.Obj o) h = (answer h, h ++ [CallClose (oid o)]) /\
     calls_made (WriterPkg.Close (WriterPkg.Obj o)) h = [CallClose (oid o)]) /\
  (onClose o = None ->
   WriterPkg.Close (WriterPkg.Obj o) h = (None, h)).
Proof.
  intros hd h1. subst hd h1.
  pose proof (Sync_calls l h) as Hs.
  assert (Hskip : forall extra,
             skipn (List.length h) (snd (LoggerPkg.Sync l h) ++ extra) =
             (if is_some (LoggerPkg.onSync (LoggerPkg.handler l))
              then [CallSync (LoggerPkg.hid (LoggerPkg.handler l))] else [])
             ++ extra).
  { intros extra. rewrite Hs, <- app_assoc, skipn_app, skipn_all, Nat.sub_diag.
    reflexivity. }
  unfold calls_made, LoggerPkg.Close, bind.
  destruct (LoggerPkg.Sync l h) as [serr hs] eqn:Es. simpl in *.
  split; [|split; [|split; [|split]]].
  - intros err Herr. subst serr. simpl. split; [reflexivity|].
    specialize (Hskip []). rewrite app_nil_r in Hskip. rewrite Hskip.
    rewrite app_nil_r. destruct (is_some _); reflexivity.
  - intros answer Herr Hclose. subst serr. rewrite Hclose. simpl.
    split; [reflexivity|].
    rewrite Hskip, count_calls_app. simpl. rewrite Nat.eqb_refl.
    destruct (is_some _); reflexivity.
  - intros Herr Hclose. subst serr. rewrite Hclose. reflexivity.
  - intros answer Hclose. unfold WriterPkg.Close. simpl. rewrite Hclose. simpl.
    split; [reflexivity|].
    rewrite skipn_app, skipn_all, Nat.sub_diag. reflexivity.
  - intros Hclose. unfold WriterPkg.Close. simpl. rewrite Hclose. reflexivity.
Qed.

Lemma Close_sync_then_close_witness :
  LoggerPkg.Close
    (LoggerPkg.logger_on {| LoggerPkg.hid := 9;
                  LoggerPkg.onSync := Some (fun _ => None);
                  LoggerPkg.onHandlerClose := Some (fun _ => None) |}) []
  = (None, [CallSync 9; CallClose 9]) /\
  WriterPkg.Close (WriterPkg.Obj WriterPkg.closer_and_flusher) []
  = (None, [CallClose 4]).
Proof.
  pose proof (Close_sync_then_close
                (LoggerPkg.logger_on {| LoggerPkg.hid := 9;
                              LoggerPkg.onSync := Some (fun _ => None);
                              LoggerPkg.onHandlerClose := Some (fun _ => None) |})
                WriterPkg.closer_and_flusher []) as [_ [Hl [_ [Hw _]]]].
  split.
  - exact (proj1 (Hl (fun _ => None) eq_refl eq_refl)).
  - exact (proj1 (Hw (fun _ => None) eq_refl)).
Defined.

End CloseFacts.

(** ** Facts about the auto-sync task *)

Module AutoSyncFacts.
Import Go AutoSync.

Lemma loop_gen_mon (d : Z) (op : string) : monotone2 (loop_gen d op).
Proof.
  intros p t r r' H LE. unfold loop_gen in *.
  destruct H; constructor; auto.
Qed.

#[local] Hint Resolve loop_gen_mon : paco.

(** The loop goes through its four phases and is back at its head. *)
Lemma sync_loop_ticks_forever (d : Z) (op : string) :
  ticks_forever d op (sync_loop d op).
Proof.
  unfold ticks_forever. pcofix CIH.
  pfold. unfold loop_gen. cbn.
  constructor. left. pfold. unfold loop_gen. cbn.
  constructor.
  - intros err. left. pfold. unfold loop_gen. cbn. constructor.
    left. pfold. unfold loop_gen. cbn. constructor. right. apply CIH.
  - left. pfold. unfold loop_gen. cbn. constructor. right. apply CIH.
Qed.

(** One tick of the loop, run: the sleep, the sync and, on an error, the
    call of the handler; then the loop again. *)
Lemma run_one_tick (d : Z) (op : string) (answers : nat -> option error)
    (k fuel : nat) :
  run (tick_steps (answers k) + fuel) answers k (sync_loop d op) =
  tick_obs d op (answers k) ++ run fuel answers (S k) (sync_loop d op).
Proof.
  unfold tick_steps, tick_obs.
  destruct (answers k) as [err|] eqn:E; cbn; rewrite E; cbn; reflexivity.
Qed.

Lemma run_ticks (d : Z) (op : string) (answers : nat -> option error) (n : nat) :
  forall k,
    run (ticks_steps answers k n) answers k (sync_loop d op) =
    ticks_obs d op answers k n.
Proof.
  induction n as [|n IH]; intros k; simpl.
  - reflexivity.
  - rewrite run_one_tick, IH. reflexivity.
Qed.

(** Every error of a sync within the first [n] ticks reaches the handler. *)
Lemma ticks_obs_handles (d : Z) (op : string) (answers : nat -> option error)
    (n : nat) :
  forall k i err,
    (k <= i < k + n)%nat -> answers i = Some err ->
    In (ObsHandle op err) (ticks_obs d op answers k n).
Proof.
  induction n as [|n IH]; intros k i err Hi Herr.
  - lia.
  - change (ticks_obs d op answers k (S n))
      with (tick_obs d op (answers k) ++ ticks_obs d op answers (S k) n).
    apply in_or_app.
    destruct (Nat.eq_dec i k) as [->|Hne].
    + left. unfold tick_obs. rewrite Herr. simpl. auto.
    + right. apply (IH (S k) i err); [lia|exact Herr].
Qed.

(** A writer that [newWriter] returns with [AutoSync] set has its task
    started, at the frequency [time.ParseDuration] reads from [AutoSync]. *)
Lemma newWriter_spawns (env : Config.Env) (c : Config.Config)
    (world : Config.World) (w : Config.writer) :
  fst (Config.newWriter env c world) = Ok w ->
  Config.is_empty (WriterConfig.AutoSync (Config.Writer c)) = false ->
  exists frequency,
    ParseDuration (WriterConfig.AutoSync (Config.Writer c)) = Ok frequency /\
    In (Config.Spawned w frequency) (snd (Config.newWriter env c world)) /\
    ticks_forever frequency "writer.sync" (newWriter_task frequency).
Proof.
  intros Hok Hset.
  destruct (ConfigFacts.newWriter_is_ok env c world) as [Hfail [added [Hw [_ Hs]]]].
  specialize (Hs w Hok). rewrite Hset in Hs.
  rewrite Hok in Hfail. cbn [is_ok] in Hfail.
  assert (Hp : is_ok (ParseDuration (WriterConfig.AutoSync (Config.Writer c))) = true).
  { unfold Config.newWriter_fails in Hfail. rewrite Hset in Hfail.
    cbn [negb andb] in Hfail.
    destruct (is_ok (ParseDuration (WriterConfig.AutoSync (Config.Writer c))));
      [reflexivity|].
    cbn [negb] in Hfail. rewrite orb_true_r in Hfail. discriminate Hfail. }
  destruct (ParseDuration (WriterConfig.AutoSync (Config.Writer c)))
    as [frequency|err]; [|discriminate Hp].
  exists frequency. split; [reflexivity|]. split.
  - rewrite Hw. apply in_or_app. right.
    assert (Hin : In (Config.Spawned w frequency) (Config.spawned added))
      by (rewrite Hs; left; reflexivity).
    unfold Config.spawned in Hin. apply filter_In in Hin. tauto.
  - apply sync_loop_ticks_forever.
Qed.



End AutoSyncFacts.

(** ** Facts about the filename generator *)

Module FilesFacts.
Import Go Files.

Lemma Format_sample : Format sample_time = str "20200304-145246".
Proof. vm_compute. reflexivity. Qed.

(** The name depends on the random draw alone, once the directory and
    the time are fixed. *)
Lemma DefaultNameGenerator_same_draw
    (Join : gostring -> gostring -> gostring)
    (directory : gostring) (now : Time) (x y : Z) (rest1 rest2 : Source) :
  x mod 1000000 = y mod 1000000 ->
  fst (DefaultNameGenerator Join directory now (x :: rest1)) =
  fst (DefaultNameGenerator Join directory now (y :: rest2)).
Proof.
  intros H. unfold DefaultNameGenerator, Intn. rewrite H. reflexivity.
Qed.

(** C3 fails on the code: two calls in a row for the same directory and
    the same second, the random source yielding 45 both times, give the
    same path, whatever [filepath.Join] is. *)
Theorem DefaultNameGenerator_collides
    (Join : gostring -> gostring -> gostring) :
  two_names Join (str "logs") sample_time sample_time [45; 45] =
    (Join (str "logs") (str "20200304-145246-45.log"),
     Join (str "logs") (str "20200304-145246-45.log")).
Proof.
  unfold two_names, DefaultNameGenerator, Intn.
  change (45 mod 1000000) with 45.
  rewrite Format_sample. reflexivity.
Qed.

End FilesFacts.

(** ** Facts about the rotating sink *)

Module RotateFacts.
Import Go Rotate.

Section WithGenerator.

Variable generator : gostring -> Z -> gostring.
Variable can_create : gostring -> bool.

Lemma must_rotate_iff (s : Sink) (bytes : gostring) :
  must_rotate s bytes = true <->
  0 < currentSize s /\ currentSize s + Z.of_nat (len bytes) > maxSize s.
Proof.
  unfold must_rotate. rewrite andb_true_iff, Z.ltb_lt, Z.ltb_lt. lia.
Qed.

(** Pruning only deletes. *)
Lemma prune_incl (now age : Z) (n : nat) (bs : list Backup) (b : Backup) :
  In b (prune now age n bs) -> In b bs.
Proof.
  unfold prune. intros H.
  assert (Hf : In b (filter (fun b0 => now - backup_created b0 <=? age) bs)).
  { rewrite <- (firstn_skipn n). apply in_or_app. now left. }
  apply filter_In in Hf. tauto.
Qed.

(** C2: on a sink with rotation enabled, a write that succeeds was
    preceded by a rotation exactly when [currentSize > 0] and
    [currentSize + len(bytes) > maxSize]; a write that fails changes
    nothing; and the bytes of a successful write are all in the open file,
    after what that file held, while every backup is a file the sink had
    before with its content as it was.  On a new sink a write longer than
    [maxSize] does not rotate and leaves one file holding exactly the
    bytes written. *)
Theorem write_rotates_before (now : Z) (s : Sink) (bytes : gostring) :
  rotateEnabled s = true ->
  let s' := fst (write generator can_create now s bytes) in
  let n := fst (snd (write generator can_create now s bytes)) in
  let err := snd (snd (write generator can_create now s bytes)) in
  (err = None ->
   n = Z.of_nat (len bytes) /\
   (rotations s' = S (rotations s) <->
    0 < currentSize s /\ currentSize s + Z.of_nat (len bytes) > maxSize s) /\
   (rotations s' = rotations s \/ rotations s' = S (rotations s)) /\
   (rotations s' = S (rotations s) ->
    data s' = bytes /\ currentSize s' = Z.of_nat (len bytes) /\
    path s' = generator (directory s) now) /\
   (rotations s' = rotations s ->
    data s' = data s ++ bytes /\ path s' = path s /\
    currentSize s' = currentSize s + Z.of_nat (len bytes) /\
    backups s' = backups s) /\
   (forall b, In b (backups s') ->
      In b (backups s) \/
      b = {| backup_path := path s;
             backup_created := created s;
             backup_data := data s |})) /\
  (err <> None -> s' = s /\ n = 0) /\
  (currentSize s = 0 -> data s = [] -> backups s = [] ->
   maxSize s < Z.of_nat (len bytes) ->
   err = None /\ n = Z.of_nat (len bytes) /\
   rotations s' = rotations s /\
   files s' = [(path s, bytes)]).
Proof.
  intros Hen s' n err. subst s' n err.
  unfold write. rewrite Hen. simpl negb. cbv iota.
  pose proof (must_rotate_iff s bytes) as Hiff.
  destruct (must_rotate s bytes) eqn:Hm.
  - assert (Hr : 0 < currentSize s /\
                 currentSize s + Z.of_nat (len bytes) > maxSize s)
      by (apply Hiff; reflexivity).
    unfold rotate.
    destruct (can_create (generator (directory s) now)) eqn:Hc; simpl.
    + split; [|split].
      * intros _. split; [reflexivity|].
        split; [split; [intros _; exact Hr|reflexivity]|].
        split; [right; reflexivity|].
        split; [intros _; repeat split|].
        split; [intros H; lia|].
        intros b Hb. apply prune_incl in Hb. simpl in Hb.
        destruct Hb as [Hb|Hb]; [right; now symmetry|left; exact Hb].
      * intros H. congruence.
      * intros H0. lia.
    + split; [|split].
      * intros H. discriminate H.
      * intros _. split; reflexivity.
      * intros H0. lia.
  - assert (Hnr : ~ (0 < currentSize s /\
                     currentSize s + Z.of_nat (len bytes) > maxSize s))
      by (intros H; apply Hiff in H; discriminate H).
    simpl. split; [|split].
    + intros _. split; [reflexivity|].
      split; [split; [intros H; lia|intros H; contradiction]|].
      split; [left; reflexivity|].
      split; [intros H; lia|].
      split; [intros _; repeat split|].
      intros b Hb. left. exact Hb.
    + intros H. congruence.
    + intros H0 Hd Hb _. repeat split. unfold files. simpl.
      rewrite Hd, Hb. reflexivity.
Qed.

End WithGenerator.

(** The oversize write of the specification: 150 bytes into a new sink of
    [maxSize = 100] give one file of 150 bytes. *)
Lemma write_rotates_before_witness :
  fst (snd (write by_time (fun _ => true) 5 sink100 (repeat "x"%char 150))) = 150 /\
  files (fst (write by_time (fun _ => true) 5 sink100 (repeat "x"%char 150)))
  = [(str "logs/app.log", repeat "x"%char 150)].
Proof.
  pose proof (write_rotates_before by_time (fun _ => true) 5 sink100
                (repeat "x"%char 150) eq_refl) as [_ [_ H]].
  destruct (H eq_refl eq_refl eq_refl eq_refl) as [_ [Hn [_ Hf]]].
  split; [exact Hn|exact Hf].
Defined.

(** The rotation of the specification: 60 bytes and then 60 bytes into a
    sink of [maxSize = 100] rotate before the second write; there are two
    files and the first holds its 60 bytes. *)
Example two_writes_of_60 :
  let s1 := fst (write by_time (fun _ => true) 5 sink100 (repeat "a"%char 60)) in
  let s2 := fst (write by_time (fun _ => true) 7 s1 (repeat "b"%char 60)) in
  rotations s1 = 0%nat /\ rotations s2 = 1%nat /\
  files s2 = [(str "logs/7.log", repeat "b"%char 60);
              (str "logs/app.log", repeat "a"%char 60)].
Proof. vm_compute. repeat split. Qed.

End RotateFacts.

(** ** Facts about the logger's arguments *)

Module AttrsFacts.
Import Go Attrs.

Section WithSlog.

Variable Value : Type.
Variable Other : Type.
Variable StringValue : gostring -> Value.
Variable AnyValue : any Value Other -> Value.

#[local] Abbreviation any := (any Value Other).
#[local] Abbreviation Attr := (Attr Value).
#[local] Abbreviation newAttrs := (newAttrs Value Other StringValue AnyValue).
#[local] Abbreviation newAttrs_loop := (newAttrs_loop Value Other StringValue AnyValue).
#[local] Abbreviation squeezeAttr := (squeezeAttr Value Other StringValue AnyValue).
#[local] Abbreviation attrs_of := (attrs_of Value Other StringValue AnyValue).
#[local] Abbreviation slog_Any := (slog_Any Value Other AnyValue).
#[local] Abbreviation slog_String := (slog_String Value StringValue).

(** [squeezeAttr] takes one or two arguments off a non-empty list. *)
Lemma squeezeAttr_spec (a : any) (args : list any) :
  exists attr rest,
    squeezeAttr (a :: args) = Some (attr, rest) /\
    attrs_of (a :: args) = attr :: attrs_of rest /\
    (List.length rest < List.length (a :: args))%nat.
Proof.
  destruct a as [x|s|o].
  - exists x, args. repeat split. simpl. lia.
  - destruct args as [|v rest].
    + eexists _, []. repeat split. simpl. lia.
    + eexists _, rest. repeat split. simpl. lia.
  - eexists _, args. repeat split. simpl. lia.
Qed.

Lemma newAttrs_loop_spec (fuel : nat) :
  forall args acc,
    (List.length args <= fuel)%nat ->
    newAttrs_loop fuel args acc = Some (acc ++ attrs_of args).
Proof.
  induction fuel as [|fuel IH]; intros args acc Hlen.
  - destruct args; [|simpl in Hlen; lia]. simpl. now rewrite app_nil_r.
  - destruct args as [|a args]; [simpl; now rewrite app_nil_r|].
    destruct (squeezeAttr_spec a args) as [attr [rest [Hs [Ha Hl]]]].
    cbn [newAttrs_loop]. rewrite Hs, Ha.
    rewrite IH by (simpl in *; lia).
    rewrite <- app_assoc. reflexivity.
Qed.

Lemma newAttrs_attrs_of (args : list any) : newAttrs args = attrs_of args.
Proof.
  unfold Attrs.newAttrs. rewrite newAttrs_loop_spec by lia. reflexivity.
Qed.

(** X1: arguments written as keys and values in turn come back as one
    attribute per pair, [slog.Any(key, value)], in order and whatever the
    values are; a string left over at the end, with no value after it,
    becomes the attribute [!BADKEY] with that string as its value. *)
Theorem newAttrs_key_values (kvs : list (gostring * any)) (s : gostring) :
  newAttrs (key_values Value Other kvs) =
    map (fun kv => slog_Any (fst kv) (snd kv)) kvs /\
  newAttrs (key_values Value Other kvs ++ [AnyString Value Other s]) =
    map (fun kv => slog_Any (fst kv) (snd kv)) kvs ++ [slog_String keyBad s].
Proof.
  rewrite !newAttrs_attrs_of.
  induction kvs as [|[k v] kvs [IH1 IH2]]; simpl.
  - split; reflexivity.
  - rewrite IH1. split; [reflexivity|].
    simpl in IH2. rewrite IH2. reflexivity.
Qed.

Lemma attrs_of_length (n : nat) :
  forall args : list any,
    (List.length args <= n)%nat ->
    (List.length args <= 2 * List.length (attrs_of args))%nat /\
    (List.length (attrs_of args) <= List.length args)%nat.
Proof.
  induction n as [|n IH]; intros args Hn.
  - destruct args; [simpl; lia|simpl in Hn; lia].
  - destruct args as [|a args]; [simpl; lia|].
    destruct (squeezeAttr_spec a args) as [attr [rest [Hs [Ha Hl]]]].
    rewrite Ha.
    assert (Hrest : (List.length (a :: args) <= 2 + List.length rest)%nat).
    { destruct a as [x|k|o]; simpl in Hs.
      - inversion Hs; subst. simpl. lia.
      - destruct args as [|v args']; inversion Hs; subst; simpl; lia.
      - inversion Hs; subst. simpl. lia. }
    destruct (IH rest) as [H1 H2]; [simpl in *; lia|].
    simpl in *. lia.
Qed.

Lemma newAttrs_empty (args : list any) : newAttrs args = [] -> args = [].
Proof.
  rewrite newAttrs_attrs_of. intros H.
  destruct (attrs_of_length (List.length args) args (le_n _)) as [H1 _].
  rewrite H in H1. simpl in H1.
  destruct args; [reflexivity|simpl in H1; lia].
Qed.

(** X2: [newAttrs] always comes to an end; it yields at least half as
    many attributes as there are arguments and at most as many, and no
    attribute exactly when there is no argument. *)
Theorem newAttrs_length (args : list any) :
  newAttrs_loop (List.length args) args [] = Some (newAttrs args) /\
  (List.length args <= 2 * List.length (newAttrs args))%nat /\
  (List.length (newAttrs args) <= List.length args)%nat /\
  (newAttrs args = [] <-> args = []).
Proof.
  split.
  - rewrite newAttrs_attrs_of, newAttrs_loop_spec by lia. reflexivity.
  - rewrite newAttrs_attrs_of.
    destruct (attrs_of_length (List.length args) args (le_n _)) as [H1 H2].
    split; [exact H1|]. split; [exact H2|]. split.
    + intros H. rewrite H in H1. simpl in H1.
      destruct args; [reflexivity|simpl in H1; lia].
    + intros ->. reflexivity.
Qed.

(** X3: an [slog.Attr] where a key is expected goes into the result as it
    is, so attributes in front of other arguments are kept in order; a
    value that is neither an attribute nor a string, where a key is
    expected, is kept under [!BADKEY]; and after a string key the next
    argument is its value even when it is an [slog.Attr]. *)
Theorem newAttrs_at_key_position (attrs : list Attr) (rest : list any)
    (o : Other) (k : gostring) (a : Attr) :
  newAttrs (map (AnyAttr Value Other) attrs ++ rest) = attrs ++ newAttrs rest /\
  newAttrs (map (AnyAttr Value Other) attrs) = attrs /\
  newAttrs (AnyOther Value Other o :: rest) =
    slog_Any keyBad (AnyOther Value Other o) :: newAttrs rest /\
  newAttrs (AnyString Value Other k :: AnyAttr Value Other a :: rest) =
    slog_Any k (AnyAttr Value Other a) :: newAttrs rest.
Proof.
  rewrite !newAttrs_attrs_of.
  assert (H : forall r, attrs_of (map (AnyAttr Value Other) attrs ++ r)
                        = attrs ++ attrs_of r).
  { intros r. induction attrs as [|x xs IH]; simpl; [reflexivity|].
    now rewrite IH. }
  split; [apply H|].
  split; [|split; reflexivity].
  specialize (H []). rewrite !app_nil_r in H. exact H.
Qed.

Lemma attrs_of_keys (n : nat) :
  forall (args : list any) (attr : Attr),
    (List.length args <= n)%nat ->
    In attr (attrs_of args) ->
    Key Value attr = keyBad \/
    In (AnyString Value Other (Key Value attr)) args \/
    In (AnyAttr Value Other attr) args.
Proof.
  induction n as [|n IH]; intros args attr Hn Hin.
  - destruct args; [contradiction|simpl in Hn; lia].
  - destruct args as [|a args]; [contradiction|].
    destruct a as [x|k|o].
    + simpl in Hin. destruct Hin as [->|Hin].
      * right; right; left; reflexivity.
      * destruct (IH args attr) as [H|[H|H]]; [simpl in Hn; lia|exact Hin|..];
          [left; exact H|right; left; right; exact H|right; right; right; exact H].
    + destruct args as [|v args'].
      * simpl in Hin. destruct Hin as [<-|[]]. left; reflexivity.
      * simpl in Hin. destruct Hin as [<-|Hin].
        -- right; left; left; reflexivity.
        -- destruct (IH args' attr) as [H|[H|H]]; [simpl in Hn; lia|exact Hin|..];
             [left; exact H|right; left; right; right; exact H
             |right; right; right; right; exact H].
    + simpl in Hin. destruct Hin as [<-|Hin].
      * left; reflexivity.
      * destruct (IH args attr) as [H|[H|H]]; [simpl in Hn; lia|exact Hin|..];
          [left; exact H|right; left; right; exact H|right; right; right; exact H].
Qed.

(** X4: [newAttrs] invents no key: the key of every attribute it yields
    is [!BADKEY], or a string among the arguments, or the attribute is
    itself among the arguments. *)
Theorem newAttrs_keys (args : list any) (attr : Attr) :
  In attr (newAttrs args) ->
  Key Value attr = keyBad \/
  In (AnyString Value Other (Key Value attr)) args \/
  In (AnyAttr Value Other attr) args.
Proof.
  rewrite newAttrs_attrs_of.
  apply (attrs_of_keys (List.length args)). lia.
Qed.

Section WithHandler.

Variable WithAttrs : LoggerPkg.Handler -> list Attr -> LoggerPkg.Handler.
Variable WithGroupOf : LoggerPkg.Handler -> gostring -> LoggerPkg.Handler.

#[local] Abbreviation With := (With Value Other StringValue AnyValue WithAttrs).

(** X5: [With] without arguments and [WithGroup] with the empty name
    return the logger as it is; otherwise they return a logger that
    differs in its handler alone, which for [With] is the old handler's
    [WithAttrs] on the attributes of all the arguments (the second guard
    of [With] never applies), so [withSource], [withPID] and
    [syncDuration] are those of the receiver. *)
Theorem With_changes_handler_only (l : LoggerPkg.Logger) (args : list any)
    (name : gostring) :
  With l [] = l /\
  WithGroup WithGroupOf l [] = l /\
  (args <> [] ->
   LoggerPkg.handler (With l args) = WithAttrs (LoggerPkg.handler l) (newAttrs args)) /\
  (name <> [] ->
   LoggerPkg.handler (WithGroup WithGroupOf l name) =
     WithGroupOf (LoggerPkg.handler l) name) /\
  LoggerPkg.withSource (With l args) = LoggerPkg.withSource l /\
  LoggerPkg.withPID (With l args) = LoggerPkg.withPID l /\
  LoggerPkg.syncDuration (With l args) = LoggerPkg.syncDuration l /\
  LoggerPkg.withSource (WithGroup WithGroupOf l name) = LoggerPkg.withSource l /\
  LoggerPkg.withPID (WithGroup WithGroupOf l name) = LoggerPkg.withPID l /\
  LoggerPkg.syncDuration (WithGroup WithGroupOf l name) = LoggerPkg.syncDuration l.
Proof.
  assert (Hw : args <> [] ->
               With l args =
               set_handler (clone l) (WithAttrs (LoggerPkg.handler l) (newAttrs args))).
  { intros Hne. unfold Attrs.With.
    destruct args as [|a args]; [congruence|]. cbn [List.length Nat.leb].
    destruct (newAttrs (a :: args)) as [|x xs] eqn:E.
    - apply newAttrs_empty in E. discriminate E.
    - reflexivity. }
  split; [reflexivity|]. split; [reflexivity|].
  split; [intros Hne; rewrite (Hw Hne); reflexivity|].
  split; [intros Hne; destruct name; [congruence|reflexivity]|].
  destruct args as [|a args].
  - repeat split; destruct name; reflexivity.
  - rewrite Hw by discriminate. repeat split; destruct name; reflexivity.
Qed.

End WithHandler.

End WithSlog.

(** Two attributes, a key with its value, and a string left over. *)
Lemma newAttrs_keys_witness :
  Key nat (mkAttr nat (str "left") 0%nat) = keyBad \/
  In (AnyString nat nat (Key nat (mkAttr nat (str "left") 0%nat)))
     [AnyString nat nat (str "left"); AnyOther nat nat 7%nat] \/
  In (AnyAttr nat nat (mkAttr nat (str "left") 0%nat))
     [AnyString nat nat (str "left"); AnyOther nat nat 7%nat].
Proof.
  apply (newAttrs_keys nat nat (fun _ => 1%nat) (fun _ => 0%nat)
           [AnyString nat nat (str "left"); AnyOther nat nat 7%nat]
           (mkAttr nat (str "left") 0%nat)).
  simpl. left. reflexivity.
Defined.

Lemma With_changes_handler_only_witness :
  LoggerPkg.handler
    (With nat nat (fun _ => 1%nat) (fun _ => 0%nat)
       (fun h attrs => LoggerPkg.mkHandler (List.length attrs) None None)
       (LoggerPkg.logger_on (LoggerPkg.jsonHandler 5))
       [AnyString nat nat (str "k"); AnyOther nat nat 7%nat;
        AnyString nat nat (str "left")])
  = LoggerPkg.mkHandler 2 None None.
Proof.
  refine (proj1 (proj2 (proj2
            (With_changes_handler_only nat nat (fun _ => 1%nat) (fun _ => 0%nat)
               (fun h attrs => LoggerPkg.mkHandler (List.length attrs) None None)
               (fun h _ => h)
               (LoggerPkg.logger_on (LoggerPkg.jsonHandler 5))
               [AnyString nat nat (str "k"); AnyOther nat nat 7%nat;
                AnyString nat nat (str "left")]
               (str "g")))) _).
  discriminate.
Defined.

End AttrsFacts.

(** ** Facts about loggers in a context *)

Module ContextFacts.
Import ContextPkg.

Section WithKeys.

Variable UserKey : Type.
Variable UserKey_eq_dec : forall a b : UserKey, {a = b} + {a <> b}.
Variable Other : Type.
Variable New : LoggerPkg.Logger.

#[local] Abbreviation key := (key UserKey).
#[local] Abbreviation Context := (Context UserKey Other).
#[local] Abbreviation key_eqb := (key_eqb UserKey UserKey_eq_dec).
#[local] Abbreviation Value := (Value UserKey UserKey_eq_dec Other).
#[local] Abbreviation NewContextWithKey := (NewContextWithKey UserKey Other).
#[local] Abbreviation FromContextWithKey :=
  (FromContextWithKey UserKey UserKey_eq_dec Other New).
#[local] Abbreviation NewContext := (NewContext UserKey Other).
#[local] Abbreviation FromContext := (FromContext UserKey UserKey_eq_dec Other New).

Lemma key_eqb_eq (a b : key) : key_eqb a b = true <-> a = b.
Proof.
  destruct a as [| |x], b as [| |y]; simpl;
    try (split; [discriminate|discriminate]); try tauto.
  destruct (UserKey_eq_dec x y) as [->|Hne].
  - tauto.
  - split; [discriminate|]. intros H. inversion H. contradiction.
Qed.

Lemma key_eqb_refl (a : key) : key_eqb a a = true.
Proof. now apply key_eqb_eq. Qed.

Lemma key_eqb_neq (a b : key) : a <> b -> key_eqb a b = false.
Proof.
  intros H. destruct (key_eqb a b) eqn:E; [|reflexivity].
  apply key_eqb_eq in E. contradiction.
Qed.


(** X7: putting a logger under one key leaves what the context yields for
    every other key as it was; so the logger [FromContext] returns is the
    same after any number of loggers have been put in under keys of the
    caller, which cannot be the package's own key. *)
Theorem FromContext_other_keys (ctx ctx' : Context) (k k' : key)
    (logger : option LoggerPkg.Logger)
    (entries : list (UserKey * option LoggerPkg.Logger)) :
  (NewContextWithKey (Some ctx) k logger = Returns ctx' ->
   k' <> k ->
   Value ctx' k' = Value ctx k' /\
   FromContextWithKey (Some ctx') k' = FromContextWithKey (Some ctx) k') /\
  FromContext (Some (with_user_loggers UserKey Other ctx entries)) =
    FromContext (Some ctx).
Proof.
  split.
  - intros Hnew Hne.
    assert (Hc : ctx' = ValueCtx UserKey Other ctx k (ValLogger Other logger)).
    { unfold ContextPkg.NewContextWithKey, WithValue in Hnew.
      destruct k; [discriminate Hnew|inversion Hnew; reflexivity
                  |inversion Hnew; reflexivity]. }
    subst ctx'.
    assert (Hv : Value (ValueCtx UserKey Other ctx k (ValLogger Other logger)) k'
                 = Value ctx k').
    { cbn [ContextPkg.Value]. rewrite key_eqb_neq by congruence. reflexivity. }
    split; [exact Hv|].
    unfold ContextPkg.FromContextWithKey. rewrite Hv. reflexivity.
  - revert ctx. induction entries as [|[uk l] rest IH]; intros ctx0.
    + reflexivity.
    + cbn [with_user_loggers]. rewrite IH. reflexivity.
Qed.


End WithKeys.


Lemma FromContext_other_keys_witness :
  FromContextWithKey nat Nat.eq_dec nat
    (LoggerPkg.logger_on (LoggerPkg.jsonHandler 0))
    (Some (ValueCtx nat nat
             (ValueCtx nat nat (Background nat nat) (ContextKey nat)
                (ValLogger nat (Some (LoggerPkg.logger_on (LoggerPkg.jsonHandler 1)))))
             (KeyOf nat 3%nat)
             (ValLogger nat (Some (LoggerPkg.logger_on (LoggerPkg.jsonHandler 2))))))
    (ContextKey nat)
  = Returns (Some (LoggerPkg.logger_on (LoggerPkg.jsonHandler 1))).
Proof.
  refine (eq_trans
            (proj2 (proj1 (FromContext_other_keys nat Nat.eq_dec nat
                             (LoggerPkg.logger_on (LoggerPkg.jsonHandler 0))
                             (ValueCtx nat nat (Background nat nat) (ContextKey nat)
                                (ValLogger nat
                                   (Some (LoggerPkg.logger_on (LoggerPkg.jsonHandler 1)))))
                             _ (KeyOf nat 3%nat) (ContextKey nat)
                             (Some (LoggerPkg.logger_on (LoggerPkg.jsonHandler 2)))
                             []) eq_refl _)) _).
  - discriminate.
  - reflexivity.
Defined.


End ContextFacts.

(** ** Facts about the options *)

Module OptionsFacts.
Import Go Options.

Section WithTypes.

Variable Level : Type.
Variables LevelDebug LevelInfo LevelWarn LevelError LevelPrint LevelOff : Level.
Variable GivenWriter : Type.
Variable rotate_Option : Type.
Variable NewHandlerFunc : Type.
Variables handler_NewTextHandler handler_NewJsonHandler : NewHandlerFunc.
Variable ReplaceAttr : Type.

#[local] Abbreviation config :=
  (config Level GivenWriter rotate_Option NewHandlerFunc ReplaceAttr).
#[local] Abbreviation Option :=
  (Option Level GivenWriter rotate_Option NewHandlerFunc ReplaceAttr).
#[local] Abbreviation named := (named GivenWriter rotate_Option NewHandlerFunc).
#[local] Abbreviation option_of :=
  (option_of Level LevelDebug LevelInfo LevelWarn LevelError LevelPrint LevelOff
     GivenWriter rotate_Option NewHandlerFunc
     handler_NewTextHandler handler_NewJsonHandler ReplaceAttr).
#[local] Abbreviation apply_all :=
  (apply_all Level GivenWriter rotate_Option NewHandlerFunc ReplaceAttr).
#[local] Abbreviation field_of := (field_of GivenWriter rotate_Option NewHandlerFunc).
#[local] Abbreviation last_for := (last_for GivenWriter rotate_Option NewHandlerFunc).
#[local] Abbreviation ProductionOptions :=
  (ProductionOptions Level LevelInfo GivenWriter rotate_Option NewHandlerFunc
     ReplaceAttr).

Lemma apply_all_app (xs ys : list Option) (conf : config) :
  apply_all (xs ++ ys) conf = apply_all ys (apply_all xs conf).
Proof. unfold Options.apply_all. apply fold_left_app. Qed.

Lemma apply_all_keeps {A : Type} (proj : config -> A) (opts : list Option) :
  Forall (keeps proj) opts ->
  forall conf, proj (apply_all opts conf) = proj conf.
Proof.
  induction 1 as [|o opts Ho _ IH]; intros conf; simpl.
  - reflexivity.
  - change (proj (apply_all opts (o conf)) = proj conf).
    rewrite IH. apply Ho.
Qed.

(** X9: what an option leaves in a field of the configuration is still
    there after any later options that keep that field, whatever the
    options before it did; this holds for any options, also those of the
    caller.  No option of this file touches [syncDuration] or
    [replaceAttr], and each touches one field only. *)
Theorem option_survives {A : Type} (proj : config -> A)
    (before after : list Option) (o : Option) (conf : config) (n : named) :
  (Forall (keeps proj) after ->
   proj (apply_all (before ++ o :: after) conf) = proj (o (apply_all before conf))) /\
  keeps (syncDuration Level GivenWriter rotate_Option NewHandlerFunc ReplaceAttr)
    (option_of n) /\
  keeps (replaceAttr Level GivenWriter rotate_Option NewHandlerFunc ReplaceAttr)
    (option_of n) /\
  (field_of n <> FLevel ->
   keeps (level Level GivenWriter rotate_Option NewHandlerFunc ReplaceAttr)
     (option_of n)) /\
  (field_of n <> FNewWriter ->
   keeps (newWriter Level GivenWriter rotate_Option NewHandlerFunc ReplaceAttr)
     (option_of n)) /\
  (field_of n <> FWrapWriter ->
   keeps (wrapWriter Level GivenWriter rotate_Option NewHandlerFunc ReplaceAttr)
     (option_of n)) /\
  (field_of n <> FNewHandler ->
   keeps (newHandler Level GivenWriter rotate_Option NewHandlerFunc ReplaceAttr)
     (option_of n)) /\
  (field_of n <> FWithSource ->
   keeps (withSource Level GivenWriter rotate_Option NewHandlerFunc ReplaceAttr)
     (option_of n)) /\
  (field_of n <> FWithPID ->
   keeps (withPID Level GivenWriter rotate_Option NewHandlerFunc ReplaceAttr)
     (option_of n)).
Proof.
  split.
  - intros Hafter. rewrite apply_all_app.
    change (apply_all (o :: after) (apply_all before conf))
      with (apply_all after (o (apply_all before conf))).
    apply apply_all_keeps. exact Hafter.
  - repeat split; try (intros Hf conf0); try intros conf0;
      destruct n; try reflexivity; exfalso; apply Hf; reflexivity.
Qed.

(** X10: two options of this file that set different fields can be
    applied in either order, and of two that set the same field the one
    applied last decides, as if the other had not been applied: a buffer
    and a batch do not combine, nor do two targets. *)
Theorem options_commute_or_override (a b : named) (conf : config) :
  (field_of a <> field_of b ->
   option_of a (option_of b conf) = option_of b (option_of a conf)) /\
  (field_of a = field_of b ->
   option_of b (option_of a conf) = option_of b conf).
Proof.
  split; intros H.
  - destruct a, b; try reflexivity; exfalso; apply H; reflexivity.
  - destruct a, b; try reflexivity; discriminate H.
Qed.

Lemma field_eqb_eq (a b : field) : field_eqb a b = true <-> a = b.
Proof. destruct a, b; simpl; split; intros H; congruence. Qed.

Lemma last_for_field (f : field) (ns : list named) (n : named) :
  last_for f ns = Some n -> field_of n = f /\ In n ns.
Proof.
  induction ns as [|x ns IH]; simpl; [discriminate|].
  destruct (last_for f ns) as [n'|].
  - intros H. inversion H; subst. destruct (IH eq_refl) as [H1 H2]. auto.
  - destruct (field_eqb (field_of x) f) eqn:E; [|discriminate].
    intros H. inversion H; subst. apply field_eqb_eq in E. auto.
Qed.

Lemma last_for_none (f : field) (ns : list named) (n : named) :
  last_for f ns = None -> In n ns -> field_of n <> f.
Proof.
  induction ns as [|x ns IH]; simpl; [contradiction|].
  destruct (last_for f ns) as [n'|]; [discriminate|].
  destruct (field_eqb (field_of x) f) eqn:E; [discriminate|].
  intros _ [->|Hin].
  - intros H. apply field_eqb_eq in H. congruence.
  - apply IH; [reflexivity|exact Hin].
Qed.

Lemma last_for_spec {A : Type} (proj : config -> A) (f : field) :
  (forall n, field_of n <> f -> keeps proj (option_of n)) ->
  (forall n c1 c2, field_of n = f ->
                   proj (option_of n c1) = proj (option_of n c2)) ->
  forall ns conf,
    proj (apply_all (map option_of ns) conf) =
    match last_for f ns with
    | Some n => proj (option_of n conf)
    | None => proj conf
    end.
Proof.
  intros Hkeep Hind. induction ns as [|x ns IH]; intros conf.
  - reflexivity.
  - change (apply_all (map option_of (x :: ns)) conf)
      with (apply_all (map option_of ns) (option_of x conf)).
    rewrite IH. cbn [Options.last_for].
    destruct (last_for f ns) as [n'|] eqn:El.
    + apply Hind. apply (last_for_field f ns n' El).
    + destruct (field_eqb (field_of x) f) eqn:E; [reflexivity|].
      apply Hkeep. intros H. apply field_eqb_eq in H. congruence.
Qed.

(** The fields of the configuration after a list of options of this file. *)
Lemma named_fields (ns : list named) (conf : config) :
  let conf' := apply_all (map option_of ns) conf in
  let pick {A : Type} (proj : config -> A) (f : field) : A :=
    match last_for f ns with
    | Some n => proj (option_of n conf)
    | None => proj conf
    end in
  level _ _ _ _ _ conf' = pick (level _ _ _ _ _) FLevel /\
  newWriter _ _ _ _ _ conf' = pick (newWriter _ _ _ _ _) FNewWriter /\
  wrapWriter _ _ _ _ _ conf' = pick (wrapWriter _ _ _ _ _) FWrapWriter /\
  newHandler _ _ _ _ _ conf' = pick (newHandler _ _ _ _ _) FNewHandler /\
  withSource _ _ _ _ _ conf' = pick (withSource _ _ _ _ _) FWithSource /\
  withPID _ _ _ _ _ conf' = pick (withPID _ _ _ _ _) FWithPID /\
  syncDuration _ _ _ _ _ conf' = syncDuration _ _ _ _ _ conf /\
  replaceAttr _ _ _ _ _ conf' = replaceAttr _ _ _ _ _ conf.
Proof.
  cbv zeta.
  repeat split;
    try (apply last_for_spec;
         [intros n Hn c; destruct n; try reflexivity; exfalso; apply Hn; reflexivity
         |intros n c1 c2 Hn; destruct n; try reflexivity; discriminate Hn]).
  - apply apply_all_keeps. apply Forall_forall. intros o Ho.
    apply in_map_iff in Ho as [n [<- _]]. intros c. destruct n; reflexivity.
  - apply apply_all_keeps. apply Forall_forall. intros o Ho.
    apply in_map_iff in Ho as [n [<- _]]. intros c. destruct n; reflexivity.
Qed.

(** X11: after any list of options of this file, each field of the
    configuration is what the last option that sets it leaves there, and
    what it was before when no option sets it; [syncDuration] and
    [replaceAttr] are what they were. *)
Theorem options_last_wins (ns : list named) (conf : config) :
  let conf' := apply_all (map option_of ns) conf in
  let pick {A : Type} (proj : config -> A) (f : field) : A :=
    match last_for f ns with
    | Some n => proj (option_of n conf)
    | None => proj conf
    end in
  level _ _ _ _ _ conf' = pick (level _ _ _ _ _) FLevel /\
  newWriter _ _ _ _ _ conf' = pick (newWriter _ _ _ _ _) FNewWriter /\
  wrapWriter _ _ _ _ _ conf' = pick (wrapWriter _ _ _ _ _) FWrapWriter /\
  newHandler _ _ _ _ _ conf' = pick (newHandler _ _ _ _ _) FNewHandler /\
  withSource _ _ _ _ _ conf' = pick (withSource _ _ _ _ _) FWithSource /\
  withPID _ _ _ _ _ conf' = pick (withPID _ _ _ _ _) FWithPID /\
  syncDuration _ _ _ _ _ conf' = syncDuration _ _ _ _ _ conf /\
  replaceAttr _ _ _ _ _ conf' = replaceAttr _ _ _ _ _ conf.
Proof. apply named_fields. Qed.

(** X12: [ProductionOptions], applied after any options, leave the level
    at info, [withSource] and [withPID] set, a batch of 16 as the wrapper
    and a rotating file at [./logit.log] without rotate options as the
    target, whatever the options before chose; the handler, [syncDuration]
    and [replaceAttr] are those the options before left. *)
Theorem ProductionOptions_fix (opts : list Option) (conf : config)
    (defaults : Defaults rotate_Option) (world : Config.World)
    (w : iowriter GivenWriter rotate_Option) :
  let conf' := apply_all (opts ++ ProductionOptions) conf in
  level _ _ _ _ _ conf' = LevelInfo /\
  withSource _ _ _ _ _ conf' = true /\
  withPID _ _ _ _ _ conf' = true /\
  option_map (fun wrap => wrap w) (wrapWriter _ _ _ _ _ conf')
    = Some (Batch _ _ w 16) /\
  newWriter _ _ _ _ _ conf' defaults world =
    match rotate_New _ defaults (str "./logit.log") [] with
    | Some err => (Err err, world)
    | None => (Ok (RotateFile _ _ (str "./logit.log") []),
               world ++ [Config.OpenedRotate (str "./logit.log")])
    end /\
  newHandler _ _ _ _ _ conf' = newHandler _ _ _ _ _ (apply_all opts conf) /\
  syncDuration _ _ _ _ _ conf' = syncDuration _ _ _ _ _ (apply_all opts conf) /\
  replaceAttr _ _ _ _ _ conf' = replaceAttr _ _ _ _ _ (apply_all opts conf).
Proof.
  cbv zeta. rewrite apply_all_app. repeat split.
Qed.

Section WithDefault.

Variable newDefaultConfig : config.
Variable conf_handler :
  config -> Defaults rotate_Option -> Config.World ->
  result LoggerPkg.Handler * Config.World.

#[local] Abbreviation NewLoggerGracefully :=
  (NewLoggerGracefully Level GivenWriter rotate_Option NewHandlerFunc ReplaceAttr
     newDefaultConfig conf_handler).
#[local] Abbreviation NewLogger :=
  (NewLogger Level GivenWriter rotate_Option NewHandlerFunc ReplaceAttr
     newDefaultConfig conf_handler).

(** X13: with options of this file, [NewLoggerGracefully] starts the sync
    task exactly when the handler is made without error and the
    [syncDuration] of [newDefaultConfig] is positive, since no option
    changes it; the logger it returns has [withSource] set exactly when
    the default has or [WithSource] is among the options, and likewise
    [withPID]; and [NewLogger] panics exactly when
    [NewLoggerGracefully] returns an error. *)
Theorem NewLoggerGracefully_task (ns : list named)
    (defaults : Defaults rotate_Option) (world : Config.World) :
  let r := NewLoggerGracefully (map option_of ns) defaults world in
  (snd r <> None <->
   is_ok (fst (fst r)) = true /\ 0 < syncDuration _ _ _ _ _ newDefaultConfig) /\
  (forall logger, fst (fst r) = Ok logger ->
     LoggerPkg.syncDuration logger = syncDuration _ _ _ _ _ newDefaultConfig /\
     (LoggerPkg.withSource logger = true <->
      withSource _ _ _ _ _ newDefaultConfig = true \/
      In (NSource _ _ _) ns) /\
     (LoggerPkg.withPID logger = true <->
      withPID _ _ _ _ _ newDefaultConfig = true \/
      In (NPID _ _ _) ns)) /\
  (NewLogger (map option_of ns) defaults world = None <->
   is_ok (fst (fst r)) = false).
Proof.
  cbv zeta.
  destruct (named_fields ns newDefaultConfig)
    as [_ [_ [_ [_ [Hsrc [Hpid [Hsync _]]]]]]].
  cbv zeta in Hsrc, Hpid, Hsync.
  unfold Options.NewLogger, Options.NewLoggerGracefully.
  destruct (conf_handler (apply_all (map option_of ns) newDefaultConfig)
              defaults world) as [[h|err] world'] eqn:Eh; cbn [fst snd is_ok].
  - split; [|split].
    + unfold AutoSync.runSyncTask. cbn [LoggerPkg.syncDuration].
      rewrite Hsync.
      destruct (syncDuration _ _ _ _ _ newDefaultConfig <=? 0) eqn:E.
      * apply Z.leb_le in E. split; [intros H; congruence|intros [_ H]; lia].
      * apply Z.leb_gt in E. split; [intros _; split; [reflexivity|lia]
                                    |intros _; discriminate].
    + intros logger Hl. inversion Hl; subst logger.
      cbn [LoggerPkg.syncDuration LoggerPkg.withSource LoggerPkg.withPID].
      split; [exact Hsync|]. split.
      * rewrite Hsrc.
        destruct (last_for FWithSource ns) as [n|] eqn:El.
        -- destruct (last_for_field _ _ _ El) as [Hf Hin].
           destruct n; try discriminate Hf. split; [intros _; right; exact Hin
                                                  |intros _; reflexivity].
        -- split; [intros H; left; exact H|].
           intros [H|H]; [exact H|].
           exfalso. apply (last_for_none _ _ _ El H). reflexivity.
      * rewrite Hpid.
        destruct (last_for FWithPID ns) as [n|] eqn:El.
        -- destruct (last_for_field _ _ _ El) as [Hf Hin].
           destruct n; try discriminate Hf. split; [intros _; right; exact Hin
                                                  |intros _; reflexivity].
        -- split; [intros H; left; exact H|].
           intros [H|H]; [exact H|].
           exfalso. apply (last_for_none _ _ _ El H). reflexivity.
    + split; [discriminate|discriminate].
  - split; [|split].
    + split; [intros H; congruence|intros [H _]; discriminate H].
    + intros logger Hl. discriminate Hl.
    + split; reflexivity.
Qed.

End WithDefault.

End WithTypes.

Lemma option_survives_witness :
  level nat nat nat nat unit
    (apply_all nat nat nat nat unit
       ([named_option (NDebugLevel nat nat nat)] ++
        named_option (NWarnLevel nat nat nat) ::
        [named_option (NSource nat nat nat); named_option (NBuffer nat nat nat 10)])
       (plain_config 0))
  = 2%nat.
Proof.
  refine (proj1 (option_survives nat 0%nat 1%nat 2%nat 3%nat 4%nat 5%nat
                   nat nat nat 0%nat 1%nat unit
                   (level nat nat nat nat unit)
                   [named_option (NDebugLevel nat nat nat)]
                   [named_option (NSource nat nat nat);
                    named_option (NBuffer nat nat nat 10)]
                   (named_option (NWarnLevel nat nat nat))
                   (plain_config 0) (NPID nat nat nat)) _).
  repeat constructor.
Defined.

Lemma options_commute_or_override_witness :
  named_option (NBatch nat nat nat 16)
    (named_option (NBuffer nat nat nat 1024) (plain_config 0))
  = named_option (NBatch nat nat nat 16) (plain_config 0).
Proof.
  exact (proj2 (options_commute_or_override nat 0%nat 1%nat 2%nat 3%nat 4%nat 5%nat
                  nat nat nat 0%nat 1%nat unit
                  (NBuffer nat nat nat 1024) (NBatch nat nat nat 16)
                  (plain_config 0)) eq_refl).
Defined.

Lemma NewLoggerGracefully_task_witness :
  snd (NewLoggerGracefully nat nat nat nat unit (plain_config 30) plain_handler
         (map named_option [NSource nat nat nat; NBatch nat nat nat 16])
         plain_defaults []) <> None.
Proof.
  apply (proj1 (NewLoggerGracefully_task nat 0%nat 1%nat 2%nat 3%nat 4%nat 5%nat
                  nat nat nat 0%nat 1%nat unit (plain_config 30) plain_handler
                  [NSource nat nat nat; NBatch nat nat nat 16]
                  plain_defaults [])).
  split; [reflexivity|reflexivity].
Defined.

End OptionsFacts.

(** ** Facts about the level and the caller flag of a core *)

Module CoreStateFacts.
Import ContextPkg CoreState.

Section WithLevel.

Variable Level : Type.
Variable EncoderObj : Type.
Variable WriterObj : Type.

#[local] Abbreviation core := (core Level EncoderObj WriterObj).
#[local] Abbreviation set_all := (set_all Level EncoderObj WriterObj).
#[local] Abbreviation newCore := (newCore Level EncoderObj WriterObj).

Lemma set_all_fields (ss : list (setting Level)) :
  forall c : core,
    level _ _ _ (set_all c ss) =
      match last_level Level ss with Some lv => Some lv | None => level _ _ _ c end /\
    needCaller _ _ _ (set_all c ss) =
      match last_needCaller Level ss with
      | Some b => Some b
      | None => needCaller _ _ _ c
      end /\
    encoders _ _ _ (set_all c ss) = encoders _ _ _ c /\
    writers _ _ _ (set_all c ss) = writers _ _ _ c.
Proof.
  induction ss as [|s ss IH]; intros c.
  - repeat split.
  - change (set_all c (s :: ss)) with (set_all (set _ _ _ c s) ss).
    destruct (IH (set _ _ _ c s)) as [Hl [Hn [He Hw]]].
    rewrite Hl, Hn, He, Hw. cbn [last_level last_needCaller].
    destruct (last_level Level ss), (last_needCaller Level ss), s;
      repeat split.
Qed.

(** X14: [Level] and [NeedCaller] panic on a core as [newCore] makes it,
    and go on to panic until [SetLevel], respectively [SetNeedCaller], has
    been called once; from then on each returns what its setter was last
    called with.  Neither setter changes the tables of encoders and
    writers. *)
Theorem Level_before_and_after_set (encoder : Core.Encoder EncoderObj)
    (writer : Core.Writer WriterObj) (ss : list (setting Level)) :
  let c := set_all (newCore encoder writer) ss in
  Level_of _ _ _ c =
    match last_level Level ss with Some lv => Returns lv | None => Panics end /\
  NeedCaller _ _ _ c =
    match last_needCaller Level ss with Some b => Returns b | None => Panics end /\
  Encoders _ _ _ c = Core.newEncoders EncoderObj encoder /\
  Writers _ _ _ c = Core.newWriters WriterObj writer.
Proof.
  cbv zeta.
  destruct (set_all_fields ss (newCore encoder writer)) as [Hl [Hn [He Hw]]].
  unfold Level_of, NeedCaller, Encoders, Writers.
  rewrite Hl, Hn, He, Hw. cbn [level needCaller CoreState.newCore].
  destruct (last_level Level ss), (last_needCaller Level ss); repeat split.
Qed.

End WithLevel.

End CoreStateFacts.

(** ** How the setters of the dispatch table compose *)

Module CoreComposeFacts.
Import Core.

Section Dispatch.

Variable Level : Type.
Variable Level_eq_dec : forall a b : Level, {a = b} + {a <> b}.
Variables DebugLevel InfoLevel WarnLevel : Level.
Variable EncoderObj : Type.
Variable WriterObj : Type.

#[local] Abbreviation encoders := (encoders EncoderObj).
#[local] Abbreviation writers := (writers WriterObj).
#[local] Abbreviation Encoder := (Encoder EncoderObj).
#[local] Abbreviation Writer := (Writer WriterObj).
#[local] Abbreviation set_encoder_at := (set_encoder_at EncoderObj).
#[local] Abbreviation set_writer_at := (set_writer_at WriterObj).
#[local] Abbreviation mutate := (mutate EncoderObj WriterObj).
#[local] Abbreviation encoders_of :=
  (encoders_of Level Level_eq_dec DebugLevel InfoLevel WarnLevel EncoderObj).
#[local] Abbreviation writers_of :=
  (writers_of Level Level_eq_dec DebugLevel InfoLevel WarnLevel WriterObj).

(** X15: two per-level setters for different levels can be called in
    either order; of two calls for the same level the later decides;
    [SetEncoder] and [SetWriter] wipe out every earlier setting of their
    table, after which [of] yields the new value for every level,
    recognized or not; and a call on the encoders and a call on the
    writers can be made in either order. *)
Theorem setters_compose (es : encoders) (ws : writers) (c : core EncoderObj WriterObj)
    (s1 s2 : slot) (e1 e2 : Encoder) (w1 w2 : Writer)
    (m1 m2 : mutation EncoderObj WriterObj) (level : Level) :
  (s1 <> s2 ->
   set_encoder_at s1 (set_encoder_at s2 es e2) e1 =
     set_encoder_at s2 (set_encoder_at s1 es e1) e2 /\
   set_writer_at s1 (set_writer_at s2 ws w2) w1 =
     set_writer_at s2 (set_writer_at s1 ws w1) w2) /\
  set_encoder_at s1 (set_encoder_at s1 es e2) e1 = set_encoder_at s1 es e1 /\
  set_writer_at s1 (set_writer_at s1 ws w2) w1 = set_writer_at s1 ws w1 /\
  SetEncoder EncoderObj (set_encoder_at s2 es e2) e1 = newEncoders EncoderObj e1 /\
  SetWriter WriterObj (set_writer_at s2 ws w2) w1 = newWriters WriterObj w1 /\
  encoders_of (SetEncoder EncoderObj es e1) level = e1 /\
  writers_of (SetWriter WriterObj ws w1) level = w1 /\
  (touches_encoders EncoderObj WriterObj m1 <>
   touches_encoders EncoderObj WriterObj m2 ->
   mutate (mutate c m1) m2 = mutate (mutate c m2) m1).
Proof.
  split; [|split; [|split; [|split; [|split; [|split; [|split]]]]]].
  - intros Hne. destruct s1, s2; try congruence; split; reflexivity.
  - destruct s1; reflexivity.
  - destruct s1; reflexivity.
  - destruct s2; reflexivity.
  - destruct s2; reflexivity.
  - unfold Core.encoders_of.
    repeat match goal with
           | |- context [Level_eq_dec ?a ?b] => destruct (Level_eq_dec a b)
           end; reflexivity.
  - unfold Core.writers_of.
    repeat match goal with
           | |- context [Level_eq_dec ?a ?b] => destruct (Level_eq_dec a b)
           end; reflexivity.
  - intros Hne. destruct m1, m2; try reflexivity; exfalso; apply Hne; reflexivity.
Qed.

End Dispatch.

Lemma setters_compose_witness :
  set_encoder_at nat SlotDebug
    (set_encoder_at nat SlotWarn (newEncoders nat (Some 1%nat)) (Some 2%nat))
    (Some 3%nat)
  = set_encoder_at nat SlotWarn
      (set_encoder_at nat SlotDebug (newEncoders nat (Some 1%nat)) (Some 3%nat))
      (Some 2%nat).
Proof.
  refine (proj1 (proj1 (setters_compose Z Z.eq_dec 0 1 2 nat nat
                          (newEncoders nat (Some 1%nat))
                          (newWriters nat (Some 1%nat))
                          (newCore nat nat (Some 1%nat) (Some 1%nat))
                          SlotDebug SlotWarn (Some 3%nat) (Some 2%nat)
                          (Some 3%nat) (Some 2%nat)
                          (CallSetEncoder nat nat None) (CallSetWriter nat nat None)
                          5) _)).
  discriminate.
Defined.

End CoreComposeFacts.

(** ** Facts about wrappers around wrappers *)

Module WrapperStackFacts.
Import Go Iface WriterPkg WrapperStack.

Lemma Flush_body_innermost (w : iowriter) (h : history) :
  Flush_body (as_Flusher w) h =
  match onFlush (innermost w) with
  | Some answer => (answer h, h ++ [CallFlush (oid (innermost w))])
  | None => ((0, None), h)
  end.
Proof.
  induction w as [o|inner IH]; simpl.
  - destruct (onFlush o); reflexivity.
  - exact IH.
Qed.

Lemma Close_body_innermost (w : iowriter) (h : history) :
  Close_body (as_Closer w) h =
  match onClose (innermost w) with
  | Some answer => (answer h, h ++ [CallClose (oid (innermost w))])
  | None => (None, h)
  end.
Proof.
  induction w as [o|inner IH]; simpl.
  - destruct (onClose o); reflexivity.
  - exact IH.
Qed.

(** X16: [Wrapped] applied to its own result changes nothing, and its
    result always has [Flush], [Write] and [Close]; it wraps at most once:
    the result is the argument or a wrapper directly around the
    argument. *)
Theorem Wrapped_idempotent (w : iowriter) :
  Wrapped (Wrapped w) = Wrapped w /\
  is_Writer (Wrapped w) = true /\
  (Wrapped w = w \/ Wrapped w = WriterWrapper w) /\
  innermost (Wrapped w) = innermost w.
Proof.
  unfold Wrapped.
  destruct (is_Writer w) eqn:E.
  - rewrite E. split; [reflexivity|]. split; [reflexivity|].
    split; [left; reflexivity|reflexivity].
  - cbn [is_Writer as_Flusher as_Closer is_some andb innermost].
    split; [reflexivity|]. split; [reflexivity|].
    split; [right; reflexivity|reflexivity].
Qed.

(** X17: a stack of wrappers is transparent.  [Write] on it makes the one
    call of [Write] on the object at the bottom, with the same bytes, and
    returns its answer; [Flush] and [Close] make the one call of the
    object's [Flush] or [Close] and return its answer when the object has
    the method, and otherwise make no call and return [(0, nil)] and
    [nil]; however many wrappers there are. *)
Theorem wrappers_transparent (w : iowriter) (p : gostring) (h : history) (n : nat) :
  innermost (wrap_times n w) = innermost w /\
  Write (wrap_times n w) p h =
    (onWrite (innermost w) h p, h ++ [CallWrite (oid (innermost w)) p]) /\
  Flush (wrap_times n w) h =
    match onFlush (innermost w) with
    | Some answer => (answer h, h ++ [CallFlush (oid (innermost w))])
    | None => ((0, None), h)
    end /\
  Close (wrap_times n w) h =
    match onClose (innermost w) with
    | Some answer => (answer h, h ++ [CallClose (oid (innermost w))])
    | None => (None, h)
    end.
Proof.
  assert (Hin : innermost (wrap_times n w) = innermost w).
  { induction n as [|n IH]; simpl; [reflexivity|exact IH]. }
  split; [exact Hin|].
  unfold Flush, Close, Write.
  rewrite Flush_body_innermost, Close_body_innermost, Hin.
  split; [|split; reflexivity].
  assert (Hw : forall w' : iowriter,
             Write_of w' p h =
             (onWrite (innermost w') h p, h ++ [CallWrite (oid (innermost w')) p])).
  { induction w' as [o|inner IH]; simpl; [reflexivity|exact IH]. }
  rewrite Hw, Hin. reflexivity.
Qed.

End WrapperStackFacts.

(** ** More facts about the configuration code *)

Module ConfigMoreFacts.
Import Go GoFacts Config ConfigFacts.

(** On digits [ParseUint] yields the number when it is below [2^64] and
    the range error from there on. *)
Lemma ParseUint_loop_exact (ds : gostring) :
  forall n, all_digits ds = true -> 0 <= n < 2 ^ 64 ->
    ParseUint_loop n ds =
    if fold_left step10 ds n <? 2 ^ 64
    then Ok (fold_left step10 ds n) else Err ErrRange.
Proof.
  induction ds as [|c ds IH]; intros n Hd Hn.
  - cbn [fold_left ParseUint_loop].
    destruct (n <? 2 ^ 64) eqn:E; [reflexivity|]. apply Z.ltb_ge in E. lia.
  - cbn [all_digits forallb] in Hd. apply andb_true_iff in Hd as [Hc Hd].
    pose proof (is_digit_range c Hc) as Hr.
    assert (Hn1 : 0 <= step10 n c) by (unfold step10; lia).
    pose proof (decimal_fold_ge ds (step10 n c) Hd Hn1) as Hge.
    cbn [fold_left].
    rewrite ParseUint_loop_cons, Hc. cbn [negb].
    destruct ((2 ^ 64 - 1) / 10 + 1 <=? n) eqn:Hcut.
    + apply Z.leb_le in Hcut.
      assert (2 ^ 64 <= step10 n c).
      { unfold step10.
        assert (((2 ^ 64 - 1) / 10 + 1) * 10 <= n * 10) by lia.
        assert (2 ^ 64 <= ((2 ^ 64 - 1) / 10 + 1) * 10) by (vm_compute; discriminate).
        lia. }
      destruct (fold_left step10 ds (step10 n c) <? 2 ^ 64) eqn:E; [|reflexivity].
      apply Z.ltb_lt in E. lia.
    + apply Z.leb_gt in Hcut.
      assert (Hn10 : n * 10 < 2 ^ 64).
      { assert (n <= (2 ^ 64 - 1) / 10) by lia.
        assert ((2 ^ 64 - 1) / 10 * 10 <= 2 ^ 64 - 1) by (vm_compute; discriminate).
        lia. }
      rewrite (u64_small (n * 10)) by lia.
      destruct (Z_lt_ge_dec (n * 10 + (byte_val c - 48)) (2 ^ 64)) as [Hfit|Hover].
      * rewrite (u64_small (n * 10 + (byte_val c - 48))) by lia.
        assert (Hlt : (n * 10 + (byte_val c - 48) <? n * 10) = false)
          by (apply Z.ltb_ge; lia).
        assert (Hmax : (2 ^ 64 - 1 <? n * 10 + (byte_val c - 48)) = false)
          by (apply Z.ltb_ge; lia).
        rewrite Hlt, Hmax. cbn [orb].
        apply IH; [exact Hd|unfold step10 in *; lia].
      * assert (Hwrap : u64 (n * 10 + (byte_val c - 48))
                        = n * 10 + (byte_val c - 48) - 2 ^ 64).
        { unfold u64.
          replace (n * 10 + (byte_val c - 48))
            with ((n * 10 + (byte_val c - 48) - 2 ^ 64) + 1 * 2 ^ 64) at 1 by lia.
          rewrite Z.mod_add by (vm_compute; discriminate).
          apply Z.mod_small. lia. }
        rewrite Hwrap.
        assert (Hlt : (n * 10 + (byte_val c - 48) - 2 ^ 64 <? n * 10) = true)
          by (apply Z.ltb_lt; lia).
        rewrite Hlt. cbn [orb].
        destruct (fold_left step10 ds (step10 n c) <? 2 ^ 64) eqn:E; [|reflexivity].
        apply Z.ltb_lt in E. unfold step10 in Hge at 1. lia.
Qed.

Lemma ParseInt_digits_exact (ds : gostring) :
  ds <> [] -> all_digits ds = true ->
  ParseInt ds =
  if decimal_value ds <? 2 ^ 63 then Ok (decimal_value ds) else Err ErrRange.
Proof.
  intros Hne Hd.
  pose proof (decimal_value_nonneg ds Hd) as H0.
  destruct (decimal_value ds <? 2 ^ 63) eqn:E.
  - apply Z.ltb_lt in E. apply ParseInt_digits; assumption.
  - apply Z.ltb_ge in E.
    destruct ds as [|c ds']; [congruence|].
    assert (Hc : is_digit c = true)
      by (cbn [all_digits forallb] in Hd; apply andb_true_iff in Hd; tauto).
    rewrite ParseInt_cons.
    rewrite (is_digit_not c "-" Hc eq_refl), (is_digit_not c "+" Hc eq_refl).
    cbn [orb negb andb].
    unfold ParseUint. rewrite ParseUint_loop_exact; [|exact Hd|lia].
    fold (decimal_value (c :: ds')).
    destruct (decimal_value (c :: ds') <? 2 ^ 64); [|reflexivity].
    assert (Hc1 : (2 ^ 63 <=? decimal_value (c :: ds')) = true)
      by (apply Z.leb_le; lia).
    rewrite Hc1. reflexivity.
Qed.

(** X18: for a non-empty string of decimal digits followed by [d] or [D],
    [parseTimeDuration] returns the range error of [strconv.ParseInt] when
    the number of days is [2^63] or more, and otherwise returns no error
    and the product of the days and [Day] as an int64 product: the exact
    duration up to 106751 days and a wrapped one beyond, negative from
    106752 to 213503 days. *)
Theorem parseTimeDuration_digits (ds : gostring) (sc : ascii) :
  ds <> [] -> all_digits ds = true -> sc = "d"%char \/ sc = "D"%char ->
  parseTimeDuration (ds ++ [sc]) =
    (if decimal_value ds <? 2 ^ 63
     then Ok (i64 (decimal_value ds * Day)) else Err ErrRange) /\
  (decimal_value ds <= 106751 ->
   parseTimeDuration (ds ++ [sc]) = Ok (decimal_value ds * Day)) /\
  (106752 <= decimal_value ds <= 213503 ->
   parseTimeDuration (ds ++ [sc]) = Ok (decimal_value ds * Day - 2 ^ 64) /\
   decimal_value ds * Day - 2 ^ 64 < 0).
Proof.
  intros Hne Hd Hsc.
  pose proof (decimal_value_nonneg ds Hd) as H0.
  assert (Hp : parseTimeDuration (ds ++ [sc]) =
               if decimal_value ds <? 2 ^ 63
               then Ok (i64 (decimal_value ds * Day)) else Err ErrRange).
  { rewrite parseTimeDuration_day; [|exact Hsc| |].
    - rewrite ParseInt_digits_exact by assumption.
      destruct (decimal_value ds <? 2 ^ 63); reflexivity.
    - apply (HasSuffix_digits [] ds "d" Hne Hd eq_refl).
    - apply (HasSuffix_digits [] ds "D" Hne Hd eq_refl). }
  split; [exact Hp|]. rewrite Hp, Day_value. split.
  - intros Hb.
    assert (E : (decimal_value ds <? 2 ^ 63) = true) by (apply Z.ltb_lt; lia).
    rewrite E, i64_small by lia. reflexivity.
  - intros Hb.
    assert (E : (decimal_value ds <? 2 ^ 63) = true) by (apply Z.ltb_lt; lia).
    rewrite E. split; [|lia].
    f_equal. unfold i64.
    replace (decimal_value ds * 86400000000000 + 2 ^ 63)
      with ((decimal_value ds * 86400000000000 - 2 ^ 63) + 1 * 2 ^ 64) by lia.
    rewrite Z.mod_add by (vm_compute; discriminate).
    rewrite Z.mod_small by lia. lia.
Qed.

Lemma parseTimeDuration_digits_witness :
  parseTimeDuration (str "106752d") = Ok (106752 * Day - 2 ^ 64).
Proof.
  assert (Hne : str "106752" <> []) by discriminate.
  refine (proj1 (proj2 (proj2
            (parseTimeDuration_digits (str "106752") "d" Hne eq_refl
               (or_introl eq_refl))) _)).
  vm_compute. split; discriminate.
Defined.

(** [ParseUint] stops with an error at a byte that is not a digit. *)
Lemma ParseUint_loop_nondigit (ds : gostring) (c : ascii) (rest : gostring) :
  is_digit c = false ->
  forall n, is_ok (ParseUint_loop n (ds ++ c :: rest)) = false.
Proof.
  intros Hc. induction ds as [|x ds IH]; intros n.
  - cbn [app]. rewrite ParseUint_loop_cons, Hc. reflexivity.
  - cbn [app]. rewrite ParseUint_loop_cons.
    destruct (negb (is_digit x)); [reflexivity|].
    destruct ((2 ^ 64 - 1) / 10 + 1 <=? n); [reflexivity|].
    destruct (_ || _); [reflexivity|]. apply IH.
Qed.

Lemma ParseInt_trailing (ds : gostring) (c : ascii) :
  all_digits ds = true -> is_digit c = false ->
  is_ok (ParseInt (ds ++ [c])) = false.
Proof.
  intros Hd Hc.
  assert (Hu : forall s, is_ok (ParseUint s) = false ->
                         is_ok (match ParseUint s with
                                | Err ErrRange => Err ErrRange
                                | Err e => Err e
                                | Ok un => @Ok Z un
                                end) = false).
  { intros s H. destruct (ParseUint s) as [un|[]]; try reflexivity. discriminate H. }
  destruct ds as [|x ds'].
  - cbn [app]. rewrite ParseInt_cons.
    destruct (Ascii.eqb c "+" || Ascii.eqb c "-"); cbn [ParseUint].
    + reflexivity.
    + rewrite ParseUint_loop_cons, Hc. reflexivity.
  - assert (Hx : is_digit x = true)
      by (cbn [all_digits forallb] in Hd; apply andb_true_iff in Hd; tauto).
    cbn [app]. rewrite ParseInt_cons.
    rewrite (is_digit_not x "-" Hx eq_refl), (is_digit_not x "+" Hx eq_refl).
    cbn [orb negb andb].
    assert (He : is_ok (ParseUint (x :: ds' ++ [c])) = false)
      by (apply (ParseUint_loop_nondigit (x :: ds') c [] Hc 0)).
    destruct (ParseUint (x :: ds' ++ [c])) as [un|[]]; try reflexivity.
    discriminate He.
Qed.

(** X19: of the four doubled day suffixes only [Dd] is accepted: a string
    of digits followed by [Dd] is read as the same string followed by
    [d], since both suffixes are trimmed in turn, while [dd], [dD] and
    [DD] after the digits are an error, as one of the two letters is left
    for [strconv.ParseInt]. *)
Theorem parseTimeDuration_doubled_suffix (ds : gostring) :
  all_digits ds = true ->
  parseTimeDuration (ds ++ str "Dd") = parseTimeDuration (ds ++ str "d") /\
  is_ok (parseTimeDuration (ds ++ str "dd")) = false /\
  is_ok (parseTimeDuration (ds ++ str "dD")) = false /\
  is_ok (parseTimeDuration (ds ++ str "DD")) = false.
Proof.
  intros Hd.
  assert (Hnd : forall x, is_digit x = false -> HasSuffix ds [x] = false).
  { intros x Hx. destruct ds as [|c0 ds0].
    - reflexivity.
    - apply (HasSuffix_digits [] (c0 :: ds0) x); [discriminate|exact Hd|exact Hx]. }
  change (str "Dd") with (["D"; "d"]%char). change (str "d") with (["d"]%char).
  change (str "dd") with (["d"; "d"]%char). change (str "dD") with (["d"; "D"]%char).
  change (str "DD") with (["D"; "D"]%char).
  assert (Hsplit : forall a b : ascii, ds ++ [a; b] = (ds ++ [a]) ++ [b])
    by (intros a b; rewrite <- app_assoc; reflexivity).
  assert (Hbad : forall a b : ascii,
             is_digit a = false ->
             parseTimeDuration (ds ++ [a; b]) =
             match ParseInt (ds ++ [a]) with
             | Err err => Err err
             | Ok days => Ok (i64 (days * Day))
             end ->
             is_ok (parseTimeDuration (ds ++ [a; b])) = false).
  { intros a b Ha ->. pose proof (ParseInt_trailing ds a Hd Ha) as He.
    destruct (ParseInt (ds ++ [a])); [discriminate He|reflexivity]. }
  split; [|split; [|split]].
  - rewrite (parseTimeDuration_day ds "d" (or_introl eq_refl)
               (Hnd "d"%char eq_refl) (Hnd "D"%char eq_refl)).
    rewrite Hsplit. unfold parseTimeDuration.
    change (str "d") with ["d"%char]. change (str "D") with ["D"%char].
    rewrite !HasSuffix_last. cbn [Ascii.eqb orb]. cbv zeta.
    change (Ascii.eqb "d" "d") with true. cbn [orb].
    rewrite TrimSuffix_last, TrimSuffix_last. reflexivity.
  - apply Hbad; [reflexivity|]. rewrite Hsplit. unfold parseTimeDuration.
    change (str "d") with ["d"%char]. change (str "D") with ["D"%char].
    rewrite !HasSuffix_last. change (Ascii.eqb "d" "d") with true.
    cbn [orb]. cbv zeta. rewrite TrimSuffix_last.
    rewrite (TrimSuffix_other (ds ++ ["d"%char]) ["D"%char])
      by (rewrite HasSuffix_last; reflexivity).
    reflexivity.
  - apply Hbad; [reflexivity|]. rewrite Hsplit. unfold parseTimeDuration.
    change (str "d") with ["d"%char]. change (str "D") with ["D"%char].
    rewrite !HasSuffix_last.
    change (Ascii.eqb "D" "d") with false. change (Ascii.eqb "D" "D") with true.
    cbn [orb]. cbv zeta.
    rewrite (TrimSuffix_other ((ds ++ ["d"%char]) ++ ["D"%char]) ["d"%char])
      by (rewrite HasSuffix_last; reflexivity).
    rewrite TrimSuffix_last. reflexivity.
  - apply Hbad; [reflexivity|]. rewrite Hsplit. unfold parseTimeDuration.
    change (str "d") with ["d"%char]. change (str "D") with ["D"%char].
    rewrite !HasSuffix_last.
    change (Ascii.eqb "D" "d") with false. change (Ascii.eqb "D" "D") with true.
    cbn [orb]. cbv zeta.
    rewrite (TrimSuffix_other ((ds ++ ["D"%char]) ++ ["D"%char]) ["d"%char])
      by (rewrite HasSuffix_last; reflexivity).
    rewrite TrimSuffix_last. reflexivity.
Qed.

Lemma parseTimeDuration_doubled_suffix_witness :
  parseTimeDuration (str "5Dd") = parseTimeDuration (str "5d") /\
  is_ok (parseTimeDuration (str "5dD")) = false.
Proof.
  pose proof (parseTimeDuration_doubled_suffix (str "5") eq_refl) as [H1 [_ [H2 _]]].
  split; [exact H1|exact H2].
Defined.

(** X20: a rotating file is made from the path alone: when the [MaxSize]
    and [MaxAge] strings are empty or parse, [newFile] does for two
    configurations with the same path exactly the same, whatever their
    sizes, ages, backup counts and modes are, as the options it collects
    are not handed to [file.New]; and for a file that does not rotate the
    three limits are not read at all. *)
Theorem newFile_ignores_limits (env : Env) (c1 c2 : Config) (world : World) :
  FileConfig.Path (File c1) = FileConfig.Path (File c2) ->
  (FileConfig.Rotate (File c1) = true -> FileConfig.Rotate (File c2) = true ->
   ConfigMore.limits_parse env c1 = true -> ConfigMore.limits_parse env c2 = true ->
   newFile env c1 world = newFile env c2 world) /\
  (FileConfig.Rotate (File c1) = false -> FileConfig.Rotate (File c2) = false ->
   FileConfig.Mode (File c1) = FileConfig.Mode (File c2) ->
   FileConfig.DirMode (File c1) = FileConfig.DirMode (File c2) ->
   newFile env c1 world = newFile env c2 world).
Proof.
  intros Hpath. split.
  - intros Hr1 Hr2 Hl1 Hl2.
    assert (Hrot : forall c,
               FileConfig.Rotate (File c) = true ->
               ConfigMore.limits_parse env c = true ->
               newFile env c world =
               match file_New env (FileConfig.Path (File c)) with
               | Some err => (Err err, world)
               | None => (Ok (RotateFile (FileConfig.Path (File c))),
                          world ++ [OpenedRotate (FileConfig.Path (File c))])
               end).
    { intros c Hr Hl. unfold newFile. rewrite Hr.
      unfold ConfigMore.limits_parse in Hl.
      apply andb_true_iff in Hl as [Hs Ha].
      destruct (is_empty (FileConfig.MaxSize (File c))); cbn [negb orb] in *.
      - destruct (is_empty (FileConfig.MaxAge (File c))); cbn [negb orb] in *.
        + reflexivity.
        + destruct (parseTimeDuration (FileConfig.MaxAge (File c)));
            [reflexivity|discriminate Ha].
      - destruct (ParseByteSize env (FileConfig.MaxSize (File c)));
          [|discriminate Hs].
        destruct (is_empty (FileConfig.MaxAge (File c))); cbn [negb orb] in *.
        + reflexivity.
        + destruct (parseTimeDuration (FileConfig.MaxAge (File c)));
            [reflexivity|discriminate Ha]. }
    rewrite (Hrot c1 Hr1 Hl1), (Hrot c2 Hr2 Hl2), Hpath. reflexivity.
  - intros Hr1 Hr2 Hm Hd. unfold newFile. rewrite Hr1, Hr2, Hpath, Hm, Hd.
    reflexivity.
Qed.

Lemma newFile_ignores_limits_witness :
  newFile ok_env
    (ConfigMore.with_file (ConfigMore.rotating (str "1KB") (str "1h") 1) (str "direct")) []
  = newFile ok_env
      (ConfigMore.with_file (ConfigMore.rotating (str "1GB") (str "90d") 100)
         (str "direct")) [].
Proof.
  apply (proj1 (newFile_ignores_limits ok_env
                  (ConfigMore.with_file (ConfigMore.rotating (str "1KB") (str "1h") 1)
                     (str "direct"))
                  (ConfigMore.with_file (ConfigMore.rotating (str "1GB") (str "90d") 100)
                     (str "direct"))
                  [] eq_refl)); reflexivity.
Defined.

(** X21: when the target is a file that [newFile] opens and [newWriter]
    fails afterwards, on the mode, the buffer size or [AutoSync], the
    error is returned with the file left open: the effect of opening it is
    the last one, nothing closes it, and no task is started. *)
Theorem newWriter_leaves_file_open (env : Env) (c : Config) (world : World) :
  bytes_eqb (WriterConfig.Target (Writer c)) (str "file") = true ->
  newFile_fails env c = false ->
  newWriter_fails env c = true ->
  is_ok (fst (newWriter env c world)) = false /\
  snd (newWriter env c world) = snd (newFile env c world) /\
  (exists before, snd (newWriter env c world) = world ++ before ++ [ConfigMore.opens c]) /\
  spawned (snd (newWriter env c world)) = spawned world.
Proof.
  intros Ht Hf Hw.
  pose proof (proj1 (newWriter_is_ok env c world)) as Hok. rewrite Hw in Hok.
  cbn [negb] in Hok.
  assert (Hnf : exists f before,
             newFile env c world = (Ok f, world ++ before ++ [ConfigMore.opens c]) /\
             spawned before = []).
  { unfold newFile_fails in Hf. unfold newFile, ConfigMore.opens.
    destruct (FileConfig.Rotate (File c)).
    - apply orb_false_iff in Hf as [Hf Hn]. apply orb_false_iff in Hf as [Hs Ha].
      destruct (file_New env (FileConfig.Path (File c))); [discriminate Hn|].
      destruct (negb (is_empty (FileConfig.MaxSize (File c)))); cbn [andb] in Hs;
        [destruct (ParseByteSize env (FileConfig.MaxSize (File c)));
         [|discriminate Hs]|];
        (destruct (negb (is_empty (FileConfig.MaxAge (File c)))); cbn [andb] in Ha;
         [destruct (parseTimeDuration (FileConfig.MaxAge (File c)));
          [|discriminate Ha]|]);
        eexists _, []; split; reflexivity.
    - apply orb_false_iff in Hf as [Hm Ho].
      destruct (MkdirAll env _ _); [discriminate Hm|].
      destruct (OpenFile env _ _); [discriminate Ho|].
      eexists _, [_]. split; [rewrite <- app_assoc; reflexivity|reflexivity]. }
  destruct Hnf as [f [before [Hnf Hsp]]].
  rewrite newWriter_after_target in *. cbv zeta in *.
  destruct (target_cases (WriterConfig.Target (Writer c)))
    as [[E1 [E2 E3]]|[[E1 [E2 E3]]|[[E1 [E2 E3]]|[E1 [E2 E3]]]]];
    try congruence.
  rewrite E1, E2, E3 in *. rewrite Hnf in *. cbn [snd].
  destruct (after_target_is_ok env c (Wrap f) (world ++ before ++ [ConfigMore.opens c]))
    as [_ [added [Hadd [Hnone _]]]].
  rewrite (Hnone Hok), app_nil_r in Hadd.
  split; [exact Hok|]. split; [exact Hadd|].
  split; [exists before; exact Hadd|].
  rewrite Hadd, !spawned_app, Hsp.
  unfold ConfigMore.opens. destruct (FileConfig.Rotate (File c)); cbn;
    rewrite app_nil_r; reflexivity.
Qed.

Lemma newWriter_leaves_file_open_witness :
  is_ok (fst (newWriter ok_env
                (ConfigMore.with_file (ConfigMore.rotating (str "1KB") (str "1h") 1)
                   (str "fast")) [])) = false /\
  snd (newWriter ok_env
         (ConfigMore.with_file (ConfigMore.rotating (str "1KB") (str "1h") 1)
            (str "fast")) [])
  = snd (newFile ok_env
           (ConfigMore.with_file (ConfigMore.rotating (str "1KB") (str "1h") 1)
              (str "fast")) []).
Proof.
  destruct (newWriter_leaves_file_open ok_env
              (ConfigMore.with_file (ConfigMore.rotating (str "1KB") (str "1h") 1)
                 (str "fast")) [] eq_refl eq_refl eq_refl) as [H1 [H2 _]].
  split; [exact H1|exact H2].
Defined.

(** X24: with the target stdout or stderr, [newWriter] reads nothing of
    the file section and makes no directory and no file: two
    configurations with the same writer section get the same result, and
    the only effect it can add is the auto-sync task. *)
Theorem newWriter_console (env : Env) (c1 c2 : Config) (world : World) :
  bytes_eqb (WriterConfig.Target (Writer c1)) (str "stdout") = true \/
  bytes_eqb (WriterConfig.Target (Writer c1)) (str "stderr") = true ->
  Writer c1 = Writer c2 ->
  newWriter env c1 world = newWriter env c2 world /\
  exists added,
    snd (newWriter env c1 world) = world ++ added /\ spawned added = added.
Proof.
  intros Ht Hw.
  assert (Hat : forall w, after_target env c1 w world = after_target env c2 w world)
    by (intros w; unfold after_target; rewrite Hw; reflexivity).
  assert (Hadd : forall w, exists added,
             snd (after_target env c1 w world) = world ++ added /\
             spawned added = added).
  { intros w.
    destruct (after_target_is_ok env c1 w world) as [_ [added [Ha [Hn Hs]]]].
    exists added. split; [exact Ha|].
    destruct (fst (after_target env c1 w world)) as [w'|err] eqn:E.
    - rewrite (Hs w' eq_refl).
      destruct (is_empty _); [reflexivity|].
      destruct (ParseDuration _); reflexivity.
    - rewrite (Hn eq_refl). reflexivity. }
  rewrite !newWriter_after_target. cbv zeta. rewrite <- Hw.
  destruct (bytes_eqb (WriterConfig.Target (Writer c1)) (str "stdout"));
    [split; [apply Hat|apply Hadd]|].
  destruct (bytes_eqb (WriterConfig.Target (Writer c1)) (str "stderr"));
    [split; [apply Hat|apply Hadd]|].
  destruct Ht as [Ht|Ht]; discriminate Ht.
Qed.

Lemma newWriter_console_witness :
  newWriter readonly_env NewDefaultConfig [] =
  newWriter readonly_env
    {| Level := Level NewDefaultConfig;
       Handler := Handler NewDefaultConfig;
       Writer := Writer NewDefaultConfig;
       File := ConfigMore.rotating (str "no size") (str "no age") 0;
       WithSource := false;
       WithPID := false |} [].
Proof.
  apply (newWriter_console readonly_env NewDefaultConfig
           {| Level := Level NewDefaultConfig;
              Handler := Handler NewDefaultConfig;
              Writer := Writer NewDefaultConfig;
              File := ConfigMore.rotating (str "no size") (str "no age") 0;
              WithSource := false;
              WithPID := false |} []).
  - left. reflexivity.
  - reflexivity.
Defined.

End ConfigMoreFacts.

(** ** More facts about the filename generator *)

Module FilesMoreFacts.
Import Go GoFacts Files FilesMore.

Lemma list_ascii_of_string_inj (a b : string) :
  list_ascii_of_string a = list_ascii_of_string b -> a = b.
Proof.
  intros H. rewrite <- (string_of_list_ascii_of_string a),
              <- (string_of_list_ascii_of_string b), H. reflexivity.
Qed.

Lemma Z_to_int_proper (x : Z) :
  Z.to_int x <> Decimal.Pos Decimal.Nil /\ Z.to_int x <> Decimal.Neg Decimal.Nil.
Proof.
  destruct x as [|p|p]; simpl; split; try discriminate;
    intros H; inversion H as [Hp]; apply (DecimalPos.Unsigned.to_uint_nonnil p Hp).
Qed.

(** [strconv.Itoa] prints different numbers differently. *)
Lemma Itoa_inj (x y : Z) : Itoa x = Itoa y -> x = y.
Proof.
  unfold Itoa. intros H. apply list_ascii_of_string_inj in H.
  apply DecimalZ.to_int_inj.
  destruct (Z_to_int_proper x) as [Hx1 Hx2], (Z_to_int_proper y) as [Hy1 Hy2].
  pose proof (NilZero.isi (Z.to_int x) Hx1 Hx2) as Ex.
  pose proof (NilZero.isi (Z.to_int y) Hy1 Hy2) as Ey.
  rewrite H in Ex. rewrite Ex in Ey. inversion Ey. reflexivity.
Qed.

Lemma no_separator_app (a b : gostring) :
  no_separator (a ++ b) = no_separator a && no_separator b.
Proof. apply forallb_app. Qed.

Lemma uint_no_separator (d : Decimal.uint) :
  no_separator (list_ascii_of_string (NilEmpty.string_of_uint d)) = true.
Proof. induction d; simpl; auto. Qed.

Lemma Itoa_no_separator (x : Z) : no_separator (Itoa x) = true.
Proof.
  unfold Itoa.
  assert (H : forall d, no_separator
                          (list_ascii_of_string (NilZero.string_of_uint d)) = true).
  { intros d. destruct d; try apply uint_no_separator. reflexivity. }
  destruct (Z.to_int x) as [d|d]; simpl; [apply H|].
  apply H.
Qed.

Lemma appendInt_no_separator (x : Z) (w : nat) :
  no_separator (appendInt x w) = true.
Proof.
  unfold appendInt. rewrite !no_separator_app, Itoa_no_separator.
  assert (Hrep : forall n, no_separator (repeat "0"%char n) = true)
    by (induction n; simpl; auto).
  rewrite Hrep. destruct (x <? 0); reflexivity.
Qed.

Lemma Format_no_separator (t : Time) : no_separator (Format t) = true.
Proof.
  unfold Format. rewrite !no_separator_app, !appendInt_no_separator. reflexivity.
Qed.

(** The names of the generator are plain. *)
Lemma name_plain (t : Time) (r : Z) :
  plain_name (Format t ++ str "-" ++ Itoa r ++ SuffixOfLogFile) = true.
Proof.
  unfold plain_name. apply andb_true_iff. split.
  - rewrite !no_separator_app, Format_no_separator, Itoa_no_separator. reflexivity.
  - apply Nat.leb_le. unfold len. rewrite !length_app.
    change (List.length SuffixOfLogFile) with 4%nat. lia.
Qed.

Lemma unix_Join_keeps_names : Join_keeps_names unix_Join.
Proof.
  intros d a b _ _. unfold unix_Join.
  destruct d as [|c d]; [auto|].
  destruct (HasSuffix (c :: d) (str "/")); intros H.
  - now apply app_inv_head in H.
  - apply app_inv_head in H. now apply app_inv_head in H.
Qed.

(** X22: for one directory and one time, two names of the generator are
    the same path exactly when the two random draws agree modulo
    1000000, provided [filepath.Join] keeps plain names apart: there are
    no other collisions within a second, and these are all there. *)
Theorem names_equal_iff_draws (Join : gostring -> gostring -> gostring)
    (directory : gostring) (now : Time) (x y : Z) (rest1 rest2 : Source) :
  Join_keeps_names Join ->
  (fst (DefaultNameGenerator Join directory now (x :: rest1)) =
   fst (DefaultNameGenerator Join directory now (y :: rest2)) <->
   x mod 1000000 = y mod 1000000).
Proof.
  intros HJ. split.
  - unfold DefaultNameGenerator, Intn. cbn [fst]. intros H.
    apply HJ in H; try apply name_plain.
    apply app_inv_head in H. apply app_inv_head in H.
    apply app_inv_tail in H. now apply Itoa_inj.
  - apply FilesFacts.DefaultNameGenerator_same_draw.
Qed.

Lemma names_equal_iff_draws_witness :
  fst (DefaultNameGenerator unix_Join (str "logs") sample_time [45; 7]) <>
  fst (DefaultNameGenerator unix_Join (str "logs") sample_time [46; 7]).
Proof.
  intros H.
  apply (names_equal_iff_draws unix_Join (str "logs") sample_time 45 46 [7] [7]
           unix_Join_keeps_names) in H.
  vm_compute in H. discriminate H.
Defined.

Lemma upto_In (n : nat) :
  forall x y, x <= y < x + Z.of_nat n -> In y (upto n x).
Proof.
  induction n as [|n IH]; intros x y H.
  - simpl in H. lia.
  - cbn [upto]. destruct (Z.eq_dec x y) as [->|Hne]; [left; reflexivity|].
    right. apply IH. lia.
Qed.

Lemma prints_in_4_all : forallb (prints_in 4) (upto (Z.to_nat 10000) 0) = true.
Proof. vm_compute. reflexivity. Qed.

Lemma prints_in_2_all : forallb (prints_in 2) (upto (Z.to_nat 100) 0) = true.
Proof. vm_compute. reflexivity. Qed.

Lemma prints_in_spec (w : nat) (x : Z) :
  prints_in w x = true ->
  len (appendInt x w) = w /\ decimal_value (appendInt x w) = x.
Proof.
  unfold prints_in. rewrite !andb_true_iff, Nat.eqb_eq, Z.eqb_eq. tauto.
Qed.

Lemma prints_in_4 (x : Z) :
  0 <= x <= 9999 ->
  len (appendInt x 4) = 4%nat /\ decimal_value (appendInt x 4) = x.
Proof.
  intros H. apply prints_in_spec.
  apply (proj1 (forallb_forall _ _) prints_in_4_all).
  apply upto_In. rewrite Z2Nat.id; lia.
Qed.

Lemma prints_in_2 (x : Z) :
  0 <= x <= 99 ->
  len (appendInt x 2) = 2%nat /\ decimal_value (appendInt x 2) = x.
Proof.
  intros H. apply prints_in_spec.
  apply (proj1 (forallb_forall _ _) prints_in_2_all).
  apply upto_In. rewrite Z2Nat.id; lia.
Qed.

(** Two lists that agree on a prefix of the same length. *)
Lemma app_inj_len (a a' b b' : gostring) :
  len a = len a' -> a ++ b = a' ++ b' -> a = a' /\ b = b'.
Proof.
  unfold len. revert a'. induction a as [|x a IH]; intros [|x' a'] Hl H;
    simpl in Hl; try discriminate.
  - split; [reflexivity|exact H].
  - simpl in H. inversion H; subst.
    destruct (IH a' (eq_add_S _ _ Hl) H2) as [-> ->]. split; reflexivity.
Qed.

Lemma Format_len (t : Time) : valid_time t -> len (Format t) = 15%nat.
Proof.
  intros [Hy [Hm [Hd [Hh [Hmi Hs]]]]]. unfold Format, len.
  rewrite !length_app.
  fold (len (appendInt (year t) 4)). fold (len (appendInt (month t) 2)).
  fold (len (appendInt (day t) 2)). fold (len (appendInt (hour t) 2)).
  fold (len (appendInt (minute t) 2)). fold (len (appendInt (second t) 2)).
  rewrite (proj1 (prints_in_4 (year t) Hy)).
  rewrite (proj1 (prints_in_2 (month t) ltac:(lia))).
  rewrite (proj1 (prints_in_2 (day t) ltac:(lia))).
  rewrite (proj1 (prints_in_2 (hour t) ltac:(lia))).
  rewrite (proj1 (prints_in_2 (minute t) ltac:(lia))).
  rewrite (proj1 (prints_in_2 (second t) ltac:(lia))).
  reflexivity.
Qed.

Lemma appendInt_inj (w : nat) (x y : Z) :
  (len (appendInt x w) = w /\ decimal_value (appendInt x w) = x) ->
  (len (appendInt y w) = w /\ decimal_value (appendInt y w) = y) ->
  forall b b', appendInt x w ++ b = appendInt y w ++ b' -> x = y /\ b = b'.
Proof.
  intros [Hlx Hvx] [Hly Hvy] b b' H.
  destruct (app_inj_len _ _ _ _ (eq_trans Hlx (eq_sym Hly)) H) as [Ha Hb].
  split; [|exact Hb]. rewrite <- Hvx, <- Hvy, Ha. reflexivity.
Qed.

(** The layout prints different calendar times differently. *)
Lemma Format_inj (t1 t2 : Time) :
  valid_time t1 -> valid_time t2 -> Format t1 = Format t2 -> t1 = t2.
Proof.
  intros [Hy1 [Hm1 [Hd1 [Hh1 [Hmi1 Hs1]]]]] [Hy2 [Hm2 [Hd2 [Hh2 [Hmi2 Hs2]]]]].
  unfold Format. intros H.
  apply (appendInt_inj 4) in H as [Ey H]; try (apply prints_in_4; lia).
  apply (appendInt_inj 2) in H as [Em H]; try (apply prints_in_2; lia).
  apply (appendInt_inj 2) in H as [Ed H]; try (apply prints_in_2; lia).
  cbn [str list_ascii_of_string app] in H. inversion H as [H'].
  apply (appendInt_inj 2) in H' as [Eh H']; try (apply prints_in_2; lia).
  apply (appendInt_inj 2) in H' as [Emi H']; try (apply prints_in_2; lia).
  rewrite <- (app_nil_r (appendInt (second t1) 2)),
          <- (app_nil_r (appendInt (second t2) 2)) in H'.
  apply (appendInt_inj 2) in H' as [Es _]; try (apply prints_in_2; lia).
  destruct t1, t2; simpl in *; subst; reflexivity.
Qed.

(** X23: names made at two different calendar times are different paths,
    whatever the random draws are, provided [filepath.Join] keeps plain
    names apart: the timestamp has fifteen bytes for every time of the
    calendar and reads back as that time. *)
Theorem names_differ_across_seconds (Join : gostring -> gostring -> gostring)
    (directory : gostring) (t1 t2 : Time) (src1 src2 : Source) :
  Join_keeps_names Join -> valid_time t1 -> valid_time t2 ->
  fst (DefaultNameGenerator Join directory t1 src1) =
  fst (DefaultNameGenerator Join directory t2 src2) ->
  t1 = t2.
Proof.
  intros HJ Hv1 Hv2. unfold DefaultNameGenerator.
  destruct (Intn 1000000 src1) as [r1 s1], (Intn 1000000 src2) as [r2 s2].
  cbn [fst]. intros H.
  apply HJ in H; try apply name_plain.
  apply app_inj_len in H as [H _];
    [|rewrite (Format_len t1 Hv1), (Format_len t2 Hv2); reflexivity].
  apply Format_inj; assumption.
Qed.

Lemma names_differ_across_seconds_witness :
  fst (DefaultNameGenerator unix_Join (str "logs") sample_time [45]) <>
  fst (DefaultNameGenerator unix_Join (str "logs")
         (mkTime 2020 3 4 14 52 47) [45]).
Proof.
  intros H.
  apply (names_differ_across_seconds unix_Join (str "logs") sample_time
           (mkTime 2020 3 4 14 52 47) [45] [45] unix_Join_keeps_names) in H.
  - discriminate H.
  - unfold valid_time. simpl. lia.
  - unfold valid_time. simpl. lia.
Defined.

End FilesMoreFacts.
